(** * ChatmixCoreAudio: the dial-to-volume synchronisation engine

    A shallow embedding of the two variants of the program,
    [chatmix.py] (closures over local variables) and [coremix.py]
    (the [CoreMix] class), and the properties of the specification
    checked against them.

    Conventions of the embedding.
    - Python integers are [Z]; the true division [level / 100] is the
      exact rational [level # 100] (the rounding of the quotient to a
      float is outside the model).
    - Python [set]s are stdpp [gset]s, the [volume_cache] dict is a
      [gmap string Z].
    - The operating system is an oracle: the k-th call of
      [AudioUtilities.GetAllSessions()] returns [audio k], the k-th call
      of [dev.read(...)] has the outcome [usb k].  The world counts the
      calls made so far.
    - Code runs in a state-writer-exception monad: a computation takes
      the world, and returns a result (a value or a raised exception),
      the new world and the events it emitted, in order.
    - A thread is advanced one turn of its [while] loop at a time; the
      [except] and [finally] clauses that wrap the loop are run on the
      turn that leaves it.  The turn of the dial loop is cut once more,
      between its two assignments of the levels, where the other thread
      may run.  [interleave] runs the process under a schedule of such
      turns. *)

From Stdlib Require Import ZArith QArith Lia.
From stdpp Require Import base option list gmap sets strings.

#[local] Set Warnings "-clear-no-such-hyp".

Close Scope Q_scope.
Open Scope Z_scope.

(** ** The Python runtime, as far as the program uses it *)

Module Py.

(** The exceptions that occur.  [KeyboardInterrupt] is the only one
    that is not an [Exception]. *)
Inductive Exn : Type :=
| NoSuchProcess
| COMError
| IndexError
| KeyError
| RuntimeError
| USBError (errno : Z)
| KeyboardInterrupt.

Definition is_Exception (e : Exn) : bool :=
  match e with
  | KeyboardInterrupt => false
  | _ => true
  end.

Inductive Res (A : Type) : Type :=
| Ok (a : A)
| Raise (e : Exn).
Arguments Ok {A} a.
Arguments Raise {A} e.

(** [session.Process]: a psutil process object, whose [name()] returns
    the executable's name or raises [NoSuchProcess] when the process has
    gone. *)
Record Proc : Type := { name : Res string }.

(** One element of [AudioUtilities.GetAllSessions()].  [Process] is
    [None] for a session without an owning process.  [volume_ctl] is the
    outcome of [SetMasterVolume] on the session's [ISimpleAudioVolume]
    interface: the call is fallible, a session may have gone by the time
    it is made. *)
Record Session : Type := {
  Process : option Proc;
  ProcessId : Z;
  volume_ctl : Res unit
}.

Inductive LogLevel : Type := DEBUG | INFO | ERROR.

(** What the program does to the outside. *)
Inductive Event : Type :=
| SetMasterVolume (session : Session) (level : Q)
| Sleep (seconds : Z)
| Log (lvl : LogLevel)
| Print
| DisposeResources.

(** [level / 100] *)
Definition div100 (level : Z) : Q := Qmake level 100.

(** The monad. *)
Definition M (W A : Type) : Type := W -> Res A * W * list Event.

Definition ret {W A} (a : A) : M W A := fun w => (Ok a, w, []).

Definition raise {W A} (e : Exn) : M W A := fun w => (Raise e, w, []).

Definition bind {W A B} (m : M W A) (f : A -> M W B) : M W B :=
  fun w =>
    match m w with
    | (Ok a, w1, t1) =>
        match f a w1 with
        | (r, w2, t2) => (r, w2, t1 ++ t2)
        end
    | (Raise e, w1, t1) => (Raise e, w1, t1)
    end.

Definition get {W} : M W W := fun w => (Ok w, w, []).

Definition modify {W} (f : W -> W) : M W unit := fun w => (Ok tt, f w, []).

Definition emit {W} (ev : Event) : M W unit := fun w => (Ok tt, w, [ev]).

Definition lift {W A} (r : Res A) : M W A := fun w => (r, w, []).

(** [try: m  except <any> as e: handler e]; a handler that does not
    match re-raises. *)
Definition try_except {W A} (m : M W A) (handler : Exn -> M W A) : M W A :=
  fun w =>
    match m w with
    | (Ok a, w1, t1) => (Ok a, w1, t1)
    | (Raise e, w1, t1) =>
        match handler e w1 with
        | (r, w2, t2) => (r, w2, t1 ++ t2)
        end
    end.

(** [for x in l: body x] *)
Fixpoint for_each {W A} (l : list A) (body : A -> M W unit) : M W unit :=
  match l with
  | [] => ret tt
  | x :: l' => bind (body x) (fun _ => for_each l' body)
  end.

(** [data[i]] on a sequence, for [i >= 0] *)
Definition index (data : list Z) (i : nat) : Res Z :=
  match data !! i with
  | Some b => Ok b
  | None => Raise IndexError
  end.

(** How a [while] loop's body ends: it falls through or [continue]s, or
    it [break]s. *)
Inductive LoopCtl : Type := Next | Break.

(** A thread and where its function stands: the [Thread] object is made
    but not started; started, before the first statement of its function;
    at the top of the function's [while] loop; in [usb_reader], between
    the assignment of the voice level and the assignment of the system
    level (the value still to be stored is kept); returned or died.  The
    interpreter may switch threads between any two statements; the model
    switches at these points. *)
Inductive Thread : Type :=
| Created
| Starting
| InLoop
| Storing (system_level : Z)
| Finished.

Definition storing (t : Thread) : bool :=
  match t with
  | Storing _ => true
  | _ => false
  end.

(** [t.join()] with no timeout: on a thread that was never started it
    raises [RuntimeError]; on a finished one it returns; on a live one
    the caller waits until the thread ends. *)
Inductive JoinOutcome : Type :=
| Joined
| Waits
| JoinRaises (e : Exn).

Definition join (t : Thread) : JoinOutcome :=
  match t with
  | Created => JoinRaises RuntimeError
  | Starting | InLoop | Storing _ => Waits
  | Finished => Joined
  end.

(** Who moves next: one of the two threads takes a turn, or the main
    thread handles a [KeyboardInterrupt], which sets the exit event. *)
Inductive Turn : Type := UsbTurn | MonitorTurn | Interrupt.

(** The [SetMasterVolume] calls of a trace, in order. *)
Fixpoint volume_calls (t : list Event) : list (Session * Q) :=
  match t with
  | [] => []
  | SetMasterVolume session level :: t' => (session, level) :: volume_calls t'
  | _ :: t' => volume_calls t'
  end.

End Py.

Import Py.

Declare Scope py_scope.
Delimit Scope py_scope with py.
Notation "x <- m ;; k" := (bind m (fun x => k))
  (at level 100, m at next level, right associativity) : py_scope.
Notation "m ;;; k" := (bind m (fun _ => k))
  (at level 100, right associativity) : py_scope.
Open Scope py_scope.

(** ** coremix.py: the class [CoreMix] *)

Module CoreMix.

(** The fields of a [CoreMix] object that the loops use.  The device
    handle, interface and endpoint only reach [dev.read] and
    [dispose_resources], which are the oracle and an event here. *)
Record CoreMix : Type := {
  voice_level : Z;
  system_level : Z;
  voice_apps : gset string;
  exclude_apps : gset string;
  known_sessions : gset (string * Z);
  voice_ids : gset Z;
  exclude_ids : gset Z;
  exit_event : bool
}.

(** The object, the number of oracle calls made so far, and the two
    threads that [run] starts. *)
Record World : Type := {
  self : CoreMix;
  audio_calls : nat;
  usb_calls : nat;
  usb_thread : Thread;
  monitor_thread : Thread
}.

Definition with_self (f : CoreMix -> CoreMix) (w : World) : World :=
  {| self := f (self w); audio_calls := audio_calls w;
     usb_calls := usb_calls w; usb_thread := usb_thread w;
     monitor_thread := monitor_thread w |}.

Definition with_usb_thread (t : Thread) (w : World) : World :=
  {| self := self w; audio_calls := audio_calls w;
     usb_calls := usb_calls w; usb_thread := t;
     monitor_thread := monitor_thread w |}.

Definition with_monitor_thread (t : Thread) (w : World) : World :=
  {| self := self w; audio_calls := audio_calls w;
     usb_calls := usb_calls w; usb_thread := usb_thread w;
     monitor_thread := t |}.

Definition count_audio_call (w : World) : World :=
  {| self := self w; audio_calls := S (audio_calls w);
     usb_calls := usb_calls w; usb_thread := usb_thread w;
     monitor_thread := monitor_thread w |}.

Definition count_usb_call (w : World) : World :=
  {| self := self w; audio_calls := audio_calls w;
     usb_calls := S (usb_calls w); usb_thread := usb_thread w;
     monitor_thread := monitor_thread w |}.

Definition set_voice_level (v : Z) (c : CoreMix) : CoreMix :=
  {| voice_level := v; system_level := system_level c;
     voice_apps := voice_apps c; exclude_apps := exclude_apps c;
     known_sessions := known_sessions c; voice_ids := voice_ids c;
     exclude_ids := exclude_ids c; exit_event := exit_event c |}.

Definition set_system_level (v : Z) (c : CoreMix) : CoreMix :=
  {| voice_level := voice_level c; system_level := v;
     voice_apps := voice_apps c; exclude_apps := exclude_apps c;
     known_sessions := known_sessions c; voice_ids := voice_ids c;
     exclude_ids := exclude_ids c; exit_event := exit_event c |}.

Definition set_known_sessions (k : gset (string * Z)) (c : CoreMix) : CoreMix :=
  {| voice_level := voice_level c; system_level := system_level c;
     voice_apps := voice_apps c; exclude_apps := exclude_apps c;
     known_sessions := k; voice_ids := voice_ids c;
     exclude_ids := exclude_ids c; exit_event := exit_event c |}.

Definition add_voice_id (i : Z) (c : CoreMix) : CoreMix :=
  {| voice_level := voice_level c; system_level := system_level c;
     voice_apps := voice_apps c; exclude_apps := exclude_apps c;
     known_sessions := known_sessions c; voice_ids := {[ i ]} ∪ voice_ids c;
     exclude_ids := exclude_ids c; exit_event := exit_event c |}.

Definition add_exclude_id (i : Z) (c : CoreMix) : CoreMix :=
  {| voice_level := voice_level c; system_level := system_level c;
     voice_apps := voice_apps c; exclude_apps := exclude_apps c;
     known_sessions := known_sessions c; voice_ids := voice_ids c;
     exclude_ids := {[ i ]} ∪ exclude_ids c; exit_event := exit_event c |}.

Definition set_exit_event (c : CoreMix) : CoreMix :=
  {| voice_level := voice_level c; system_level := system_level c;
     voice_apps := voice_apps c; exclude_apps := exclude_apps c;
     known_sessions := known_sessions c; voice_ids := voice_ids c;
     exclude_ids := exclude_ids c; exit_event := true |}.

(** The object with both identifier sets replaced. *)
Definition with_ids (V E : gset Z) (c : CoreMix) : CoreMix :=
  {| voice_level := voice_level c; system_level := system_level c;
     voice_apps := voice_apps c; exclude_apps := exclude_apps c;
     known_sessions := known_sessions c; voice_ids := V;
     exclude_ids := E; exit_event := exit_event c |}.

(** [CoreMix.__init__], device discovery apart. *)
Definition init (voice_apps exclude_apps : gset string) : CoreMix :=
  {| voice_level := 100; system_level := 100;
     voice_apps := voice_apps; exclude_apps := exclude_apps;
     known_sessions := ∅; voice_ids := ∅; exclude_ids := ∅;
     exit_event := false |}.

(** The world when [run] has started both threads. *)
Definition started (c : CoreMix) : World :=
  {| self := c; audio_calls := 0; usb_calls := 0;
     usb_thread := Starting; monitor_thread := Starting |}.

Section Code.

(** The oracles. *)
Variable audio : nat -> list Session.
Variable usb : nat -> Res (option (list Z)).

(** [AudioUtilities.GetAllSessions()] *)
Definition GetAllSessions : M World (list Session) :=
  fun w =>
    (Ok (audio (audio_calls w)), count_audio_call w, []).

(** [self.dev.read(...)] *)
Definition dev_read : M World (option (list Z)) :=
  fun w =>
    (usb (usb_calls w), count_usb_call w, []).

(** [volume.SetMasterVolume(level, None)] on the session's interface *)
Definition call_SetMasterVolume (session : Session) (level : Q) : M World unit :=
  emit (SetMasterVolume session level) ;;;
  lift (volume_ctl session).

(** The body of the [for] loop of [set_volume_levels]. *)
Definition set_session_volume (voice_level system_level : Z) (session : Session)
  : M World unit :=
  match Process session with
  | Some process =>
      app_name <- lift (name process) ;;
      let app_id := ProcessId session in
      w <- get ;;
      if decide (app_id ∈ voice_ids (self w)) then
        emit (Log DEBUG) ;;;
        call_SetMasterVolume session (div100 voice_level)
      else if decide (app_id ∈ exclude_ids (self w)) then
        emit (Log DEBUG)
      else
        emit (Log DEBUG) ;;;
        call_SetMasterVolume session (div100 system_level)
  | None => ret tt
  end.

(** [CoreMix.set_volume_levels] *)
Definition set_volume_levels (voice_level system_level : Z) : M World unit :=
  sessions <- GetAllSessions ;;
  for_each sessions (set_session_volume voice_level system_level).

(** The [except usb.core.USBError] clause of the inner [try] of
    [usb_reader]; any other exception goes on to the outer [try]. *)
Definition usb_handler (e : Exn) : M World LoopCtl :=
  match e with
  | USBError errno =>
      if errno =? 110 then ret Next
      else if errno =? 19 then emit (Log INFO) ;;; ret Break
      else emit (Log ERROR) ;;; ret Next
  | _ => raise e
  end.

(** The inner [try] of [usb_reader]: one turn of its [while] loop, run
    without a thread switch. *)
Definition usb_reader_body : M World LoopCtl :=
  try_except
    (data <- dev_read ;;
     match data with
     | Some data =>
         voice_level <- lift (index data 2) ;;
         system_level <- lift (index data 1) ;;
         if (voice_level =? 100) || (system_level =? 100) then
           emit (Log INFO) ;;;
           modify (with_self (set_voice_level voice_level)) ;;;
           modify (with_self (set_system_level system_level)) ;;;
           w <- get ;;
           set_volume_levels (CoreMix.voice_level (self w))
                             (CoreMix.system_level (self w)) ;;;
           ret Next
         else
           emit (Log DEBUG) ;;;
           ret Next
     | None => ret Next
     end)
    usb_handler.

(** The same turn in two parts, cut between the two assignments.  The
    first part ends the turn ([inl]) or leaves the system level to be
    stored ([inr]). *)
Definition usb_reader_first : M World (LoopCtl + Z) :=
  try_except
    (data <- dev_read ;;
     match data with
     | Some data =>
         voice_level <- lift (index data 2) ;;
         system_level <- lift (index data 1) ;;
         if (voice_level =? 100) || (system_level =? 100) then
           emit (Log INFO) ;;;
           modify (with_self (set_voice_level voice_level)) ;;;
           ret (inr system_level)
         else
           emit (Log DEBUG) ;;;
           ret (inl Next)
     | None => ret (inl Next)
     end)
    (fun e => c <- usb_handler e ;; ret (inl c)).

Definition usb_reader_second (system_level : Z) : M World LoopCtl :=
  try_except
    (modify (with_self (set_system_level system_level)) ;;;
     w <- get ;;
     set_volume_levels (CoreMix.voice_level (self w))
                       (CoreMix.system_level (self w)) ;;;
     ret Next)
    usb_handler.

(** Leaving the loop.  The outer [try] wraps the whole loop: its
    [except Exception] logs, its [finally] releases the device. *)
Definition usb_reader_leave (r : Res LoopCtl) (w : World) : World * list Event :=
  match r with
  | Ok _ => (with_usb_thread Finished w, [DisposeResources])
  | Raise e =>
      if is_Exception e then
        (with_usb_thread Finished w, [Log ERROR; DisposeResources])
      else
        (with_usb_thread Finished w, [DisposeResources])
  end.

(** One turn of the thread that runs [usb_reader]. *)
Definition usb_reader_turn (w : World) : World * list Event :=
  match usb_thread w with
  | Created => (w, [])
  | Starting => (with_usb_thread InLoop w, [Log INFO])
  | InLoop =>
      if exit_event (self w) then usb_reader_leave (Ok Break) w
      else
        match usb_reader_first w with
        | (Ok (inl Next), w1, t) => (w1, t)
        | (Ok (inr system_level), w1, t) =>
            (with_usb_thread (Storing system_level) w1, t)
        | (Ok (inl Break), w1, t) =>
            let '(w2, t2) := usb_reader_leave (Ok Break) w1 in (w2, t ++ t2)
        | (Raise e, w1, t) =>
            let '(w2, t2) := usb_reader_leave (Raise e) w1 in (w2, t ++ t2)
        end
  | Storing system_level =>
      match usb_reader_second system_level w with
      | (Ok Next, w1, t) => (with_usb_thread InLoop w1, t)
      | (Ok Break, w1, t) =>
          let '(w2, t2) := usb_reader_leave (Ok Break) w1 in (w2, t ++ t2)
      | (Raise e, w1, t) =>
          let '(w2, t2) := usb_reader_leave (Raise e) w1 in (w2, t ++ t2)
      end
  | Finished => (w, [])
  end.

(** [set((session.Process.name(), session.ProcessId)
         for session in AudioUtilities.GetAllSessions() if session.Process)] *)
Fixpoint snapshot (sessions : list Session) : Res (gset (string * Z)) :=
  match sessions with
  | [] => Ok ∅
  | session :: rest =>
      match Process session with
      | Some process =>
          match name process with
          | Ok app_name =>
              match snapshot rest with
              | Ok s => Ok ({[ (app_name, ProcessId session) ]} ∪ s)
              | Raise e => Raise e
              end
          | Raise e => Raise e
          end
      | None => snapshot rest
      end
  end.

(** The body of the [for] loop over [new_sessions]. *)
Definition classify_session (new : string * Z) : M World unit :=
  let '(app_name, app_id) := new in
  emit Print ;;;
  w <- get ;;
  if decide (app_name ∈ voice_apps (self w)) then
    modify (with_self (add_voice_id app_id)) ;;;
    emit (Log INFO)
  else if decide (app_name ∈ exclude_apps (self w)) then
    modify (with_self (add_exclude_id app_id)) ;;;
    emit (Log DEBUG)
  else
    emit (Log INFO).

(** The [try] of [monitor_new_sessions]: one turn of its [while] loop.
    A Python set is iterated in some order; [elements] fixes one. *)
Definition monitor_body : M World unit :=
  try_except
    (sessions <- GetAllSessions ;;
     current_sessions <- lift (snapshot sessions) ;;
     w <- get ;;
     let new_sessions := current_sessions ∖ known_sessions (self w) in
     (if decide (new_sessions = ∅) then ret tt
      else
        emit Print ;;;
        for_each (elements new_sessions) classify_session ;;;
        w <- get ;;
        set_volume_levels (voice_level (self w)) (system_level (self w))) ;;;
     modify (with_self (set_known_sessions current_sessions)) ;;;
     emit (Sleep 1))
    (fun e =>
       match e with
       | NoSuchProcess => ret tt
       | _ => raise e
       end).

(** The statements of [monitor_new_sessions] before its loop. *)
Definition monitor_prologue : M World unit :=
  emit (Log INFO) ;;;
  sessions <- GetAllSessions ;;
  known <- lift (snapshot sessions) ;;
  modify (with_self (set_known_sessions known)).

(** One turn of the thread that runs [monitor_new_sessions].  Nothing
    wraps the loop: an exception other than [NoSuchProcess] ends the
    thread. *)
Definition monitor_turn (w : World) : World * list Event :=
  match monitor_thread w with
  | Created => (w, [])
  | Starting =>
      match monitor_prologue w with
      | (Ok _, w1, t) => (with_monitor_thread InLoop w1, t)
      | (Raise _, w1, t) => (with_monitor_thread Finished w1, t)
      end
  | InLoop =>
      if exit_event (self w) then (with_monitor_thread Finished w, [])
      else
        match monitor_body w with
        | (Ok _, w1, t) => (w1, t)
        | (Raise _, w1, t) => (with_monitor_thread Finished w1, t)
        end
  | Storing _ => (w, [])
  | Finished => (w, [])
  end.

(** How a call of [stop] ends: it returns, it waits in a [join] for a
    thread to end, or it raises. *)
Inductive StopOutcome : Type :=
| Returned
| Waiting
| Raised (e : Exn).

(** [CoreMix.stop].  The two [Thread] objects it joins are the ones it
    has just made, not the ones [run] started. *)
Definition stop (w : World) : StopOutcome * World * list Event :=
  let w1 := with_self set_exit_event w in
  let usb_thread := Created in
  let monitor_thread := Created in
  match join usb_thread with
  | JoinRaises e => (Raised e, w1, [Log INFO])
  | Waits => (Waiting, w1, [Log INFO])
  | Joined =>
      match join monitor_thread with
      | JoinRaises e => (Raised e, w1, [Log INFO])
      | Waits => (Waiting, w1, [Log INFO])
      | Joined => (Returned, w1, [Log INFO; Log INFO])
      end
  end.

(** One turn.  The main thread's is the [except KeyboardInterrupt] of
    [run]: it logs and sets the exit event. *)
Definition turn (who : Turn) (w : World) : World * list Event :=
  match who with
  | UsbTurn => usb_reader_turn w
  | MonitorTurn => monitor_turn w
  | Interrupt => (with_self set_exit_event w, [Log INFO])
  end.

(** The process under a schedule of turns: the world it reaches and all
    it emitted on the way. *)
Fixpoint interleave (sched : list Turn) (w : World) : World * list Event :=
  match sched with
  | [] => (w, [])
  | who :: sched' =>
      let '(w1, t1) := turn who w in
      let '(w2, t2) := interleave sched' w1 in
      (w2, t1 ++ t2)
  end.

End Code.

End CoreMix.

(** ** chatmix.py: the closures of [main] *)

Module ChatMix.

(** The variables of [main] that its closures share ([volume_cache],
    [exit_event]), the local [known_sessions] of
    [monitor_new_sessions], the oracle counters and the two threads. *)
Record World : Type := {
  volume_cache : gmap string Z;
  exit_event : bool;
  known_sessions : gset string;
  audio_calls : nat;
  usb_calls : nat;
  usb_thread : Thread;
  monitor_thread : Thread
}.

Definition set_volume_cache (c : gmap string Z) (w : World) : World :=
  {| volume_cache := c; exit_event := exit_event w;
     known_sessions := known_sessions w; audio_calls := audio_calls w;
     usb_calls := usb_calls w; usb_thread := usb_thread w;
     monitor_thread := monitor_thread w |}.

Definition set_exit_event (w : World) : World :=
  {| volume_cache := volume_cache w; exit_event := true;
     known_sessions := known_sessions w; audio_calls := audio_calls w;
     usb_calls := usb_calls w; usb_thread := usb_thread w;
     monitor_thread := monitor_thread w |}.

Definition set_known_sessions (k : gset string) (w : World) : World :=
  {| volume_cache := volume_cache w; exit_event := exit_event w;
     known_sessions := k; audio_calls := audio_calls w;
     usb_calls := usb_calls w; usb_thread := usb_thread w;
     monitor_thread := monitor_thread w |}.

Definition with_usb_thread (t : Thread) (w : World) : World :=
  {| volume_cache := volume_cache w; exit_event := exit_event w;
     known_sessions := known_sessions w; audio_calls := audio_calls w;
     usb_calls := usb_calls w; usb_thread := t;
     monitor_thread := monitor_thread w |}.

Definition with_monitor_thread (t : Thread) (w : World) : World :=
  {| volume_cache := volume_cache w; exit_event := exit_event w;
     known_sessions := known_sessions w; audio_calls := audio_calls w;
     usb_calls := usb_calls w; usb_thread := usb_thread w;
     monitor_thread := t |}.

Definition count_audio_call (w : World) : World :=
  {| volume_cache := volume_cache w; exit_event := exit_event w;
     known_sessions := known_sessions w; audio_calls := S (audio_calls w);
     usb_calls := usb_calls w; usb_thread := usb_thread w;
     monitor_thread := monitor_thread w |}.

Definition count_usb_call (w : World) : World :=
  {| volume_cache := volume_cache w; exit_event := exit_event w;
     known_sessions := known_sessions w; audio_calls := audio_calls w;
     usb_calls := S (usb_calls w); usb_thread := usb_thread w;
     monitor_thread := monitor_thread w |}.

(** The world when [main] has started both threads. *)
Definition started : World :=
  {| volume_cache := {[ "voice_level"%string := 100; "system_level"%string := 100 ]};
     exit_event := false; known_sessions := ∅;
     audio_calls := 0; usb_calls := 0;
     usb_thread := Starting; monitor_thread := Starting |}.

Section Code.

(** The configuration, read once by [main]. *)
Variable voice_apps : gset string.
Variable exclude_apps : gset string.

(** The oracles. *)
Variable audio : nat -> list Session.
Variable usb : nat -> Res (option (list Z)).

Definition GetAllSessions : M World (list Session) :=
  fun w =>
    (Ok (audio (audio_calls w)), count_audio_call w, []).

Definition dev_read : M World (option (list Z)) :=
  fun w =>
    (usb (usb_calls w), count_usb_call w, []).

(** [volume_cache[key]] *)
Definition cache_get (key : string) : M World Z :=
  fun w =>
    match volume_cache w !! key with
    | Some v => (Ok v, w, [])
    | None => (Raise KeyError, w, [])
    end.

(** [volume_cache[key] = v] *)
Definition cache_set (key : string) (v : Z) : M World unit :=
  modify (fun w => set_volume_cache (<[ key := v ]> (volume_cache w)) w).

Definition call_SetMasterVolume (session : Session) (level : Q) : M World unit :=
  emit (SetMasterVolume session level) ;;;
  lift (volume_ctl session).

(** The body of the [for] loop of [set_volume_levels]. *)
Definition set_session_volume (voice_level system_level : Z) (session : Session)
  : M World unit :=
  match Process session with
  | Some process =>
      app_name <- lift (name process) ;;
      if decide (app_name ∈ voice_apps) then
        emit (Log DEBUG) ;;;
        emit (Log DEBUG) ;;;
        call_SetMasterVolume session (div100 voice_level)
      else if decide (app_name ∈ exclude_apps) then
        emit (Log DEBUG) ;;;
        emit (Log DEBUG)
      else
        emit (Log DEBUG) ;;;
        call_SetMasterVolume session (div100 system_level)
  | None => ret tt
  end.

(** [set_volume_levels] *)
Definition set_volume_levels (voice_level system_level : Z) : M World unit :=
  sessions <- GetAllSessions ;;
  for_each sessions (set_session_volume voice_level system_level).

(** The [except usb.core.USBError] clause of the inner [try] of
    [usb_reader]; any other exception goes on to the outer [try]. *)
Definition usb_handler (e : Exn) : M World LoopCtl :=
  match e with
  | USBError errno =>
      if errno =? 110 then ret Next
      else if errno =? 19 then emit (Log INFO) ;;; ret Break
      else emit (Log ERROR) ;;; ret Next
  | _ => raise e
  end.

(** The inner [try] of [usb_reader]: one turn of its [while] loop, run
    without a thread switch. *)
Definition usb_reader_body : M World LoopCtl :=
  try_except
    (data <- dev_read ;;
     match data with
     | Some data =>
         voice_level <- lift (index data 2) ;;
         system_level <- lift (index data 1) ;;
         if (voice_level =? 100) || (system_level =? 100) then
           emit (Log INFO) ;;;
           cache_set "voice_level" voice_level ;;;
           cache_set "system_level" system_level ;;;
           v <- cache_get "voice_level" ;;
           s <- cache_get "system_level" ;;
           set_volume_levels v s ;;;
           ret Next
         else
           emit (Log DEBUG) ;;;
           ret Next
     | None => ret Next
     end)
    usb_handler.

(** The same turn in two parts, cut between the two assignments.  The
    first part ends the turn ([inl]) or leaves the system level to be
    stored ([inr]). *)
Definition usb_reader_first : M World (LoopCtl + Z) :=
  try_except
    (data <- dev_read ;;
     match data with
     | Some data =>
         voice_level <- lift (index data 2) ;;
         system_level <- lift (index data 1) ;;
         if (voice_level =? 100) || (system_level =? 100) then
           emit (Log INFO) ;;;
           cache_set "voice_level" voice_level ;;;
           ret (inr system_level)
         else
           emit (Log DEBUG) ;;;
           ret (inl Next)
     | None => ret (inl Next)
     end)
    (fun e => c <- usb_handler e ;; ret (inl c)).

Definition usb_reader_second (system_level : Z) : M World LoopCtl :=
  try_except
    (cache_set "system_level" system_level ;;;
     v <- cache_get "voice_level" ;;
     s <- cache_get "system_level" ;;
     set_volume_levels v s ;;;
     ret Next)
    usb_handler.

(** Leaving the loop.  The outer [try] wraps the whole loop: its
    [except Exception] logs, its [finally] releases the device. *)
Definition usb_reader_leave (r : Res LoopCtl) (w : World) : World * list Event :=
  match r with
  | Ok _ => (with_usb_thread Finished w, [DisposeResources])
  | Raise e =>
      if is_Exception e then
        (with_usb_thread Finished w, [Log ERROR; DisposeResources])
      else
        (with_usb_thread Finished w, [DisposeResources])
  end.

(** One turn of the thread that runs [usb_reader]. *)
Definition usb_reader_turn (w : World) : World * list Event :=
  match usb_thread w with
  | Created => (w, [])
  | Starting => (with_usb_thread InLoop w, [Log INFO])
  | InLoop =>
      if exit_event w then usb_reader_leave (Ok Break) w
      else
        match usb_reader_first w with
        | (Ok (inl Next), w1, t) => (w1, t)
        | (Ok (inr system_level), w1, t) =>
            (with_usb_thread (Storing system_level) w1, t)
        | (Ok (inl Break), w1, t) =>
            let '(w2, t2) := usb_reader_leave (Ok Break) w1 in (w2, t ++ t2)
        | (Raise e, w1, t) =>
            let '(w2, t2) := usb_reader_leave (Raise e) w1 in (w2, t ++ t2)
        end
  | Storing system_level =>
      match usb_reader_second system_level w with
      | (Ok Next, w1, t) => (with_usb_thread InLoop w1, t)
      | (Ok Break, w1, t) =>
          let '(w2, t2) := usb_reader_leave (Ok Break) w1 in (w2, t ++ t2)
      | (Raise e, w1, t) =>
          let '(w2, t2) := usb_reader_leave (Raise e) w1 in (w2, t ++ t2)
      end
  | Finished => (w, [])
  end.

(** [set(session.Process.name()
         for session in AudioUtilities.GetAllSessions() if session.Process)] *)
Fixpoint snapshot (sessions : list Session) : Res (gset string) :=
  match sessions with
  | [] => Ok ∅
  | session :: rest =>
      match Process session with
      | Some process =>
          match name process with
          | Ok app_name =>
              match snapshot rest with
              | Ok s => Ok ({[ app_name ]} ∪ s)
              | Raise e => Raise e
              end
          | Raise e => Raise e
          end
      | None => snapshot rest
      end
  end.

(** The body of the [for] loop over [new_sessions]. *)
Definition greet_session (app_name : string) : M World unit :=
  emit (Log INFO) ;;;
  emit (Sleep 1) ;;;
  v <- cache_get "voice_level" ;;
  s <- cache_get "system_level" ;;
  set_volume_levels v s.

(** The [try] of [monitor_new_sessions]: one turn of its [while] loop. *)
Definition monitor_body : M World unit :=
  try_except
    (sessions <- GetAllSessions ;;
     current_sessions <- lift (snapshot sessions) ;;
     w <- get ;;
     let new_sessions := current_sessions ∖ known_sessions w in
     for_each (elements new_sessions) greet_session ;;;
     modify (set_known_sessions current_sessions) ;;;
     emit (Sleep 1))
    (fun e =>
       match e with
       | NoSuchProcess => ret tt
       | _ => raise e
       end).

Definition monitor_prologue : M World unit :=
  emit (Log INFO) ;;;
  sessions <- GetAllSessions ;;
  known <- lift (snapshot sessions) ;;
  modify (set_known_sessions known).

Definition monitor_turn (w : World) : World * list Event :=
  match monitor_thread w with
  | Created => (w, [])
  | Starting =>
      match monitor_prologue w with
      | (Ok _, w1, t) => (with_monitor_thread InLoop w1, t)
      | (Raise _, w1, t) => (with_monitor_thread Finished w1, t)
      end
  | InLoop =>
      if exit_event w then (with_monitor_thread Finished w, [])
      else
        match monitor_body w with
        | (Ok _, w1, t) => (w1, t)
        | (Raise _, w1, t) => (with_monitor_thread Finished w1, t)
        end
  | Storing _ => (w, [])
  | Finished => (w, [])
  end.

(** One turn.  The main thread's is the [except KeyboardInterrupt] of
    [main]: it logs and sets the exit event. *)
Definition turn (who : Turn) (w : World) : World * list Event :=
  match who with
  | UsbTurn => usb_reader_turn w
  | MonitorTurn => monitor_turn w
  | Interrupt => (set_exit_event w, [Log INFO])
  end.

(** The process under a schedule of turns. *)
Fixpoint interleave (sched : list Turn) (w : World) : World * list Event :=
  match sched with
  | [] => (w, [])
  | who :: sched' =>
      let '(w1, t1) := turn who w in
      let '(w2, t2) := interleave sched' w1 in
      (w2, t1 ++ t2)
  end.

End Code.

End ChatMix.

(** ** The classes, and the predicates that the statements use *)

Inductive Class : Type := Voice | Excluded | System.

Module Table.

(** The class-based variant keeps the classification table as the two
    sets [voice_ids] and [exclude_ids]; [set_volume_levels] tests them in
    this order, and an identifier in neither is a system one. *)
Definition class_of (c : CoreMix.CoreMix) (app_id : Z) : Class :=
  if decide (app_id ∈ CoreMix.voice_ids c) then Voice
  else if decide (app_id ∈ CoreMix.exclude_ids c) then Excluded
  else System.

(** Both variants test a name against the two configured name sets in
    this order. *)
Definition class_of_name (voice_apps exclude_apps : gset string)
    (app_name : string) : Class :=
  if decide (app_name ∈ voice_apps) then Voice
  else if decide (app_name ∈ exclude_apps) then Excluded
  else System.

(** The level a pass called with [voice_level] and [system_level] sets
    on a session of a class, if it sets one. *)
Definition level_for (voice_level system_level : Z) (c : Class) : option Q :=
  match c with
  | Voice => Some (div100 voice_level)
  | Excluded => None
  | System => Some (div100 system_level)
  end.

(** [sessions] holds a session of the process [app_id] whose name reads
    as [app_name]. *)
Definition has_instance (app_name : string) (app_id : Z)
    (sessions : list Session) : Prop :=
  exists session process,
    session ∈ sessions /\ Process session = Some process /\
    name process = Ok app_name /\ ProcessId session = app_id.

(** In [sessions] the identifier [app_id] belongs to the application
    [app_name] alone: the identifier is stable and does not collide. *)
Definition owned_by (app_name : string) (app_id : Z)
    (sessions : list Session) : Prop :=
  forall other, has_instance other app_id sessions -> other = app_name.

(** No [sleep] and no [SetMasterVolume] among the events. *)
Definition quiet (t : list Event) : Prop :=
  Forall (fun ev => match ev with
                    | SetMasterVolume _ _ | Sleep _ => False
                    | _ => True
                    end) t.

(** Along a run: the identifier [p] is in neither set, and once the
    session thread is in its loop, [(n, p)] is a known session. *)
Definition never_classified (n : string) (p : Z) (w : CoreMix.World) : Prop :=
  (p ∉ CoreMix.voice_ids (CoreMix.self w)) /\
  (p ∉ CoreMix.exclude_ids (CoreMix.self w)) /\
  (CoreMix.monitor_thread w = InLoop ->
   (n, p) ∈ CoreMix.known_sessions (CoreMix.self w)).


(** The identifier [p] has the entry that the name [n] calls for. *)
Definition entered (voice_apps exclude_apps : gset string)
    (n : string) (p : Z) (w : CoreMix.World) : Prop :=
  (n ∈ voice_apps -> p ∈ CoreMix.voice_ids (CoreMix.self w)) /\
  ((n ∉ voice_apps) -> n ∈ exclude_apps ->
   p ∈ CoreMix.exclude_ids (CoreMix.self w)).

(** The identifier sets of [c] give every named session of [sessions]
    the class that the name sets give its name. *)
Definition agrees (voice_apps exclude_apps : gset string)
    (c : CoreMix.CoreMix) (sessions : list Session) : Prop :=
  forall session process app_name,
    session ∈ sessions -> Process session = Some process ->
    name process = Ok app_name ->
    class_of c (ProcessId session) = class_of_name voice_apps exclude_apps app_name.

(** The dial has sent a report with voice level [v] and system level
    [s] that passes the filter of [usb_reader]. *)
Definition accepted_reading (usb : nat -> Res (option (list Z)))
    (v s : Z) : Prop :=
  exists k data,
    usb k = Ok (Some data) /\ data !! 2%nat = Some v /\
    data !! 1%nat = Some s /\ (v = 100 \/ s = 100).

(** [(v, s)] is the initial pair or the pair of one accepted report. *)
Definition whole_pair (usb : nat -> Res (option (list Z))) (v s : Z) : Prop :=
  (v = 100 /\ s = 100) \/ accepted_reading usb v s.

(** Along a run: when the dial thread is not between its two
    assignments the stored levels are a whole pair; when it is, the
    stored voice level and the pending system level are the pair of one
    accepted report, and the stored system level is still that of the
    pair before. *)
Definition levels_by_readings (usb : nat -> Res (option (list Z)))
    (w : CoreMix.World) : Prop :=
  match CoreMix.usb_thread w with
  | Storing s =>
      accepted_reading usb (CoreMix.voice_level (CoreMix.self w)) s /\
      exists v0, whole_pair usb v0 (CoreMix.system_level (CoreMix.self w))
  | _ =>
      whole_pair usb (CoreMix.voice_level (CoreMix.self w))
        (CoreMix.system_level (CoreMix.self w))
  end.

(** The same for the functional variant, whose levels are the two
    entries of [volume_cache]. *)
Definition chat_levels_by_readings (usb : nat -> Res (option (list Z)))
    (w : ChatMix.World) : Prop :=
  match ChatMix.usb_thread w with
  | Storing s =>
      exists v v0 s0,
        ChatMix.volume_cache w !! "voice_level"%string = Some v /\
        ChatMix.volume_cache w !! "system_level"%string = Some s0 /\
        accepted_reading usb v s /\ whole_pair usb v0 s0
  | _ =>
      exists v s,
        ChatMix.volume_cache w !! "voice_level"%string = Some v /\
        ChatMix.volume_cache w !! "system_level"%string = Some s /\
        whole_pair usb v s
  end.

(** The stored levels and the dial thread of the functional variant are
    in [w'] as they are in [w]. *)
Definition same_levels (w w' : ChatMix.World) : Prop :=
  ChatMix.volume_cache w' = ChatMix.volume_cache w /\
  ChatMix.usb_thread w' = ChatMix.usb_thread w.

(** No [sleep] among the events. *)
Definition no_sleep (t : list Event) : Prop :=
  Forall (fun ev => match ev with Sleep _ => False | _ => True end) t.

End Table.

(** ** Concrete sessions, tables and oracles *)

Module Examples.

Definition process (app_name : string) : option Proc :=
  Some {| name := Ok app_name |}.

Definition session_A : Session :=
  {| Process := process "discord.exe"; ProcessId := 1; volume_ctl := Ok tt |}.

Definition session_B : Session :=
  {| Process := process "obs.exe"; ProcessId := 2; volume_ctl := Ok tt |}.

Definition session_C : Session :=
  {| Process := process "game.exe"; ProcessId := 3; volume_ctl := Ok tt |}.

(** A session whose volume cannot be set. *)
Definition session_gone : Session :=
  {| Process := process "intro.exe"; ProcessId := 4; volume_ctl := Raise COMError |}.

Definition voice_names : gset string := {[ "discord.exe"%string ]}.

Definition excluded_names : gset string := {[ "obs.exe"%string ]}.

(** The table [{A: Voice, B: Excluded}]; C has no entry. *)
Definition table_ABC : CoreMix.CoreMix :=
  {| CoreMix.voice_level := 30; CoreMix.system_level := 80;
     CoreMix.voice_apps := voice_names; CoreMix.exclude_apps := excluded_names;
     CoreMix.known_sessions := ∅;
     CoreMix.voice_ids := {[ 1 ]}; CoreMix.exclude_ids := {[ 2 ]};
     CoreMix.exit_event := false |}.

Definition in_loops (c : CoreMix.CoreMix) : CoreMix.World :=
  {| CoreMix.self := c; CoreMix.audio_calls := 0; CoreMix.usb_calls := 0;
     CoreMix.usb_thread := InLoop; CoreMix.monitor_thread := InLoop |}.

Definition audio_ABC (k : nat) : list Session := [session_A; session_B; session_C].

Definition audio_gone_C (k : nat) : list Session := [session_gone; session_C].

(** A dial that reports voice 30 and system 100, then a garbled 60 and
    50, then times out. *)
Definition usb_dial (k : nat) : Res (option (list Z)) :=
  match k with
  | O => Ok (Some [0; 100; 30])
  | S O => Ok (Some [0; 50; 60])
  | _ => Raise (USBError 110)
  end.

(** A device that has been unplugged. *)
Definition usb_gone (k : nat) : Res (option (list Z)) := Raise (USBError 19).

(** A dial that reports voice 100 and system 40, then voice 30 and
    system 100, then times out. *)
Definition usb_two (k : nat) : Res (option (list Z)) :=
  match k with
  | O => Ok (Some [0; 40; 100])
  | S O => Ok (Some [0; 100; 30])
  | _ => Raise (USBError 110)
  end.

(** No session at the first call, A and C from then on. *)
Definition audio_late (k : nat) : list Session :=
  match k with
  | O => []
  | _ => [session_A; session_C]
  end.

(** The session thread starts; the dial thread starts, reads the first
    report and stores it in two steps, reads the second report and stores
    its voice level. *)
Definition torn_schedule : list Turn :=
  [MonitorTurn; UsbTurn; UsbTurn; UsbTurn; UsbTurn].

(** Both threads start and the dial thread handles one report. *)
Definition one_report_schedule : list Turn :=
  [MonitorTurn; UsbTurn; UsbTurn; UsbTurn].

(** The functional variant in its loops, with the levels 30 and 80. *)
Definition chat_in_loops : ChatMix.World :=
  {| ChatMix.volume_cache :=
       {[ "voice_level"%string := 30; "system_level"%string := 80 ]};
     ChatMix.exit_event := false; ChatMix.known_sessions := ∅;
     ChatMix.audio_calls := 0; ChatMix.usb_calls := 0;
     ChatMix.usb_thread := InLoop; ChatMix.monitor_thread := InLoop |}.

(** The session thread starts and takes one turn of its loop. *)
Definition new_sessions_schedule : list Turn := [MonitorTurn; MonitorTurn].

End Examples.

(** ** Sessions, threads and traces: what the further properties use *)

Module Sessions.

(** Every owning process of [sessions] still answers [name()]. *)
Definition all_named (sessions : list Session) : Prop :=
  forall session process,
    session ∈ sessions -> Process session = Some process ->
    exists app_name, name process = Ok app_name.

(** Every session of [sessions] can be handled: its volume can be set,
    and the name of its process, if it has one, reads. *)
Definition all_settable (sessions : list Session) : Prop :=
  forall session,
    session ∈ sessions ->
    volume_ctl session = Ok tt /\
    forall process, Process session = Some process ->
                    exists app_name, name process = Ok app_name.

(** The seconds slept in a trace. *)
Fixpoint slept (t : list Event) : Z :=
  match t with
  | [] => 0
  | Sleep seconds :: t' => seconds + slept t'
  | _ :: t' => slept t'
  end.

(** The calls that a pass of the class-based variant makes on one
    session, when it gets past it: by the class that the identifier sets
    of [c] give the identifier of the session. *)
Definition calls_by_class (c : CoreMix.CoreMix)
    (voice_level system_level : Z) (session : Session) : list (Session * Q) :=
  match Process session with
  | Some _ =>
      match Table.level_for voice_level system_level
              (Table.class_of c (ProcessId session)) with
      | Some q => [(session, q)]
      | None => []
      end
  | None => []
  end.

(** The calls that a pass of the functional variant makes on one
    session, when it gets past it. *)
Definition calls_by_name (voice_apps exclude_apps : gset string)
    (voice_level system_level : Z) (session : Session) : list (Session * Q) :=
  match Process session with
  | Some process =>
      match name process with
      | Ok app_name =>
          match Table.level_for voice_level system_level
                  (Table.class_of_name voice_apps exclude_apps app_name) with
          | Some q => [(session, q)]
          | None => []
          end
      | Raise _ => []
      end
  | None => []
  end.

End Sessions.

Module Threads.

(** [t.is_alive()] *)
Definition is_alive (t : Thread) : bool :=
  match t with
  | Starting | InLoop | Storing _ => true
  | Created | Finished => false
  end.

(** The turns a thread still takes, at most, once the exit event is
    set: a thread at the top of its loop tests the event and leaves; one
    that is starting or in the middle of an iteration first gets
    there. *)
Definition turns_left (t : Thread) : nat :=
  match t with
  | Created | Finished => 0
  | InLoop => 1
  | Starting | Storing _ => 2
  end.

Definition is_turn (who other : Turn) : bool :=
  match who, other with
  | UsbTurn, UsbTurn | MonitorTurn, MonitorTurn | Interrupt, Interrupt => true
  | _, _ => false
  end.

(** The turns of [who] in a schedule. *)
Definition turns_of (who : Turn) (sched : list Turn) : nat :=
  length (filter (fun other => is_turn who other = true) sched).

(** The calls of [usb.util.dispose_resources] in a trace. *)
Fixpoint disposals (t : list Event) : nat :=
  match t with
  | [] => 0
  | DisposeResources :: t' => S (disposals t')
  | _ :: t' => disposals t'
  end.

(** 1 for a thread whose function has returned or died, 0 otherwise. *)
Definition ended (t : Thread) : nat :=
  match t with
  | Finished => 1
  | _ => 0
  end.

(** Every event that [m] emits, from any world, satisfies [P]. *)
Definition emits_only {W A} (P : Event -> Prop) (m : M W A) : Prop :=
  forall w, Forall P (m w).2.

Definition keeps_device (ev : Event) : Prop := ev <> DisposeResources.

(** Wherever [m] ends, the world it leaves is related to the one it
    started from. *)
Definition keeps {W A} (R : W -> W -> Prop) (m : M W A) : Prop :=
  forall w, R w (m w).1.2.

(** The exit event and the two threads of the functional variant are in
    [w'] as in [w]. *)
Definition chat_same_control (w w' : ChatMix.World) : Prop :=
  ChatMix.exit_event w' = ChatMix.exit_event w /\
  ChatMix.usb_thread w' = ChatMix.usb_thread w /\
  ChatMix.monitor_thread w' = ChatMix.monitor_thread w.

End Threads.


(** ** Start-up: the configuration file and the device *)

#[local] Set Warnings "-register-all".

(** What [json.load] builds, and the values that [main] passes on. *)
Module Json.

Inductive Value : Type :=
| Null
| Bool (b : bool)
| Int (n : Z)
| Float (q : Q)
| NonFinite
| Str (s : string)
| List (items : list Value)
| Dict (items : gmap string Value).

(** [n == v] for an [int] [n]: equal to an [int], to a [bool] taken as 0
    or 1 and to a [float] of the same value; never to anything else. *)
Definition int_eq (n : Z) (v : Value) : bool :=
  match v with
  | Int m => n =? m
  | Bool b => n =? (if b then 1 else 0)
  | Float q => Qeq_bool (inject_Z n) q
  | _ => false
  end.

Definition hashable (v : Value) : bool :=
  match v with
  | List _ | Dict _ => false
  | _ => true
  end.

(** [iter(v)], or [None] where it raises [TypeError]: the items of a
    list, the characters of a string, the keys of a dict. *)
Definition iterate (v : Value) : option (list Value) :=
  match v with
  | List items => Some items
  | Str s =>
      Some (map (fun c => Str (String c EmptyString)) (String.list_ascii_of_string s))
  | Dict items => Some (map (fun kv => Str kv.1) (map_to_list items))
  | _ => None
  end.

Definition as_str (v : Value) : option string :=
  match v with
  | Str s => Some s
  | _ => None
  end.

(** [set(v)], or [None] where it raises [TypeError].  The program only
    tests a process name, a [str], for membership in the set, so the
    set is kept as the set of its [str] elements. *)
Definition str_set (v : Value) : option (gset string) :=
  match iterate v with
  | Some items =>
      if forallb hashable items then Some (list_to_set (omap as_str items))
      else None
  | None => None
  end.

End Json.

(** The part of pyusb that device discovery uses. *)
Module Usb.

Record Endpoint : Type := {
  bEndpointAddress : Z;
  wMaxPacketSize : Z
}.

(** An interface descriptor; iterating it gives its endpoints. *)
Record Interface : Type := {
  bInterfaceNumber : Z;
  endpoints : list Endpoint
}.

(** Iterating a configuration gives its interfaces, alternate settings
    included. *)
Definition Configuration : Type := list Interface.

(** A device: the outcome of [set_configuration()] on it, and its
    configurations in the order of iteration. *)
Record Device : Type := {
  set_configuration : Res unit;
  configurations : list Configuration
}.

Definition ENDPOINT_IN : Z := 0x80.

(** [usb.util.endpoint_direction] *)
Definition endpoint_direction (address : Z) : Z := Z.land address 0x80.

(** [usb.util.find_descriptor(desc, custom_match=...)]: the first
    element of [desc] that matches, or [None]. *)
Fixpoint find_descriptor {A} (desc : list A) (custom_match : A -> bool) : option A :=
  match desc with
  | [] => None
  | d :: rest => if custom_match d then Some d else find_descriptor rest custom_match
  end.

(** The three [ValueError]s of discovery, by message. *)
Inductive Message : Type :=
| DeviceNotFound
| InterfaceNotFound
| EndpointNotFound.

Inductive Failure : Type :=
| ValueError (message : Message)
| Raised (e : Exn).

(** [self.dev], [self.interface] and [self.endpoint]. *)
Record Handles : Type := {
  dev : option Device;
  interface : option Interface;
  endpoint : option Endpoint
}.

(** As [__init__] leaves them before it calls [find_usb_device]. *)
Definition init : Handles :=
  {| dev := None; interface := None; endpoint := None |}.

Definition set_dev (d : option Device) (self : Handles) : Handles :=
  {| dev := d; interface := interface self; endpoint := endpoint self |}.

Definition set_interface (i : option Interface) (self : Handles) : Handles :=
  {| dev := dev self; interface := i; endpoint := endpoint self |}.

Definition set_endpoint (e : option Endpoint) (self : Handles) : Handles :=
  {| dev := dev self; interface := interface self; endpoint := e |}.

(** [for intf in cfg: if intf.bInterfaceNumber == interface_number:
    interface = intf; break], from the value [interface] has. *)
Fixpoint scan_configuration (interface_number : Json.Value) (cfg : Configuration)
    (interface : option Interface) : option Interface :=
  match cfg with
  | [] => interface
  | intf :: rest =>
      if Json.int_eq (bInterfaceNumber intf) interface_number then Some intf
      else scan_configuration interface_number rest interface
  end.

(** [for cfg in dev: <the loop above>; if interface is not None: break] *)
Fixpoint scan_device (interface_number : Json.Value) (cfgs : list Configuration)
    (interface : option Interface) : option Interface :=
  match cfgs with
  | [] => interface
  | cfg :: rest =>
      match scan_configuration interface_number cfg interface with
      | Some intf => Some intf
      | None => scan_device interface_number rest None
      end
  end.

(** The [custom_match] of the endpoint search. *)
Definition endpoint_match (endpoint_address : Json.Value) (e : Endpoint) : bool :=
  (endpoint_direction (bEndpointAddress e) =? ENDPOINT_IN)
  && Json.int_eq (bEndpointAddress e) endpoint_address.

(** [CoreMix.find_usb_device], and the same statements of chatmix's
    [main].  [found] is what [usb.core.find] returned.  The result is
    the exception raised, if any, and the handles as they are then. *)
Definition find_usb_device (found : option Device)
    (interface_number endpoint_address : Json.Value) (self : Handles)
  : option Failure * Handles :=
  let self := set_dev found self in
  match found with
  | None => (Some (ValueError DeviceNotFound), self)
  | Some d =>
      match set_configuration d with
      | Raise e => (Some (Raised e), self)
      | Ok _ =>
          let self :=
            set_interface
              (scan_device interface_number (configurations d) (interface self))
              self in
          match interface self with
          | None => (Some (ValueError InterfaceNotFound), self)
          | Some intf =>
              let self :=
                set_endpoint
                  (find_descriptor (endpoints intf) (endpoint_match endpoint_address))
                  self in
              match endpoint self with
              | None => (Some (ValueError EndpointNotFound), self)
              | Some _ => (None, self)
              end
          end
      end
  end.

End Usb.

(** [load_config] of both files. *)
Module Config.

(** The calls on the logger. *)
Inductive Report : Type :=
| LogWarning
| LogError
| LogException.

(** How opening and decoding the file ends.  A decoded file holds a
    JSON object. *)
Inductive File : Type :=
| FileNotFoundError
| JSONDecodeError
| OtherException
| Loaded (config : gmap string Json.Value).

Section Code.

(** [int(s)] and [int(s, 16)] on a [str]; [None] is [ValueError]. *)
Variable int_10 : string -> option Z.
Variable int_16 : string -> option Z.

(** [convert_hex]: the value returned, or [None] for the [ValueError]
    of [int(value)], and what was logged. *)
Definition convert_hex (value : Json.Value) : option Json.Value * list Report :=
  match value with
  | Json.Str s =>
      if String.prefix "0x" s then
        match int_16 s with
        | Some n => (Some (Json.Int n), [])
        | None => (Some value, [LogWarning])
        end
      else
        match int_10 s with
        | Some n => (Some (Json.Int n), [])
        | None => (None, [])
        end
  | _ => (Some value, [])
  end.

(** [if key in config: config[key] = convert_hex(config[key])]: whether
    it returned, the dict as it is then, and what was logged. *)
Definition convert_entry (key : string) (config : gmap string Json.Value)
  : bool * gmap string Json.Value * list Report :=
  match config !! key with
  | Some value =>
      match convert_hex value with
      | (Some v, logs) => (true, <[ key := v ]> config, logs)
      | (None, logs) => (false, config, logs)
      end
  | None => (true, config, [])
  end.

(** [load_config]: the dict returned and what was logged. *)
Definition load_config (file : File) : gmap string Json.Value * list Report :=
  match file with
  | FileNotFoundError => (∅, [LogError])
  | JSONDecodeError => (∅, [LogError])
  | OtherException => (∅, [LogException])
  | Loaded config =>
      match convert_entry "vendor_id" config with
      | (false, config, logs) => (config, logs ++ [LogException])
      | (true, config, logs) =>
          match convert_entry "product_id" config with
          | (false, config, logs2) => (config, logs ++ logs2 ++ [LogException])
          | (true, config, logs2) =>
              match convert_entry "endpoint_address" config with
              | (false, config, logs3) =>
                  (config, logs ++ logs2 ++ logs3 ++ [LogException])
              | (true, config, logs3) => (config, logs ++ logs2 ++ logs3)
              end
          end
      end
  end.

(** What the conversion can change between [config] and [config']: an
    entry under one of [keys] that was a string is now the integer that
    [int] makes of it; every other entry is as it was. *)
Definition changes (keys : list string) (config config' : gmap string Json.Value)
  : Prop :=
  forall key,
    config' !! key = config !! key \/
    (key ∈ keys /\
     exists s n,
       config !! key = Some (Json.Str s) /\ config' !! key = Some (Json.Int n) /\
       (if String.prefix "0x" s then int_16 s else int_10 s) = Some n).

(** No value under [keys] makes [int] raise. *)
Definition convertible (config : gmap string Json.Value) (keys : list string) : Prop :=
  forall key v,
    key ∈ keys -> config !! key = Some v -> (convert_hex v).1 <> None.

(** What [convert_hex] logs for the entry under [key]. *)
Definition logged (config : gmap string Json.Value) (key : string) : list Report :=
  match config !! key with
  | Some v => (convert_hex v).2
  | None => []
  end.

(** What [convert_hex] returns for the entry under [key]. *)
Definition converted (config : gmap string Json.Value) (key : string)
  : option Json.Value :=
  match config !! key with
  | Some v => (convert_hex v).1
  | None => None
  end.

End Code.

(** The keys that [load_config] converts, in its order. *)
Definition converted_keys : list string :=
  ["vendor_id"; "product_id"; "endpoint_address"]%string.

End Config.

(** [main] of chatmix.py and the [__main__] block of coremix.py, up to
    the start of the threads. *)
Module Main.

(** [config.get(key, default)] *)
Definition get (config : gmap string Json.Value) (key : string)
    (default : Json.Value) : Json.Value :=
  match config !! key with
  | Some v => v
  | None => default
  end.

(** What [parse_arguments] of coremix.py returns; an option that was
    not given is [None]. *)
Record Args : Type := {
  config : option string;
  vendor_id : option Z;
  product_id : option Z;
  interface_number : option Z;
  endpoint_address : option Z;
  voice_apps : option (list string);
  exclude_apps : option (list string)
}.

(** [arg or fallback] for an [int] option: 0 is false. *)
Definition int_or (arg : option Z) (fallback : Json.Value) : Json.Value :=
  match arg with
  | Some n => if n =? 0 then fallback else Json.Int n
  | None => fallback
  end.

(** [arg or fallback] for a list option: the empty list is false. *)
Definition list_or (arg : option (list string)) (fallback : Json.Value) : Json.Value :=
  match arg with
  | Some (a :: l) => Json.List (map Json.Str (a :: l))
  | _ => fallback
  end.

(** How start-up fails: the [TypeError] of [set(...)], or discovery. *)
Inductive Failure : Type :=
| TypeError
| Discovery (f : Usb.Failure).

(** What the threads are started with. *)
Record Started : Type := {
  voice_names : gset string;
  exclude_names : gset string;
  handles : Usb.Handles
}.

Section Code.

Variable int_10 : string -> option Z.
Variable int_16 : string -> option Z.

(** [usb.core.find(idVendor=..., idProduct=...)] *)
Variable find : Json.Value -> Json.Value -> option Usb.Device.

(** The file system: what opening and decoding the file at a path
    gives. *)
Variable files : string -> Config.File.

(** The statements from the reading of the settings to the end of
    discovery, given the settings. *)
Definition discover (vendor_id product_id interface_number endpoint_address
                     voice_apps exclude_apps : Json.Value)
  : Failure + Started :=
  match Json.str_set voice_apps with
  | None => inl TypeError
  | Some voice =>
      match Json.str_set exclude_apps with
      | None => inl TypeError
      | Some exclude =>
          match Usb.find_usb_device (find vendor_id product_id)
                  interface_number endpoint_address Usb.init with
          | (Some f, _) => inl (Discovery f)
          | (None, self) =>
              inr {| voice_names := voice; exclude_names := exclude;
                     handles := self |}
          end
      end
  end.

(** chatmix.py: [main], called with [--config path]. *)
Definition chat_main (path : string) : (Failure + Started) * list Config.Report :=
  let '(config, logs) := Config.load_config int_10 int_16 (files path) in
  (discover (get config "vendor_id" (Json.Int 0x1038))
            (get config "product_id" (Json.Int 0x2202))
            (get config "interface_number" (Json.Int 5))
            (get config "endpoint_address" (Json.Int 0x86))
            (get config "voice_apps" (Json.List []))
            (get config "exclude_apps" (Json.List [])),
   logs).

(** coremix.py: the [__main__] block and [CoreMix.__init__]. *)
Definition core_main (args : Args) : (Failure + Started) * list Config.Report :=
  let '(config, logs) :=
    match Main.config args with
    | Some (String c path) => Config.load_config int_10 int_16 (files (String c path))
    | _ => (∅, [])
    end in
  (discover (int_or (vendor_id args) (get config "vendor_id" (Json.Int 0x1038)))
            (int_or (product_id args) (get config "product_id" (Json.Int 0x2202)))
            (int_or (interface_number args) (get config "interface_number" (Json.Int 5)))
            (int_or (endpoint_address args)
                    (get config "endpoint_address" (Json.Int 0x86)))
            (list_or (voice_apps args) (get config "voice_apps" (Json.List [])))
            (list_or (exclude_apps args) (get config "exclude_apps" (Json.List []))),
   logs).

End Code.

End Main.

(** ** Further concrete inputs *)

Module Cases.

(** A dial that sends two bytes. *)
Definition usb_short (k : nat) : Res (option (list Z)) := Ok (Some [0; 100]).

(** The dial thread between its two assignments, with the system level
    100 still to be stored. *)
Definition core_storing : CoreMix.World :=
  CoreMix.with_usb_thread (Storing 100) (Examples.in_loops Examples.table_ABC).

Definition chat_storing : ChatMix.World :=
  ChatMix.with_usb_thread (Storing 100) Examples.chat_in_loops.

(** A session whose process has gone. *)
Definition session_lost : Session :=
  {| Process := Some {| name := Raise NoSuchProcess |}; ProcessId := 5;
     volume_ctl := Ok tt |}.

Definition audio_lost (k : nat) : list Session := [Examples.session_A; session_lost].

(** A second process of the application of A. *)
Definition session_A2 : Session :=
  {| Process := Examples.process "discord.exe"; ProcessId := 6; volume_ctl := Ok tt |}.

Definition audio_twice (k : nat) : list Session := [Examples.session_A; session_A2].

(** Both variants in their loops, knowing A. *)
Definition core_known_A : CoreMix.World :=
  Examples.in_loops
    (CoreMix.set_known_sessions {[ ("discord.exe"%string, 1) ]}
       (CoreMix.init Examples.voice_names Examples.excluded_names)).

Definition chat_known_A : ChatMix.World :=
  ChatMix.set_known_sessions {[ "discord.exe"%string ]} Examples.chat_in_loops.

(** A at the first call; at the second, C and a session whose process
    has gone in the meantime. *)
Definition audio_race (k : nat) : list Session :=
  match k with
  | O => [Examples.session_A]
  | _ => [Examples.session_C; session_lost]
  end.

(** Both threads start, the interrupt comes, and each thread gets two
    more turns. *)
Definition before_interrupt : list Turn := [MonitorTurn; UsbTurn].

Definition after_interrupt : list Turn := [UsbTurn; MonitorTurn; UsbTurn; MonitorTurn].

(** A device with one configuration: interface 0 with an OUT endpoint,
    interface 5 with an OUT and an IN endpoint, and an alternate setting
    of interface 5 without endpoints. *)
Definition endpoint_out : Usb.Endpoint :=
  {| Usb.bEndpointAddress := 0x06; Usb.wMaxPacketSize := 64 |}.

Definition endpoint_in : Usb.Endpoint :=
  {| Usb.bEndpointAddress := 0x86; Usb.wMaxPacketSize := 64 |}.

Definition interface_0 : Usb.Interface :=
  {| Usb.bInterfaceNumber := 0;
     Usb.endpoints := [ {| Usb.bEndpointAddress := 0x01; Usb.wMaxPacketSize := 64 |} ] |}.

Definition interface_5 : Usb.Interface :=
  {| Usb.bInterfaceNumber := 5; Usb.endpoints := [endpoint_out; endpoint_in] |}.

Definition interface_5_alt : Usb.Interface :=
  {| Usb.bInterfaceNumber := 5; Usb.endpoints := [] |}.

Definition headset : Usb.Device :=
  {| Usb.set_configuration := Ok tt;
     Usb.configurations := [[interface_0; interface_5; interface_5_alt]] |}.

Definition find_headset (idVendor idProduct : Json.Value) : option Usb.Device :=
  Some headset.

(** Stand-ins for [int]: the few strings of the examples. *)
Definition int_10 (s : string) : option Z :=
  if String.eqb s "134" then Some 134 else None.

Definition int_16 (s : string) : option Z :=
  if String.eqb s "0x1038" then Some 0x1038
  else if String.eqb s "0x2202" then Some 0x2202
  else if String.eqb s "0x86" then Some 0x86
  else None.

(** A file with a hexadecimal string, a string that is no hexadecimal
    number, a decimal string and a number. *)
Definition config_mixed : gmap string Json.Value :=
  {[ "vendor_id"%string := Json.Str "0x1038";
     "product_id"%string := Json.Str "0xZZ";
     "endpoint_address"%string := Json.Str "134";
     "interface_number"%string := Json.Int 5 ]}.

(** A file whose product identifier is no number at all. *)
Definition config_bad : gmap string Json.Value :=
  {[ "vendor_id"%string := Json.Str "0x1038";
     "product_id"%string := Json.Str "two";
     "endpoint_address"%string := Json.Str "0x86" ]}.

(** A file that gives the interface number as a string. *)
Definition config_string : gmap string Json.Value :=
  {[ "interface_number"%string := Json.Str "5" ]}.

Definition files_string (path : string) : Config.File := Config.Loaded config_string.

Definition files_none (path : string) : Config.File := Config.FileNotFoundError.

(** A command line that gives the interface number and the endpoint
    address 0, and no file. *)
Definition args_zero : Main.Args :=
  {| Main.config := None; Main.vendor_id := None; Main.product_id := None;
     Main.interface_number := Some 0; Main.endpoint_address := Some 0;
     Main.voice_apps := None; Main.exclude_apps := None |}.

(** Both threads start; the dial thread finds the device unplugged and
    ends; the session thread polls twice. *)
Definition unplugged_schedule : list Turn :=
  [MonitorTurn; UsbTurn; UsbTurn; MonitorTurn; MonitorTurn].

(** A game that runs under the process identifier that A had. *)
Definition session_reused : Session :=
  {| Process := Examples.process "game.exe"; ProcessId := 1; volume_ctl := Ok tt |}.

Definition audio_reused (k : nat) : list Session := [session_reused].




(** What both programs start with on the headset when nothing else is
    configured. *)
Definition started_headset : Main.Started :=
  {| Main.voice_names := ∅; Main.exclude_names := ∅;
     Main.handles :=
       {| Usb.dev := Some headset; Usb.interface := Some interface_5;
          Usb.endpoint := Some endpoint_in |} |}.

End Cases.


(** ** Generic facts on traces and loops *)

Lemma run_eta {A B C : Type} (x : A * B * C) : x = (x.1.1, x.1.2, x.2).
Proof. destruct x as [[a b] c]. reflexivity. Qed.

Lemma volume_calls_app (t1 t2 : list Event) :
  volume_calls (t1 ++ t2) = volume_calls t1 ++ volume_calls t2.
Proof.
  induction t1 as [|ev t1 IH]; [reflexivity|].
  destruct ev; cbn; rewrite ?IH; reflexivity.
Qed.

Lemma for_each_cons {W A} (x : A) (l : list A) (body : A -> M W unit) (w : W) :
  for_each (x :: l) body w =
  match body x w with
  | (Ok _, w1, t1) =>
      match for_each l body w1 with
      | (r, w2, t2) => (r, w2, t1 ++ t2)
      end
  | (Raise e, w1, t1) => (Raise e, w1, t1)
  end.
Proof. reflexivity. Qed.

(** A loop whose body leaves the world [w] as it is: it runs the body on
    each element in turn, in [w], up to the first that raises. *)
Section ForEachFixed.

Context {W A : Type} (body : A -> M W unit) (w : W).
Hypothesis body_world : forall x, (body x w).1.2 = w.

Lemma for_each_fixed_world (l : list A) : (for_each l body w).1.2 = w.
Proof.
  induction l as [|x l IH]; [reflexivity|].
  rewrite for_each_cons. pose proof (body_world x) as Hx.
  destruct (body x w) as [[[u|e] w1] t1]; cbn in Hx; subst w1; [|reflexivity].
  destruct (for_each l body w) as [[r w2] t2]. exact IH.
Qed.

Lemma for_each_fixed_ok (l : list A) :
  (for_each l body w).1.1 = Ok tt ->
  Forall (fun x => (body x w).1.1 = Ok tt) l /\
  (for_each l body w).2 = flat_map (fun x => (body x w).2) l.
Proof.
  induction l as [|x l IH]; [intros _; split; [constructor|reflexivity]|].
  rewrite for_each_cons. pose proof (body_world x) as Hx.
  destruct (body x w) as [[[[]|e] w1] t1] eqn:Hb; cbn in Hx; subst w1;
    [|discriminate].
  destruct (for_each l body w) as [[r w2] t2]. cbn in *. intros Hr.
  destruct (IH Hr) as [Hall Ht]. split.
  - constructor; [rewrite Hb; reflexivity | exact Hall].
  - cbn [flat_map]. rewrite Hb, Ht. reflexivity.
Qed.

Lemma for_each_fixed_all_ok (l : list A) :
  Forall (fun x => (body x w).1.1 = Ok tt) l ->
  for_each l body w = (Ok tt, w, flat_map (fun x => (body x w).2) l).
Proof.
  induction 1 as [|x l Hx Hall IH]; [reflexivity|].
  rewrite for_each_cons. cbn [flat_map]. pose proof (body_world x) as Hw.
  destruct (body x w) as [[r w1] t1]; cbn in *; subst. rewrite IH. reflexivity.
Qed.

Lemma for_each_fixed_abort (pre post : list A) (x : A) (e : Exn) :
  Forall (fun y => (body y w).1.1 = Ok tt) pre ->
  (body x w).1.1 = Raise e ->
  for_each (pre ++ x :: post) body w =
  (Raise e, w, flat_map (fun y => (body y w).2) pre ++ (body x w).2).
Proof.
  induction 1 as [|y pre Hy Hall IH]; intros Hx.
  - cbn [app flat_map]. rewrite for_each_cons. pose proof (body_world x) as Hw.
    destruct (body x w) as [[r w1] t1]; cbn in *; subst. reflexivity.
  - cbn [app flat_map]. rewrite for_each_cons. pose proof (body_world y) as Hw.
    destruct (body y w) as [[r w1] t1]; cbn in *; subst.
    rewrite (IH Hx). cbn. rewrite app_assoc. reflexivity.
Qed.

End ForEachFixed.

Lemma volume_calls_flat_map {A} (f : A -> list Event) (l : list A) :
  volume_calls (flat_map f l) = flat_map (fun x => volume_calls (f x)) l.
Proof.
  induction l as [|x l IH]; [reflexivity|].
  cbn [flat_map]. rewrite volume_calls_app, IH. reflexivity.
Qed.

(** ** The apply pass *)

Section CorePass.

Variable audio : nat -> list Session.

(** What the loop body of [CoreMix.set_volume_levels] does on one
    session. *)
Lemma core_session_run v s session w :
  CoreMix.set_session_volume v s session w =
  match Process session with
  | None => (Ok tt, w, [])
  | Some process =>
      match name process with
      | Raise e => (Raise e, w, [])
      | Ok _ =>
          match Table.level_for v s
                  (Table.class_of (CoreMix.self w) (ProcessId session)) with
          | Some q => (volume_ctl session, w, [Log DEBUG; SetMasterVolume session q])
          | None => (Ok tt, w, [Log DEBUG])
          end
      end
  end.
Proof.
  unfold CoreMix.set_session_volume, Table.class_of.
  destruct (Process session) as [[[n|e]]|]; cbn; try reflexivity.
  repeat case_decide; cbn; destruct (volume_ctl session); reflexivity.
Qed.

Lemma core_session_world v s w session :
  (CoreMix.set_session_volume v s session w).1.2 = w.
Proof.
  rewrite core_session_run.
  destruct (Process session) as [[[n|e]]|]; try reflexivity.
  destruct (Table.level_for _ _ _); reflexivity.
Qed.

Lemma core_session_calls v s w session :
  (CoreMix.set_session_volume v s session w).1.1 = Ok tt ->
  volume_calls (CoreMix.set_session_volume v s session w).2 =
  match Process session with
  | None => []
  | Some _ =>
      match Table.level_for v s
              (Table.class_of (CoreMix.self w) (ProcessId session)) with
      | Some q => [(session, q)]
      | None => []
      end
  end.
Proof.
  rewrite core_session_run.
  destruct (Process session) as [[[n|e]]|]; try reflexivity; [|discriminate].
  destruct (Table.level_for _ _ _); reflexivity.
Qed.

Lemma core_pass_run v s w :
  CoreMix.set_volume_levels audio v s w =
  for_each (audio (CoreMix.audio_calls w)) (CoreMix.set_session_volume v s)
           (CoreMix.count_audio_call w).
Proof.
  unfold CoreMix.set_volume_levels, CoreMix.GetAllSessions, bind.
  destruct (for_each _ _ _) as [[r w2] t2]. reflexivity.
Qed.

Lemma core_pass_world v s w :
  (CoreMix.set_volume_levels audio v s w).1.2 = CoreMix.count_audio_call w.
Proof.
  rewrite core_pass_run. apply for_each_fixed_world.
  intros x. apply core_session_world.
Qed.

(** The calls of a pass that returns, and the object after any pass. *)
Lemma core_pass_ok_calls v s w r w' t :
  CoreMix.set_volume_levels audio v s w = (r, w', t) ->
  CoreMix.self w' = CoreMix.self w /\
  (r = Ok tt ->
   volume_calls t =
   flat_map
     (fun session =>
        match Process session with
        | None => []
        | Some _ =>
            match Table.class_of (CoreMix.self w) (ProcessId session) with
            | Voice => [(session, div100 v)]
            | Excluded => []
            | System => [(session, div100 s)]
            end
        end)
     (audio (CoreMix.audio_calls w))).
Proof.
  intros H. pose proof (core_pass_world v s w) as Hw.
  rewrite H in Hw. cbn in Hw. subst w'. split; [reflexivity|].
  intros ->. rewrite core_pass_run in H.
  destruct (for_each_fixed_ok (CoreMix.set_session_volume v s)
              (CoreMix.count_audio_call w)
              (fun x => core_session_world v s _ x)
              (audio (CoreMix.audio_calls w))) as [Hall Ht];
    [rewrite H; reflexivity|].
  rewrite H in Ht. cbn in Ht. subst t. clear H.
  rewrite volume_calls_flat_map.
  induction Hall as [|session l Hs Hall IH]; [reflexivity|].
  cbn [flat_map]. rewrite IH, (core_session_calls _ _ _ _ Hs). f_equal.
  destruct (Process session); [|reflexivity].
  destruct (Table.class_of _ _); reflexivity.
Qed.

End CorePass.

Section ChatPass.

Variables voice_apps exclude_apps : gset string.
Variable audio : nat -> list Session.

(** What the loop body of chatmix's [set_volume_levels] does on one
    session. *)
Lemma chat_session_run v s session w :
  ChatMix.set_session_volume voice_apps exclude_apps v s session w =
  match Process session with
  | None => (Ok tt, w, [])
  | Some process =>
      match name process with
      | Raise e => (Raise e, w, [])
      | Ok app_name =>
          match Table.class_of_name voice_apps exclude_apps app_name with
          | Voice =>
              (volume_ctl session, w,
               [Log DEBUG; Log DEBUG; SetMasterVolume session (div100 v)])
          | Excluded => (Ok tt, w, [Log DEBUG; Log DEBUG])
          | System =>
              (volume_ctl session, w,
               [Log DEBUG; SetMasterVolume session (div100 s)])
          end
      end
  end.
Proof.
  unfold ChatMix.set_session_volume, Table.class_of_name.
  destruct (Process session) as [[[n|e]]|]; cbn; try reflexivity.
  repeat case_decide; cbn; destruct (volume_ctl session); reflexivity.
Qed.

Lemma chat_session_world v s w session :
  (ChatMix.set_session_volume voice_apps exclude_apps v s session w).1.2 = w.
Proof.
  rewrite chat_session_run.
  destruct (Process session) as [[[n|e]]|]; try reflexivity.
  cbn. destruct (Table.class_of_name voice_apps exclude_apps n); reflexivity.
Qed.

Lemma chat_pass_run v s w :
  ChatMix.set_volume_levels voice_apps exclude_apps audio v s w =
  for_each (audio (ChatMix.audio_calls w))
           (ChatMix.set_session_volume voice_apps exclude_apps v s)
           (ChatMix.count_audio_call w).
Proof.
  unfold ChatMix.set_volume_levels, ChatMix.GetAllSessions, bind.
  destruct (for_each _ _ _) as [[r w2] t2]. reflexivity.
Qed.

Lemma chat_pass_world v s w :
  (ChatMix.set_volume_levels voice_apps exclude_apps audio v s w).1.2
  = ChatMix.count_audio_call w.
Proof.
  rewrite chat_pass_run. apply for_each_fixed_world.
  intros x. apply chat_session_world.
Qed.

Lemma chat_session_calls v s w session :
  (ChatMix.set_session_volume voice_apps exclude_apps v s session w).1.1 = Ok tt ->
  volume_calls (ChatMix.set_session_volume voice_apps exclude_apps v s session w).2
  = Sessions.calls_by_name voice_apps exclude_apps v s session.
Proof.
  rewrite chat_session_run. unfold Sessions.calls_by_name.
  destruct (Process session) as [[[n|e]]|]; cbn; try reflexivity; try discriminate.
  destruct (Table.class_of_name voice_apps exclude_apps n); reflexivity.
Qed.

(** The calls of a pass of the functional variant that returns, and the
    world after it. *)
Lemma chat_pass_ok_calls v s w r w' t :
  ChatMix.set_volume_levels voice_apps exclude_apps audio v s w = (r, w', t) ->
  r = Ok tt ->
  w' = ChatMix.count_audio_call w /\
  volume_calls t =
  flat_map (Sessions.calls_by_name voice_apps exclude_apps v s)
           (audio (ChatMix.audio_calls w)).
Proof.
  intros Hrun ->.
  pose proof (chat_pass_world v s w) as Hw.
  rewrite Hrun in Hw. cbn in Hw. split; [exact Hw|].
  rewrite chat_pass_run in Hrun.
  pose proof (for_each_fixed_ok
                (ChatMix.set_session_volume voice_apps exclude_apps v s)
                (ChatMix.count_audio_call w)
                (fun x => chat_session_world v s _ x)
                (audio (ChatMix.audio_calls w))) as Hok.
  rewrite Hrun in Hok. destruct (Hok eq_refl) as [Hall Ht]. cbn in Ht. subst t.
  rewrite volume_calls_flat_map.
  clear Hrun Hok. induction Hall as [|x l Hx Hall IH]; [reflexivity|].
  cbn [flat_map]. rewrite IH, (chat_session_calls _ _ _ _ Hx). reflexivity.
Qed.

(** C2.  A pass of [set_volume_levels] with the levels [v] and [s], in
    either variant.  In the class-based variant, when the pass returns,
    its [SetMasterVolume] calls are exactly, in the order of the
    sessions: for each session with an owning process, one call with
    [v / 100] when its identifier is classified Voice, no call when it
    is classified Excluded, one call with [s / 100] when it is in
    neither set (System, or never classified); and whether it returns or
    not, the pass leaves the object, and so both identifier sets, as
    they were.  In the functional variant, which keeps no table, a pass
    that returns makes the same calls by the class that the name of the
    owning process has: [v / 100] for a voice name, none for an excluded
    name, [s / 100] for any other; and it changes nothing but the count
    of the enumerations. *)
Theorem apply_pass_by_class v s (wc : CoreMix.World) rc wc' tc
    (wm : ChatMix.World) rm wm' tm :
  CoreMix.set_volume_levels audio v s wc = (rc, wc', tc) ->
  ChatMix.set_volume_levels voice_apps exclude_apps audio v s wm = (rm, wm', tm) ->
  (CoreMix.self wc' = CoreMix.self wc /\
   (rc = Ok tt ->
    volume_calls tc =
    flat_map
      (fun session =>
         match Process session with
         | None => []
         | Some _ =>
             match Table.class_of (CoreMix.self wc) (ProcessId session) with
             | Voice => [(session, div100 v)]
             | Excluded => []
             | System => [(session, div100 s)]
             end
         end)
      (audio (CoreMix.audio_calls wc)))) /\
  (rm = Ok tt ->
   wm' = ChatMix.count_audio_call wm /\
   volume_calls tm =
   flat_map
     (fun session =>
        match Process session with
        | None => []
        | Some process =>
            match name process with
            | Raise _ => []
            | Ok app_name =>
                match Table.class_of_name voice_apps exclude_apps app_name with
                | Voice => [(session, div100 v)]
                | Excluded => []
                | System => [(session, div100 s)]
                end
            end
        end)
     (audio (ChatMix.audio_calls wm))).
Proof.
  intros Hc Hm. split; [exact (core_pass_ok_calls audio v s wc rc wc' tc Hc)|].
  intros Hr. destruct (chat_pass_ok_calls v s wm rm wm' tm Hm Hr) as [Hw Hcalls].
  split; [exact Hw|]. rewrite Hcalls. apply flat_map_ext. intros session.
  unfold Sessions.calls_by_name.
  destruct (Process session) as [[[n|e]]|]; try reflexivity. cbn.
  destruct (Table.class_of_name voice_apps exclude_apps n); reflexivity.
Qed.

End ChatPass.

Lemma apply_pass_by_class_witness :
  volume_calls
    (CoreMix.set_volume_levels Examples.audio_ABC 30 80
       (Examples.in_loops Examples.table_ABC)).2
  = [(Examples.session_A, div100 30); (Examples.session_C, div100 80)] /\
  volume_calls
    (ChatMix.set_volume_levels Examples.voice_names Examples.excluded_names
       Examples.audio_ABC 30 80 Examples.chat_in_loops).2
  = [(Examples.session_A, div100 30); (Examples.session_C, div100 80)].
Proof.
  destruct (apply_pass_by_class Examples.voice_names Examples.excluded_names
              Examples.audio_ABC 30 80
              (Examples.in_loops Examples.table_ABC) _ _ _
              Examples.chat_in_loops _ _ _ (run_eta _) (run_eta _))
    as [[_ Hcore] Hchat].
  split.
  - rewrite Hcore by (vm_compute; reflexivity). vm_compute. reflexivity.
  - destruct Hchat as [_ Hcalls]; [vm_compute; reflexivity|].
    rewrite Hcalls. vm_compute. reflexivity.
Defined.


(** ** A failing volume call *)

Section PassFailure.

Variables voice_apps exclude_apps : gset string.
Variable audio : nat -> list Session.

(** C5, as the code has it.  Neither variant catches anything inside
    [set_volume_levels].  When the loop body returns on the sessions
    [pre] and the [SetMasterVolume] call on the next session raises [e],
    the pass ends there: [e] leaves [set_volume_levels], the trace ends
    with the failed call, and the sessions [post] after it are not
    processed. *)
Theorem apply_pass_aborts_at_failure v s pre session post process app_name e
    (wc : CoreMix.World) (wm : ChatMix.World) :
  Process session = Some process ->
  name process = Ok app_name ->
  volume_ctl session = Raise e ->
  (audio (CoreMix.audio_calls wc) = pre ++ session :: post ->
   Forall (fun x => (CoreMix.set_session_volume v s x
                       (CoreMix.count_audio_call wc)).1.1 = Ok tt) pre ->
   forall q,
   Table.level_for v s (Table.class_of (CoreMix.self wc) (ProcessId session))
     = Some q ->
   CoreMix.set_volume_levels audio v s wc =
   (Raise e, CoreMix.count_audio_call wc,
    flat_map (fun x => (CoreMix.set_session_volume v s x
                          (CoreMix.count_audio_call wc)).2) pre
    ++ [Log DEBUG; SetMasterVolume session q])) /\
  (audio (ChatMix.audio_calls wm) = pre ++ session :: post ->
   Forall (fun x => (ChatMix.set_session_volume voice_apps exclude_apps v s x
                       (ChatMix.count_audio_call wm)).1.1 = Ok tt) pre ->
   forall q,
   Table.level_for v s (Table.class_of_name voice_apps exclude_apps app_name)
     = Some q ->
   exists logs,
   Forall (fun ev => ev = Log DEBUG) logs /\
   ChatMix.set_volume_levels voice_apps exclude_apps audio v s wm =
   (Raise e, ChatMix.count_audio_call wm,
    flat_map (fun x => (ChatMix.set_session_volume voice_apps exclude_apps v s x
                          (ChatMix.count_audio_call wm)).2) pre
    ++ logs ++ [SetMasterVolume session q])).
Proof.
  intros Hp Hn He. split.
  - intros Hl Hpre q Hq. rewrite core_pass_run, Hl.
    assert (Hs : CoreMix.set_session_volume v s session (CoreMix.count_audio_call wc)
                 = (Raise e, CoreMix.count_audio_call wc,
                    [Log DEBUG; SetMasterVolume session q])).
    { rewrite core_session_run, Hp, Hn. cbn [CoreMix.count_audio_call CoreMix.self].
      rewrite Hq, He. reflexivity. }
    rewrite (for_each_fixed_abort _ _ (fun x => core_session_world v s _ x)
               pre post session e Hpre); rewrite Hs; reflexivity.
  - intros Hl Hpre q Hq.
    assert (Hs : exists logs, Forall (fun ev => ev = Log DEBUG) logs /\
                 ChatMix.set_session_volume voice_apps exclude_apps v s session
                   (ChatMix.count_audio_call wm)
                 = (Raise e, ChatMix.count_audio_call wm,
                    logs ++ [SetMasterVolume session q])).
    { rewrite chat_session_run, Hp, Hn.
      destruct (Table.class_of_name voice_apps exclude_apps app_name);
        cbn in Hq; inversion Hq; subst q; rewrite He.
      - exists [Log DEBUG; Log DEBUG]. split; [repeat constructor|reflexivity].
      - exists [Log DEBUG]. split; [repeat constructor|reflexivity]. }
    destruct Hs as (logs & Hlogs & Hs). exists logs. split; [exact Hlogs|].
    rewrite chat_pass_run, Hl.
    rewrite (for_each_fixed_abort _ _
               (fun x => chat_session_world voice_apps exclude_apps v s _ x)
               pre post session e Hpre); rewrite Hs; reflexivity.
Qed.

End PassFailure.

(** C5 as the specification states it fails: the call on the first
    session raises, and the system session after it gets no call. *)
Lemma failed_call_skips_the_rest :
  (CoreMix.set_volume_levels Examples.audio_gone_C 30 80
     (Examples.in_loops Examples.table_ABC)).1.1 = Raise COMError /\
  volume_calls
    (CoreMix.set_volume_levels Examples.audio_gone_C 30 80
       (Examples.in_loops Examples.table_ABC)).2
  = [(Examples.session_gone, div100 80)] /\
  Table.class_of Examples.table_ABC (ProcessId Examples.session_C) = System /\
  forall q,
    (Examples.session_C, q) ∉
    volume_calls
      (CoreMix.set_volume_levels Examples.audio_gone_C 30 80
         (Examples.in_loops Examples.table_ABC)).2.
Proof.
  assert (H : CoreMix.set_volume_levels Examples.audio_gone_C 30 80
                (Examples.in_loops Examples.table_ABC)
              = (Raise COMError,
                 CoreMix.count_audio_call (Examples.in_loops Examples.table_ABC),
                 [Log DEBUG; SetMasterVolume Examples.session_gone (div100 80)]))
    by (vm_compute; reflexivity).
  rewrite H. cbn [fst snd volume_calls].
  split; [reflexivity|]. split; [reflexivity|]. split; [vm_compute; reflexivity|].
  intros q Hin. apply list_elem_of_singleton in Hin. discriminate Hin.
Qed.

Lemma apply_pass_aborts_at_failure_witness :
  CoreMix.set_volume_levels Examples.audio_gone_C 30 80
    (Examples.in_loops Examples.table_ABC)
  = (Raise COMError,
     CoreMix.count_audio_call (Examples.in_loops Examples.table_ABC),
     [Log DEBUG; SetMasterVolume Examples.session_gone (div100 80)]).
Proof.
  exact (proj1 (apply_pass_aborts_at_failure
                  Examples.voice_names Examples.excluded_names
                  Examples.audio_gone_C 30 80
                  [] Examples.session_gone [Examples.session_C]
                  {| name := Ok "intro.exe"%string |} "intro.exe"%string COMError
                  (Examples.in_loops Examples.table_ABC) ChatMix.started
                  eq_refl eq_refl eq_refl)
           eq_refl ltac:(constructor) (div100 80) eq_refl).
Defined.

(** ** The dial poll loop *)

Section DialLoop.

Variables voice_apps exclude_apps : gset string.
Variable audio : nat -> list Session.
Variable usb : nat -> Res (option (list Z)).

Lemma accepted_iff (v s : Z) :
  (v =? 100) || (s =? 100) = true <-> v = 100 \/ s = 100.
Proof. rewrite orb_true_iff, !Z.eqb_eq. reflexivity. Qed.

(** An accepted report in the class-based variant: both levels are
    stored, then the pass runs with them. *)
Lemma core_dial_accepted data v s (wc : CoreMix.World) :
  data !! 2%nat = Some v ->
  data !! 1%nat = Some s ->
  usb (CoreMix.usb_calls wc) = Ok (Some data) ->
  (v =? 100) || (s =? 100) = true ->
  CoreMix.usb_reader_body audio usb wc =
  try_except
    (emit (Log INFO) ;;; CoreMix.set_volume_levels audio v s ;;; ret Next)
    CoreMix.usb_handler
    (CoreMix.with_self (CoreMix.set_system_level s)
       (CoreMix.with_self (CoreMix.set_voice_level v)
          (CoreMix.count_usb_call wc))).
Proof.
  intros H2 H1 Hc Hacc.
  unfold CoreMix.usb_reader_body, try_except, bind, CoreMix.dev_read.
  rewrite Hc. unfold lift, index. rewrite H2, H1, Hacc.
  cbn -[CoreMix.set_volume_levels].
  destruct (CoreMix.set_volume_levels _ _ _ _) as [[[[]|e] w2] t2];
    cbn; [rewrite app_nil_r; reflexivity|].
  destruct (CoreMix.usb_handler e w2) as [[r3 w3] t3]. reflexivity.
Qed.

(** The same in the functional variant. *)
Lemma chat_dial_accepted data v s (wm : ChatMix.World) :
  data !! 2%nat = Some v ->
  data !! 1%nat = Some s ->
  usb (ChatMix.usb_calls wm) = Ok (Some data) ->
  (v =? 100) || (s =? 100) = true ->
  ChatMix.usb_reader_body voice_apps exclude_apps audio usb wm =
  try_except
    (emit (Log INFO) ;;;
     ChatMix.set_volume_levels voice_apps exclude_apps audio v s ;;; ret Next)
    ChatMix.usb_handler
    (ChatMix.set_volume_cache
       (<[ "system_level"%string := s ]>
          (<[ "voice_level"%string := v ]> (ChatMix.volume_cache wm)))
       (ChatMix.count_usb_call wm)).
Proof.
  intros H2 H1 Hm Hacc.
  unfold ChatMix.usb_reader_body, try_except, bind, ChatMix.dev_read.
  rewrite Hm. unfold lift, index. rewrite H2, H1, Hacc.
  unfold ChatMix.cache_set, ChatMix.cache_get, modify, emit.
  cbn [ChatMix.volume_cache ChatMix.set_volume_cache].
  rewrite lookup_insert_ne by discriminate.
  rewrite lookup_insert_eq.
  cbn [ChatMix.volume_cache ChatMix.set_volume_cache].
  rewrite lookup_insert_eq.
  cbn -[ChatMix.set_volume_levels insert].
  destruct (ChatMix.set_volume_levels _ _ _ _ _ _) as [[[[]|e] w2] t2];
    cbn; [rewrite app_nil_r; reflexivity|].
  destruct (ChatMix.usb_handler e w2) as [[r3 w3] t3]. reflexivity.
Qed.

(** A rejected report, in either variant. *)
Lemma core_dial_rejected data v s (wc : CoreMix.World) :
  data !! 2%nat = Some v ->
  data !! 1%nat = Some s ->
  usb (CoreMix.usb_calls wc) = Ok (Some data) ->
  (v =? 100) || (s =? 100) = false ->
  CoreMix.usb_reader_body audio usb wc
  = (Ok Next, CoreMix.count_usb_call wc, [Log DEBUG]).
Proof.
  intros H2 H1 Hc Hacc.
  unfold CoreMix.usb_reader_body, try_except, bind, CoreMix.dev_read.
  rewrite Hc. unfold lift, index. rewrite H2, H1, Hacc. reflexivity.
Qed.

Lemma chat_dial_rejected data v s (wm : ChatMix.World) :
  data !! 2%nat = Some v ->
  data !! 1%nat = Some s ->
  usb (ChatMix.usb_calls wm) = Ok (Some data) ->
  (v =? 100) || (s =? 100) = false ->
  ChatMix.usb_reader_body voice_apps exclude_apps audio usb wm
  = (Ok Next, ChatMix.count_usb_call wm, [Log DEBUG]).
Proof.
  intros H2 H1 Hm Hacc.
  unfold ChatMix.usb_reader_body, try_except, bind, ChatMix.dev_read.
  rewrite Hm. unfold lift, index. rewrite H2, H1, Hacc. reflexivity.
Qed.

(** C1.  On a report [data] with [data[2] = v] and [data[1] = s], both
    variants take the voice level from offset 2 and the system level from
    offset 1.  When [v = 100] or [s = 100] the turn stores [v] as voice
    level and [s] as system level and then runs the apply pass with
    [(v, s)]; otherwise it ends at once: the world is the one after the
    read, the stored levels are untouched, [GetAllSessions] is not called
    and the only event is a debug log line. *)
Theorem dial_report_decoded data v s (wc : CoreMix.World) (wm : ChatMix.World) :
  data !! 2%nat = Some v ->
  data !! 1%nat = Some s ->
  usb (CoreMix.usb_calls wc) = Ok (Some data) ->
  usb (ChatMix.usb_calls wm) = Ok (Some data) ->
  (v = 100 \/ s = 100 ->
   CoreMix.usb_reader_body audio usb wc =
   try_except
     (emit (Log INFO) ;;; CoreMix.set_volume_levels audio v s ;;; ret Next)
     CoreMix.usb_handler
     (CoreMix.with_self (CoreMix.set_system_level s)
        (CoreMix.with_self (CoreMix.set_voice_level v)
           (CoreMix.count_usb_call wc))) /\
   ChatMix.usb_reader_body voice_apps exclude_apps audio usb wm =
   try_except
     (emit (Log INFO) ;;;
      ChatMix.set_volume_levels voice_apps exclude_apps audio v s ;;; ret Next)
     ChatMix.usb_handler
     (ChatMix.set_volume_cache
        (<[ "system_level"%string := s ]>
           (<[ "voice_level"%string := v ]> (ChatMix.volume_cache wm)))
        (ChatMix.count_usb_call wm))) /\
  (~ (v = 100 \/ s = 100) ->
   CoreMix.usb_reader_body audio usb wc
   = (Ok Next, CoreMix.count_usb_call wc, [Log DEBUG]) /\
   ChatMix.usb_reader_body voice_apps exclude_apps audio usb wm
   = (Ok Next, ChatMix.count_usb_call wm, [Log DEBUG])).
Proof.
  intros H2 H1 Hc Hm. split; intros Hacc.
  - apply accepted_iff in Hacc. split.
    + exact (core_dial_accepted data v s wc H2 H1 Hc Hacc).
    + exact (chat_dial_accepted data v s wm H2 H1 Hm Hacc).
  - rewrite <- accepted_iff in Hacc. apply not_true_is_false in Hacc. split.
    + exact (core_dial_rejected data v s wc H2 H1 Hc Hacc).
    + exact (chat_dial_rejected data v s wm H2 H1 Hm Hacc).
Qed.

(** C8.  A read that raises [USBError] in a running dial loop: with
    errno 110 (timeout) the turn does nothing but count the read, and the
    thread stays in the loop; with errno 19 (device gone) the thread logs,
    leaves the loop, releases the device and is finished; with any other
    errno the error is logged and the thread stays in the loop.  The same
    in both variants. *)
Theorem dial_read_errors errno (wc : CoreMix.World) (wm : ChatMix.World) :
  CoreMix.usb_thread wc = InLoop ->
  CoreMix.exit_event (CoreMix.self wc) = false ->
  usb (CoreMix.usb_calls wc) = Raise (USBError errno) ->
  ChatMix.usb_thread wm = InLoop ->
  ChatMix.exit_event wm = false ->
  usb (ChatMix.usb_calls wm) = Raise (USBError errno) ->
  (errno = 110 ->
   CoreMix.usb_reader_turn audio usb wc = (CoreMix.count_usb_call wc, []) /\
   ChatMix.usb_reader_turn voice_apps exclude_apps audio usb wm
   = (ChatMix.count_usb_call wm, [])) /\
  (errno = 19 ->
   CoreMix.usb_reader_turn audio usb wc
   = (CoreMix.with_usb_thread Finished (CoreMix.count_usb_call wc),
      [Log INFO; DisposeResources]) /\
   ChatMix.usb_reader_turn voice_apps exclude_apps audio usb wm
   = (ChatMix.with_usb_thread Finished (ChatMix.count_usb_call wm),
      [Log INFO; DisposeResources])) /\
  (errno <> 110 -> errno <> 19 ->
   CoreMix.usb_reader_turn audio usb wc = (CoreMix.count_usb_call wc, [Log ERROR]) /\
   ChatMix.usb_reader_turn voice_apps exclude_apps audio usb wm
   = (ChatMix.count_usb_call wm, [Log ERROR])).
Proof.
  intros Htc Hec Hc Htm Hem Hm.
  unfold CoreMix.usb_reader_turn, ChatMix.usb_reader_turn.
  rewrite Htc, Hec, Htm, Hem.
  unfold CoreMix.usb_reader_first, ChatMix.usb_reader_first, try_except, bind,
    CoreMix.dev_read, ChatMix.dev_read.
  rewrite Hc, Hm. cbn [CoreMix.usb_handler ChatMix.usb_handler].
  split_and!.
  - intros ->. split; reflexivity.
  - intros ->. split; reflexivity.
  - intros H110 H19. apply Z.eqb_neq in H110, H19. rewrite H110, H19.
    split; reflexivity.
Qed.

End DialLoop.

Lemma dial_report_decoded_witness :
  CoreMix.usb_reader_body Examples.audio_ABC Examples.usb_dial
    (Examples.in_loops Examples.table_ABC)
  = (Ok Next,
     CoreMix.count_audio_call
       (CoreMix.with_self (CoreMix.set_system_level 100)
          (CoreMix.with_self (CoreMix.set_voice_level 30)
             (CoreMix.count_usb_call (Examples.in_loops Examples.table_ABC)))),
     [Log INFO; Log DEBUG; SetMasterVolume Examples.session_A (div100 30);
      Log DEBUG; Log DEBUG; SetMasterVolume Examples.session_C (div100 100)]).
Proof.
  rewrite (proj1 (proj1 (dial_report_decoded
                           Examples.voice_names Examples.excluded_names
                           Examples.audio_ABC Examples.usb_dial
                           [0; 100; 30] 30 100
                           (Examples.in_loops Examples.table_ABC) ChatMix.started
                           eq_refl eq_refl eq_refl eq_refl)
                    (or_intror eq_refl))).
  vm_compute. reflexivity.
Defined.

Lemma dial_read_errors_witness :
  CoreMix.usb_reader_turn Examples.audio_ABC Examples.usb_gone
    (Examples.in_loops Examples.table_ABC)
  = (CoreMix.with_usb_thread Finished
       (CoreMix.count_usb_call (Examples.in_loops Examples.table_ABC)),
     [Log INFO; DisposeResources]).
Proof.
  exact (proj1 (proj1 (proj2 (dial_read_errors
                                Examples.voice_names Examples.excluded_names
                                Examples.audio_ABC Examples.usb_gone 19
                                (Examples.in_loops Examples.table_ABC)
                                (ChatMix.with_usb_thread InLoop ChatMix.started)
                                eq_refl eq_refl eq_refl eq_refl eq_refl eq_refl))
                  eq_refl)).
Defined.

(** ** The turn of the dial loop in two parts *)

Section Cut.
Variables voice_apps exclude_apps : gset string.
Variable audio : nat -> list Session.
Variable usb : nat -> Res (option (list Z)).

(** The two parts of a turn, run one after the other, are the turn. *)
Lemma core_usb_reader_cut w :
  CoreMix.usb_reader_body audio usb w =
  match CoreMix.usb_reader_first usb w with
  | (Ok (inl c), w1, t1) => (Ok c, w1, t1)
  | (Ok (inr s), w1, t1) =>
      let '(r, w2, t2) := CoreMix.usb_reader_second audio s w1 in
      (r, w2, t1 ++ t2)
  | (Raise e, w1, t1) => (Raise e, w1, t1)
  end.
Proof.
  unfold CoreMix.usb_reader_body, CoreMix.usb_reader_first,
    CoreMix.usb_reader_second, try_except, bind, CoreMix.dev_read, lift, index.
  destruct (usb (CoreMix.usb_calls w)) as [[data|]|e]; [|reflexivity|].
  - destruct (data !! 2%nat) as [v|]; [|reflexivity].
    destruct (data !! 1%nat) as [s|]; [|reflexivity].
    destruct ((v =? 100) || (s =? 100)); [|reflexivity].
    cbn -[CoreMix.set_volume_levels].
    destruct (CoreMix.set_volume_levels _ _ _ _) as [[[[]|e] w2] t2]; cbn;
      [reflexivity|].
    destruct (CoreMix.usb_handler e w2) as [[r3 w3] t3]. reflexivity.
  - destruct (CoreMix.usb_handler e _) as [[[c|e'] w3] t3]; cbn;
      rewrite ?app_nil_r; reflexivity.
Qed.

Lemma chat_usb_reader_cut w :
  ChatMix.usb_reader_body voice_apps exclude_apps audio usb w =
  match ChatMix.usb_reader_first usb w with
  | (Ok (inl c), w1, t1) => (Ok c, w1, t1)
  | (Ok (inr s), w1, t1) =>
      let '(r, w2, t2) :=
        ChatMix.usb_reader_second voice_apps exclude_apps audio s w1 in
      (r, w2, t1 ++ t2)
  | (Raise e, w1, t1) => (Raise e, w1, t1)
  end.
Proof.
  unfold ChatMix.usb_reader_body, ChatMix.usb_reader_first,
    ChatMix.usb_reader_second, try_except, bind, ChatMix.dev_read, lift, index.
  destruct (usb (ChatMix.usb_calls w)) as [[data|]|e]; [|reflexivity|].
  - destruct (data !! 2%nat) as [v|]; [|reflexivity].
    destruct (data !! 1%nat) as [s|]; [|reflexivity].
    destruct ((v =? 100) || (s =? 100)); [|reflexivity].
    unfold ChatMix.cache_set, ChatMix.cache_get, modify, emit.
    cbn -[ChatMix.set_volume_levels insert lookup].
    destruct (_ !! "voice_level"%string) as [v'|]; [|reflexivity].
    destruct (_ !! "system_level"%string) as [s'|]; [|reflexivity].
    cbn -[ChatMix.set_volume_levels insert lookup].
    destruct (ChatMix.set_volume_levels _ _ _ _ _ _) as [[[[]|e] w2] t2]; cbn;
      [reflexivity|].
    destruct (ChatMix.usb_handler e w2) as [[r3 w3] t3]. reflexivity.
  - destruct (ChatMix.usb_handler e _) as [[[c|e'] w3] t3]; cbn;
      rewrite ?app_nil_r; reflexivity.
Qed.
End Cut.

(** ** The session poll loop of the class-based variant *)

Lemma quiet_no_calls t : Table.quiet t -> volume_calls t = [].
Proof.
  induction 1 as [|ev t Hev _ IH]; [reflexivity|].
  destruct ev; cbn in *; solve [exact IH | contradiction].
Qed.

Lemma quiet_nil : Table.quiet [].
Proof. constructor. Qed.

Lemma quiet_app t1 t2 : Table.quiet t1 -> Table.quiet t2 -> Table.quiet (t1 ++ t2).
Proof. apply Forall_app_2. Qed.

Lemma volume_calls_elem (t : list Event) session q :
  (session, q) ∈ volume_calls t <-> SetMasterVolume session q ∈ t.
Proof.
  induction t as [|ev t IH]; cbn.
  - split; intros H; inversion H.
  - destruct ev; rewrite ?elem_of_cons, IH; naive_solver.
Qed.

Lemma core_snapshot_elem sessions current app_name app_id :
  CoreMix.snapshot sessions = Ok current ->
  (app_name, app_id) ∈ current <-> Table.has_instance app_name app_id sessions.
Proof.
  unfold Table.has_instance.
  revert current. induction sessions as [|session rest IH]; intros current; cbn.
  - intros [= <-]. split; [set_solver|]. intros (s & p & Hin & _). inversion Hin.
  - destruct (Process session) as [[[a|e]]|] eqn:Hp; cbn.
    + destruct (CoreMix.snapshot rest) as [cur|e] eqn:Hs; [|discriminate].
      intros [= <-]. rewrite elem_of_union, elem_of_singleton, (IH cur eq_refl).
      split.
      * intros [[= -> ->]|(s & p & Hin & H1 & H2 & H3)].
        -- exists session, {| name := Ok a |}. repeat split; [left|assumption].
        -- exists s, p. repeat split; [right|..]; assumption.
      * intros (s & p & Hin & H1 & H2 & H3). apply elem_of_cons in Hin as [->|Hin].
        -- left. rewrite Hp in H1. injection H1 as <-. cbn in H2. congruence.
        -- right. exists s, p. repeat split; assumption.
    + discriminate.
    + intros Hs. rewrite (IH current Hs). split.
      * intros (s & p & Hin & H1 & H2 & H3). exists s, p. repeat split; [right|..]; assumption.
      * intros (s & p & Hin & H1 & H2 & H3). apply elem_of_cons in Hin as [->|Hin].
        -- congruence.
        -- exists s, p. repeat split; assumption.
Qed.

Ltac quiet_cons H := repeat (constructor; [exact I|]); exact H.

Section Monitor.
Variable audio : nat -> list Session.

Lemma core_classify_loop (l : list (string * Z)) (w : CoreMix.World) :
  exists V E t,
    for_each l CoreMix.classify_session w
    = (Ok tt, CoreMix.with_self (CoreMix.with_ids V E) w, t) /\
    Table.quiet t /\
    (forall i, i ∈ V <->
       (i ∈ CoreMix.voice_ids (CoreMix.self w) \/
        exists a, (a, i) ∈ l /\ a ∈ CoreMix.voice_apps (CoreMix.self w))) /\
    (forall i, i ∈ E <->
       (i ∈ CoreMix.exclude_ids (CoreMix.self w) \/
        exists a, (a, i) ∈ l /\ (a ∉ CoreMix.voice_apps (CoreMix.self w)) /\
                  a ∈ CoreMix.exclude_apps (CoreMix.self w))).
Proof.
  revert w. induction l as [|[a i] l IH]; intros w.
  - exists (CoreMix.voice_ids (CoreMix.self w)), (CoreMix.exclude_ids (CoreMix.self w)), [].
    split; [destruct w as [[] ? ? ? ?]; reflexivity|]. split; [constructor|].
    split; intros j; set_solver.
  - rewrite for_each_cons. unfold CoreMix.classify_session at 1.
    cbn. case_decide as Hv; [|case_decide as He]; cbn.
    + destruct (IH (CoreMix.with_self (CoreMix.add_voice_id i) w))
        as (V & E & t & Hrun & Ht & HV & HE).
      rewrite Hrun. exists V, E, (Print :: Log INFO :: t).
      split; [reflexivity|]. split; [quiet_cons Ht|]. cbn in HV, HE.
      split; intros j; [rewrite HV | rewrite HE]; set_solver.
    + destruct (IH (CoreMix.with_self (CoreMix.add_exclude_id i) w))
        as (V & E & t & Hrun & Ht & HV & HE).
      rewrite Hrun. exists V, E, (Print :: Log DEBUG :: t).
      split; [reflexivity|]. split; [quiet_cons Ht|]. cbn in HV, HE.
      split; intros j; [rewrite HV | rewrite HE]; set_solver.
    + destruct (IH w) as (V & E & t & Hrun & Ht & HV & HE).
      rewrite Hrun. exists V, E, (Print :: Log INFO :: t).
      split; [reflexivity|]. split; [quiet_cons Ht|].
      split; intros j; [rewrite HV | rewrite HE]; set_solver.
Qed.

(** One turn of the loop of [monitor_new_sessions], case by case. *)
Lemma core_monitor_body_run (w : CoreMix.World) :
  match CoreMix.snapshot (audio (CoreMix.audio_calls w)) with
  | Raise e =>
      CoreMix.monitor_body audio w =
      (match e with NoSuchProcess => Ok tt | _ => Raise e end,
       CoreMix.count_audio_call w, [])
  | Ok current =>
      let new := current ∖ CoreMix.known_sessions (CoreMix.self w) in
      if decide (new = ∅) then
        CoreMix.monitor_body audio w =
        (Ok tt,
         CoreMix.with_self (CoreMix.set_known_sessions current)
           (CoreMix.count_audio_call w),
         [Sleep 1])
      else
        exists V E tc,
          Table.quiet tc /\
          (forall i, i ∈ V <->
             (i ∈ CoreMix.voice_ids (CoreMix.self w) \/
              exists a, (a, i) ∈ new /\ a ∈ CoreMix.voice_apps (CoreMix.self w))) /\
          (forall i, i ∈ E <->
             (i ∈ CoreMix.exclude_ids (CoreMix.self w) \/
              exists a, (a, i) ∈ new /\ (a ∉ CoreMix.voice_apps (CoreMix.self w)) /\
                        a ∈ CoreMix.exclude_apps (CoreMix.self w))) /\
          let w2 := CoreMix.with_self (CoreMix.with_ids V E)
                      (CoreMix.count_audio_call w) in
          CoreMix.monitor_body audio w =
          match CoreMix.set_volume_levels audio
                  (CoreMix.voice_level (CoreMix.self w))
                  (CoreMix.system_level (CoreMix.self w)) w2 with
          | (Ok _, w3, t3) =>
              (Ok tt, CoreMix.with_self (CoreMix.set_known_sessions current) w3,
               Print :: tc ++ t3 ++ [Sleep 1])
          | (Raise NoSuchProcess, w3, t3) => (Ok tt, w3, Print :: tc ++ t3)
          | (Raise e, w3, t3) => (Raise e, w3, Print :: tc ++ t3)
          end
  end.
Proof.
  unfold CoreMix.monitor_body, try_except, bind, CoreMix.GetAllSessions, lift, get.
  destruct (CoreMix.snapshot _) as [current|e]; [|destruct e; reflexivity].
  cbn zeta. cbn [CoreMix.self CoreMix.count_audio_call].
  case_decide as Hnew.
  - reflexivity.
  - destruct (core_classify_loop
                (elements (current ∖ CoreMix.known_sessions (CoreMix.self w)))
                (CoreMix.count_audio_call w))
      as (V & E & tc & Hrun & Hq & HV & HE).
    exists V, E, tc. split; [exact Hq|].
    split; [intros i; rewrite HV; set_solver|].
    split; [intros i; rewrite HE; set_solver|].
    unfold emit. rewrite Hrun. cbn -[CoreMix.set_volume_levels].
    destruct (CoreMix.set_volume_levels _ _ _ _) as [[[[]|e] w3] t3]; cbn.
    + rewrite <- !app_assoc. reflexivity.
    + destruct e; cbn; rewrite app_nil_r; reflexivity.
Qed.
End Monitor.

(** The events of a loop whose body leaves the world as it is come from
    its elements, whether the loop returns or raises. *)
Section ForEachEvents.
Context {W A : Type} (body : A -> M W unit) (w : W).
Hypothesis body_world : forall x, (body x w).1.2 = w.

Lemma for_each_fixed_events (l : list A) (ev : Event) :
  ev ∈ (for_each l body w).2 -> exists x, x ∈ l /\ ev ∈ (body x w).2.
Proof.
  induction l as [|x l IH]; [intros H; inversion H|].
  rewrite for_each_cons. pose proof (body_world x) as Hx.
  destruct (body x w) as [[[[]|e] w1] t1] eqn:Hb; cbn in Hx; subst w1.
  - destruct (for_each l body w) as [[r w2] t2]. cbn in *.
    rewrite elem_of_app. intros [H|H].
    + exists x. split; [left|]. rewrite Hb. exact H.
    + destruct (IH H) as (y & Hy & Hev). exists y. split; [right; exact Hy|exact Hev].
  - cbn. intros H. exists x. split; [left|]. rewrite Hb. exact H.
Qed.
End ForEachEvents.

(** ** The turns of the class-based variant *)

Section Turns.
Variable audio : nat -> list Session.
Variable usb : nat -> Res (option (list Z)).

Lemma core_pass_calls_any v s w session q :
  (session, q) ∈ volume_calls (CoreMix.set_volume_levels audio v s w).2 ->
  session ∈ audio (CoreMix.audio_calls w) /\
  Process session <> None /\
  Table.level_for v s (Table.class_of (CoreMix.self w) (ProcessId session)) = Some q.
Proof.
  rewrite volume_calls_elem, core_pass_run. intros H.
  apply (for_each_fixed_events _ _ (fun x => core_session_world v s _ x)) in H.
  destruct H as (x & Hx & Hev). rewrite core_session_run in Hev.
  destruct (Process x) as [[[n|e]]|] eqn:Hp; cbn in Hev; try (inversion Hev; fail).
  cbn [CoreMix.self CoreMix.count_audio_call] in Hev.
  destruct (Table.level_for v s _) as [q'|] eqn:Hl; cbn in Hev.
  - apply elem_of_cons in Hev as [Hev|Hev]; [discriminate|].
    apply list_elem_of_singleton in Hev. injection Hev as -> ->.
    rewrite Hp. repeat split; [exact Hx|discriminate|exact Hl].
  - apply list_elem_of_singleton in Hev. discriminate.
Qed.

Lemma core_usb_handler_run e w :
  exists r t, CoreMix.usb_handler e w = (r, w, t) /\ Table.quiet t.
Proof.
  destruct e; cbn; try (eexists _, []; split; [reflexivity|constructor]).
  destruct (errno =? 110); [eexists _, []; split; [reflexivity|constructor]|].
  destruct (errno =? 19); cbn.
  - eexists _, [Log INFO]. split; [reflexivity|quiet_cons quiet_nil].
  - eexists _, [Log ERROR]. split; [reflexivity|quiet_cons quiet_nil].
Qed.


(** The first part of a turn of [usb_reader]: it ends the turn without
    touching the object, or it has read an accepted report and stored
    its voice level. *)
Lemma core_usb_first_run w :
  exists r t,
    Table.quiet t /\
    ((CoreMix.usb_reader_first usb w = (r, CoreMix.count_usb_call w, t) /\
      forall s, r <> Ok (inr s)) \/
     (exists data v s,
        usb (CoreMix.usb_calls w) = Ok (Some data) /\
        data !! 2%nat = Some v /\ data !! 1%nat = Some s /\
        (v = 100 \/ s = 100) /\
        CoreMix.usb_reader_first usb w =
        (Ok (inr s),
         CoreMix.with_self (CoreMix.set_voice_level v) (CoreMix.count_usb_call w),
         t))).
Proof.
  unfold CoreMix.usb_reader_first, try_except, bind, CoreMix.dev_read, lift, index.
  destruct (usb (CoreMix.usb_calls w)) as [[data|]|e] eqn:Hu.
  - destruct (data !! 2%nat) as [v|] eqn:H2;
      [|eexists _, []; split; [constructor|left; split; [reflexivity|discriminate]]].
    destruct (data !! 1%nat) as [s|] eqn:H1;
      [|eexists _, []; split; [constructor|left; split; [reflexivity|discriminate]]].
    destruct ((v =? 100) || (s =? 100)) eqn:Hacc.
    + exists (Ok (inr s)), [Log INFO]. split; [quiet_cons quiet_nil|]. right.
      apply orb_true_iff in Hacc. rewrite !Z.eqb_eq in Hacc.
      exists data, v, s. repeat split; first [reflexivity | assumption].
    + eexists _, [Log DEBUG]. split; [quiet_cons quiet_nil|]. left.
      split; [reflexivity|discriminate].
  - eexists _, []. split; [constructor|left; split; [reflexivity|discriminate]].
  - destruct (core_usb_handler_run e (CoreMix.count_usb_call w)) as (r & t & Hh & Hq).
    rewrite Hh. destruct r as [c|e'].
    + exists (Ok (inl c)), (t ++ []).
      split; [rewrite app_nil_r; exact Hq|left; split; [reflexivity|discriminate]].
    + exists (Raise e'), t.
      split; [exact Hq|left; split; [reflexivity|discriminate]].
Qed.

(** The second part: it stores the system level and runs the pass. *)
Lemma core_usb_second_run s w :
  exists r t2,
    Table.quiet t2 /\
    CoreMix.usb_reader_second audio s w =
    (r,
     CoreMix.count_audio_call (CoreMix.with_self (CoreMix.set_system_level s) w),
     (CoreMix.set_volume_levels audio (CoreMix.voice_level (CoreMix.self w)) s
        (CoreMix.with_self (CoreMix.set_system_level s) w)).2 ++ t2).
Proof.
  unfold CoreMix.usb_reader_second, try_except, bind, modify, get.
  cbn -[CoreMix.set_volume_levels].
  pose proof (core_pass_world audio (CoreMix.voice_level (CoreMix.self w)) s
                (CoreMix.with_self (CoreMix.set_system_level s) w)) as Hw.
  destruct (CoreMix.set_volume_levels _ _ _ _) as [[[[]|e] w2] t2]; cbn in Hw; subst w2.
  - eexists _, []. split; [constructor|]. cbn. reflexivity.
  - destruct (core_usb_handler_run e
                (CoreMix.count_audio_call
                   (CoreMix.with_self (CoreMix.set_system_level s) w)))
      as (r & t & Hh & Hq).
    cbn in Hh |- *. rewrite Hh. exists r, t. split; [exact Hq|reflexivity].
Qed.

Lemma core_usb_leave_run r w :
  exists t, CoreMix.usb_reader_leave r w = (CoreMix.with_usb_thread Finished w, t)
            /\ Table.quiet t.
Proof.
  destruct r as [c|e]; cbn; [eexists; split; [reflexivity|quiet_cons quiet_nil]|].
  destruct (is_Exception e); eexists; (split; [reflexivity|quiet_cons quiet_nil]).
Qed.

(** A turn of the dial thread, case by case: it leaves the object as it
    is and sets no volume; or it has read an accepted report and stored
    its voice level; or it stores the pending system level and runs the
    pass. *)
Lemma core_usb_turn_cases w w' t :
  CoreMix.usb_reader_turn audio usb w = (w', t) ->
  CoreMix.monitor_thread w' = CoreMix.monitor_thread w /\
  ((CoreMix.self w' = CoreMix.self w /\ Table.quiet t /\
    storing (CoreMix.usb_thread w) = false /\
    storing (CoreMix.usb_thread w') = false) \/
   (CoreMix.usb_thread w = InLoop /\
    exists data v s,
      usb (CoreMix.usb_calls w) = Ok (Some data) /\
      data !! 2%nat = Some v /\ data !! 1%nat = Some s /\
      (v = 100 \/ s = 100) /\
      CoreMix.self w' = CoreMix.set_voice_level v (CoreMix.self w) /\
      CoreMix.usb_thread w' = Storing s /\ Table.quiet t) \/
   (exists s t2,
      CoreMix.usb_thread w = Storing s /\
      CoreMix.self w' = CoreMix.set_system_level s (CoreMix.self w) /\
      storing (CoreMix.usb_thread w') = false /\
      Table.quiet t2 /\
      t = (CoreMix.set_volume_levels audio
             (CoreMix.voice_level (CoreMix.self w)) s
             (CoreMix.with_self (CoreMix.set_system_level s) w)).2 ++ t2)).
Proof.
  unfold CoreMix.usb_reader_turn.
  destruct (CoreMix.usb_thread w) as [| | |s|] eqn:Hth.
  - intros [= <- <-]. split; [reflexivity|left].
    rewrite Hth. split_and!; [reflexivity|constructor|reflexivity..].
  - intros [= <- <-]. split; [reflexivity|left].
    split_and!; [reflexivity|quiet_cons quiet_nil|reflexivity..].
  - destruct (CoreMix.exit_event (CoreMix.self w)).
    + destruct (core_usb_leave_run (Ok Break) w) as (tl & Hl & Hq). rewrite Hl.
      intros [= <- <-]. split; [reflexivity|left].
      split_and!; [reflexivity|exact Hq|reflexivity..].
    + destruct (core_usb_first_run w) as (r & t1 & Hq & [[Hrun Hr]|Hacc]).
      * rewrite Hrun. destruct r as [[[]|s]|e].
        -- intros [= <- <-]. split; [reflexivity|left]. cbn. rewrite Hth.
           split_and!; [reflexivity|exact Hq|reflexivity..].
        -- destruct (core_usb_leave_run (Ok Break) (CoreMix.count_usb_call w))
             as (tl & Hl & Hql). rewrite Hl. intros [= <- <-].
           split; [reflexivity|left].
           split_and!; [reflexivity|apply quiet_app; assumption|reflexivity..].
        -- exfalso. apply (Hr s). reflexivity.
        -- destruct (core_usb_leave_run (Raise e) (CoreMix.count_usb_call w))
             as (tl & Hl & Hql). rewrite Hl. intros [= <- <-].
           split; [reflexivity|left].
           split_and!; [reflexivity|apply quiet_app; assumption|reflexivity..].
      * destruct Hacc as (data & v & s & Hu & H2 & H1 & Hvs & Hrun). rewrite Hrun.
        intros [= <- <-]. split; [reflexivity|right; left].
        split; [reflexivity|]. exists data, v, s. repeat split; assumption.
  - destruct (core_usb_second_run s w) as (r & t2 & Hq & Hrun). rewrite Hrun.
    set (wp := CoreMix.count_audio_call _).
    set (tp := (CoreMix.set_volume_levels audio _ s _).2).
    match goal with |- _ -> ?G =>
      assert (Hgen : forall tl w2, Table.quiet tl ->
                CoreMix.monitor_thread w2 = CoreMix.monitor_thread w ->
                CoreMix.self w2 = CoreMix.set_system_level s (CoreMix.self w) ->
                storing (CoreMix.usb_thread w2) = false ->
                (w2, (tp ++ t2) ++ tl) = (w', t) -> G)
    end.
    { intros tl w2 Hql Hm Hs Hst [= <- <-]. split; [exact Hm|right; right].
      exists s, (t2 ++ tl).
      split_and!; [reflexivity|exact Hs|exact Hst|apply quiet_app; assumption|].
      rewrite app_assoc. reflexivity. }
    destruct r as [[]|e].
    + intros H. apply (Hgen [] (CoreMix.with_usb_thread InLoop wp) quiet_nil
                         eq_refl eq_refl eq_refl).
      rewrite app_nil_r. exact H.
    + destruct (core_usb_leave_run (Ok Break) wp) as (tl & Hl & Hql). rewrite Hl.
      intros H. exact (Hgen tl (CoreMix.with_usb_thread Finished wp) Hql
                         eq_refl eq_refl eq_refl H).
    + destruct (core_usb_leave_run (Raise e) wp) as (tl & Hl & Hql). rewrite Hl.
      intros H. exact (Hgen tl (CoreMix.with_usb_thread Finished wp) Hql
                         eq_refl eq_refl eq_refl H).
  - intros [= <- <-]. split; [reflexivity|left].
    rewrite Hth. split_and!; [reflexivity|constructor|reflexivity..].
Qed.

Lemma core_self_eta (c : CoreMix.CoreMix) :
  c = CoreMix.set_known_sessions (CoreMix.known_sessions c)
        (CoreMix.with_ids (CoreMix.voice_ids c) (CoreMix.exclude_ids c) c).
Proof. destruct c. reflexivity. Qed.

Lemma core_monitor_prologue_run w :
  CoreMix.monitor_prologue audio w =
  match CoreMix.snapshot (audio (CoreMix.audio_calls w)) with
  | Ok known =>
      (Ok tt,
       CoreMix.with_self (CoreMix.set_known_sessions known)
         (CoreMix.count_audio_call w),
       [Log INFO])
  | Raise e => (Raise e, CoreMix.count_audio_call w, [Log INFO])
  end.
Proof.
  unfold CoreMix.monitor_prologue, bind, emit, CoreMix.GetAllSessions, lift, modify.
  destruct (CoreMix.snapshot _); reflexivity.
Qed.

(** A turn of the session thread, case by case.  It leaves the levels,
    the configuration and the exit event as they are; [K], [V] and [E]
    are the known sessions and the two identifier sets after it. *)
Lemma core_monitor_turn_cases w w' t :
  CoreMix.monitor_turn audio w = (w', t) ->
  CoreMix.usb_thread w' = CoreMix.usb_thread w /\
  exists K V E,
    CoreMix.self w' =
    CoreMix.set_known_sessions K (CoreMix.with_ids V E (CoreMix.self w)) /\
    (forall i, i ∈ CoreMix.voice_ids (CoreMix.self w) -> i ∈ V) /\
    (forall i, i ∈ CoreMix.exclude_ids (CoreMix.self w) -> i ∈ E) /\
    (forall i, i ∈ V ->
       i ∈ CoreMix.voice_ids (CoreMix.self w) \/
       (CoreMix.monitor_thread w = InLoop /\
        exists current a,
          CoreMix.snapshot (audio (CoreMix.audio_calls w)) = Ok current /\
          (a, i) ∈ current /\ ((a, i) ∉ CoreMix.known_sessions (CoreMix.self w)) /\
          a ∈ CoreMix.voice_apps (CoreMix.self w))) /\
    (forall i, i ∈ E ->
       i ∈ CoreMix.exclude_ids (CoreMix.self w) \/
       (CoreMix.monitor_thread w = InLoop /\
        exists current a,
          CoreMix.snapshot (audio (CoreMix.audio_calls w)) = Ok current /\
          (a, i) ∈ current /\ ((a, i) ∉ CoreMix.known_sessions (CoreMix.self w)) /\
          (a ∉ CoreMix.voice_apps (CoreMix.self w)) /\
          a ∈ CoreMix.exclude_apps (CoreMix.self w))) /\
    (K = CoreMix.known_sessions (CoreMix.self w) \/
     CoreMix.snapshot (audio (CoreMix.audio_calls w)) = Ok K) /\
    (CoreMix.monitor_thread w' = InLoop ->
     CoreMix.monitor_thread w = InLoop \/
     CoreMix.snapshot (audio (CoreMix.audio_calls w)) = Ok K) /\
    (forall session q,
       (session, q) ∈ volume_calls t ->
       Process session <> None /\
       Table.level_for (CoreMix.voice_level (CoreMix.self w))
         (CoreMix.system_level (CoreMix.self w))
         (Table.class_of (CoreMix.with_ids V E (CoreMix.self w))
            (ProcessId session)) = Some q).
Proof.
  match goal with |- _ -> ?G =>
    assert (Hsame : forall w0 t0,
              CoreMix.self w0 = CoreMix.self w ->
              CoreMix.usb_thread w0 = CoreMix.usb_thread w ->
              (CoreMix.monitor_thread w0 = InLoop -> CoreMix.monitor_thread w = InLoop) ->
              Table.quiet t0 ->
              (w0, t0) = (w', t) -> G)
  end.
  { intros w0 t0 Hs Hu Hm Hq [= <- <-]. split; [exact Hu|].
    exists (CoreMix.known_sessions (CoreMix.self w)),
      (CoreMix.voice_ids (CoreMix.self w)), (CoreMix.exclude_ids (CoreMix.self w)).
    rewrite Hs. split; [apply core_self_eta|].
    repeat split; auto.
    all: rewrite (quiet_no_calls _ Hq) in *; try (exfalso; eapply not_elem_of_nil; eassumption). }
  unfold CoreMix.monitor_turn.
  destruct (CoreMix.monitor_thread w) eqn:Hth.
  - apply Hsame; auto using quiet_nil; intros; congruence.
  - rewrite core_monitor_prologue_run.
    destruct (CoreMix.snapshot _) as [known|e] eqn:Hsnap.
    + intros [= <- <-]. split; [reflexivity|].
      exists known, (CoreMix.voice_ids (CoreMix.self w)),
        (CoreMix.exclude_ids (CoreMix.self w)).
      split; [cbn; rewrite (core_self_eta (CoreMix.self w)) at 1; reflexivity|].
      repeat split; auto.
      all: match goal with H : _ ∈ volume_calls _ |- _ => cbn in H; inversion H end.
    + apply Hsame; auto; try discriminate; quiet_cons quiet_nil.
  - destruct (CoreMix.exit_event (CoreMix.self w)).
    { apply Hsame; auto using quiet_nil; discriminate. }
    pose proof (core_monitor_body_run audio w) as Hrun.
    destruct (CoreMix.snapshot _) as [current|e] eqn:Hsnap.
    + cbn zeta in Hrun. case_decide as Hnew.
      * rewrite Hrun. intros [= <- <-]. split; [reflexivity|].
        exists current, (CoreMix.voice_ids (CoreMix.self w)),
          (CoreMix.exclude_ids (CoreMix.self w)).
        split; [cbn; rewrite (core_self_eta (CoreMix.self w)) at 1; reflexivity|].
        repeat split; auto.
      all: match goal with H : _ ∈ volume_calls _ |- _ => cbn in H; inversion H end.
      * destruct Hrun as (V & E & tc & Hq & HV & HE & Hrun). rewrite Hrun.
        clear Hrun.
        set (w2 := CoreMix.with_self (CoreMix.with_ids V E) (CoreMix.count_audio_call w)).
        pose proof (core_pass_world audio (CoreMix.voice_level (CoreMix.self w))
                      (CoreMix.system_level (CoreMix.self w)) w2) as Hw3.
        pose proof (core_pass_calls_any (CoreMix.voice_level (CoreMix.self w))
                      (CoreMix.system_level (CoreMix.self w)) w2) as Hcalls.
        destruct (CoreMix.set_volume_levels _ _ _ _) as [[r w3] t3].
        cbn in Hw3, Hcalls. subst w3.
        match goal with |- _ -> ?G =>
          assert (Hfacts : forall K t0 w0,
                    CoreMix.self w0 =
                    CoreMix.set_known_sessions K (CoreMix.with_ids V E (CoreMix.self w)) ->
                    CoreMix.usb_thread w0 = CoreMix.usb_thread w ->
                    (K = CoreMix.known_sessions (CoreMix.self w) \/ K = current) ->
                    volume_calls t0 = volume_calls t3 ->
                    (w0, t0) = (w', t) -> G)
        end.
        { intros K t0 w0 Hs Hu HK Ht0 [= <- <-]. split; [exact Hu|].
          exists K, V, E. split; [exact Hs|].
          split; [intros i Hi; apply HV; left; exact Hi|].
          split; [intros i Hi; apply HE; left; exact Hi|].
          split.
          { intros i Hi. apply HV in Hi as [Hi|(a & Ha & Hva)]; [left; exact Hi|].
            right. split; [reflexivity|]. exists current, a.
            apply elem_of_difference in Ha as [Ha1 Ha2]. repeat split; assumption. }
          split.
          { intros i Hi. apply HE in Hi as [Hi|(a & Ha & Hva & Hea)]; [left; exact Hi|].
            right. split; [reflexivity|]. exists current, a.
            apply elem_of_difference in Ha as [Ha1 Ha2]. repeat split; assumption. }
          split; [destruct HK as [->| ->]; [left|right]; reflexivity|].
          split; [left; reflexivity|].
          intros session q Hin. rewrite Ht0 in Hin.
          destruct (Hcalls session q Hin) as (_ & Hp & Hl). split; [exact Hp|exact Hl]. }
        assert (Hc1 : forall tl, Table.quiet tl ->
                  volume_calls (Print :: tc ++ t3 ++ tl) = volume_calls t3).
        { intros tl Hql. cbn. rewrite !volume_calls_app, (quiet_no_calls _ Hq),
            (quiet_no_calls _ Hql), app_nil_r. reflexivity. }
        assert (Hc2 : volume_calls (Print :: tc ++ t3) = volume_calls t3).
        { cbn. rewrite volume_calls_app, (quiet_no_calls _ Hq). reflexivity. }
        destruct r as [[]|e].
        -- apply (Hfacts current); auto.
           cbn. rewrite !volume_calls_app, (quiet_no_calls _ Hq), app_nil_r. reflexivity.
        -- destruct e; apply (Hfacts (CoreMix.known_sessions (CoreMix.self w))); auto;
             cbn; rewrite (core_self_eta (CoreMix.self w)) at 1; reflexivity.
    + rewrite Hrun. destruct e; apply Hsame; auto using quiet_nil; discriminate.
  - apply Hsame; auto using quiet_nil; intros; congruence.
  - apply Hsame; auto using quiet_nil; intros; congruence.
Qed.

End Turns.

(** ** Runs of the class-based variant *)

Section Runs.
Variable audio : nat -> list Session.
Variable usb : nat -> Res (option (list Z)).

Lemma core_class_of_ids c c' i :
  CoreMix.voice_ids c' = CoreMix.voice_ids c ->
  CoreMix.exclude_ids c' = CoreMix.exclude_ids c ->
  Table.class_of c' i = Table.class_of c i.
Proof. unfold Table.class_of. intros -> ->. reflexivity. Qed.

(** A turn of either thread or of the main thread: what it may change in
    the object, and which levels its volume calls carry. *)
Lemma core_turn_cases who w w' t :
  CoreMix.turn audio usb who w = (w', t) ->
  CoreMix.voice_apps (CoreMix.self w') = CoreMix.voice_apps (CoreMix.self w) /\
  CoreMix.exclude_apps (CoreMix.self w') = CoreMix.exclude_apps (CoreMix.self w) /\
  (forall i, i ∈ CoreMix.voice_ids (CoreMix.self w) ->
             i ∈ CoreMix.voice_ids (CoreMix.self w')) /\
  (forall i, i ∈ CoreMix.exclude_ids (CoreMix.self w) ->
             i ∈ CoreMix.exclude_ids (CoreMix.self w')) /\
  (forall i, i ∈ CoreMix.voice_ids (CoreMix.self w') ->
     i ∈ CoreMix.voice_ids (CoreMix.self w) \/
     (CoreMix.monitor_thread w = InLoop /\
      exists current a,
        CoreMix.snapshot (audio (CoreMix.audio_calls w)) = Ok current /\
        (a, i) ∈ current /\ ((a, i) ∉ CoreMix.known_sessions (CoreMix.self w)) /\
        a ∈ CoreMix.voice_apps (CoreMix.self w))) /\
  (forall i, i ∈ CoreMix.exclude_ids (CoreMix.self w') ->
     i ∈ CoreMix.exclude_ids (CoreMix.self w) \/
     (CoreMix.monitor_thread w = InLoop /\
      exists current a,
        CoreMix.snapshot (audio (CoreMix.audio_calls w)) = Ok current /\
        (a, i) ∈ current /\ ((a, i) ∉ CoreMix.known_sessions (CoreMix.self w)) /\
        (a ∉ CoreMix.voice_apps (CoreMix.self w)) /\
        a ∈ CoreMix.exclude_apps (CoreMix.self w))) /\
  (CoreMix.known_sessions (CoreMix.self w') = CoreMix.known_sessions (CoreMix.self w) \/
   CoreMix.snapshot (audio (CoreMix.audio_calls w))
   = Ok (CoreMix.known_sessions (CoreMix.self w'))) /\
  (CoreMix.monitor_thread w' = InLoop ->
   CoreMix.monitor_thread w = InLoop \/
   CoreMix.snapshot (audio (CoreMix.audio_calls w))
   = Ok (CoreMix.known_sessions (CoreMix.self w'))) /\
  (forall session q,
     (session, q) ∈ volume_calls t ->
     Process session <> None /\
     Table.level_for (CoreMix.voice_level (CoreMix.self w'))
       (CoreMix.system_level (CoreMix.self w'))
       (Table.class_of (CoreMix.self w') (ProcessId session)) = Some q).
Proof.
  destruct who; cbn [CoreMix.turn].
  - intros H. destruct (core_usb_turn_cases audio usb _ _ _ H)
      as [Hm [(Hs & Hq & _)|[(Hth & data & v & s & _ & _ & _ & _ & Hs & _ & Hq)
                            |(s & t2 & Hth & Hs & _ & Hq & Ht)]]];
      rewrite Hs, ?Hm; cbn; split_and!; auto.
    1,2: intros session q Hin;
         rewrite (quiet_no_calls _ Hq) in Hin; inversion Hin.
    subst t. intros session q Hin.
    rewrite volume_calls_app, (quiet_no_calls _ Hq), app_nil_r in Hin.
    apply core_pass_calls_any in Hin as (_ & Hp & Hl). split; [exact Hp|exact Hl].
  - intros H. destruct (core_monitor_turn_cases audio _ _ _ H)
      as (Hu & K & V & E & Hs & HV1 & HE1 & HV2 & HE2 & HK & Hm & Hcalls).
    rewrite Hs. cbn. split_and!; auto.
  - intros [= <- <-]. cbn. split_and!; auto. intros session q Hin. inversion Hin.
Qed.

Lemma core_interleave_invariant (P : CoreMix.World -> Prop) :
  (forall who w w' t, P w -> CoreMix.turn audio usb who w = (w', t) -> P w') ->
  forall sched w w' t, P w -> CoreMix.interleave audio usb sched w = (w', t) -> P w'.
Proof.
  intros Hstep sched. induction sched as [|who sched IH]; intros w w' t Hw; cbn.
  - intros [= <- <-]. exact Hw.
  - destruct (CoreMix.turn audio usb who w) as [w1 t1] eqn:Hturn.
    destruct (CoreMix.interleave audio usb sched w1) as [w2 t2] eqn:Hrun.
    intros [= <- <-]. apply (IH w1 w2 t2); [|exact Hrun].
    apply (Hstep who w w1 t1 Hw Hturn).
Qed.

Section InitialSession.

Variables (voice_apps exclude_apps : gset string) (n : string) (p : Z).
Hypothesis present : forall k, Table.has_instance n p (audio k).
Hypothesis owned : forall k, Table.owned_by n p (audio k).

Lemma never_classified_step who w w' t :
  Table.never_classified n p w -> CoreMix.turn audio usb who w = (w', t) ->
  Table.never_classified n p w'.
Proof.
  intros (Hv & He & Hk) Hturn.
  destruct (core_turn_cases who w w' t Hturn)
    as (_ & _ & _ & _ & HV & HE & HK & Hm & _).
  assert (Hnew : forall current a,
            CoreMix.monitor_thread w = InLoop ->
            CoreMix.snapshot (audio (CoreMix.audio_calls w)) = Ok current ->
            (a, p) ∈ current ->
            (a, p) ∉ CoreMix.known_sessions (CoreMix.self w) -> False).
  { intros current a Hth Hsnap Hin Hout. apply Hout.
    rewrite (core_snapshot_elem _ _ _ _ Hsnap) in Hin.
    rewrite (owned _ _ Hin). exact (Hk Hth). }
  split_and!.
  - intros Hin. apply HV in Hin as [Hin|(Hth & current & a & Hsnap & Hin & Hout & _)];
      [exact (Hv Hin)|exact (Hnew current a Hth Hsnap Hin Hout)].
  - intros Hin. apply HE in Hin as [Hin|(Hth & current & a & Hsnap & Hin & Hout & _)];
      [exact (He Hin)|exact (Hnew current a Hth Hsnap Hin Hout)].
  - intros Hth'.
    assert (Hsn : CoreMix.snapshot (audio (CoreMix.audio_calls w))
                  = Ok (CoreMix.known_sessions (CoreMix.self w')) ->
                  (n, p) ∈ CoreMix.known_sessions (CoreMix.self w')).
    { intros Hsnap. rewrite (core_snapshot_elem _ _ _ _ Hsnap). apply present. }
    destruct (Hm Hth') as [Hth|Hsnap]; [|exact (Hsn Hsnap)].
    destruct HK as [-> |Hsnap]; [exact (Hk Hth)|exact (Hsn Hsnap)].
Qed.

(** C10.  A session of the process [p], named [n], that every snapshot
    of the operating system holds, [p] belonging to [n] alone: along any
    schedule from the start of the two threads, [p] never enters
    [voice_ids] or [exclude_ids]; every [SetMasterVolume] call a turn
    makes on a session of [p] carries the system level over 100; and a
    pass started in a world so reached, if it returns, makes that call on
    every session of [p] that has a process.  Whether [n] is a voice name
    or an excluded name plays no part. *)
Theorem initial_session_stays_system sched w t who w' t' :
  CoreMix.interleave audio usb sched
    (CoreMix.started (CoreMix.init voice_apps exclude_apps)) = (w, t) ->
  CoreMix.turn audio usb who w = (w', t') ->
  (p ∉ CoreMix.voice_ids (CoreMix.self w')) /\
  (p ∉ CoreMix.exclude_ids (CoreMix.self w')) /\
  (forall session q,
     (session, q) ∈ volume_calls t' -> ProcessId session = p ->
     q = div100 (CoreMix.system_level (CoreMix.self w'))) /\
  (forall v s w2 t2 session,
     CoreMix.set_volume_levels audio v s w' = (Ok tt, w2, t2) ->
     session ∈ audio (CoreMix.audio_calls w') ->
     Process session <> None -> ProcessId session = p ->
     (session, div100 s) ∈ volume_calls t2).
Proof.
  intros Hrun Hturn.
  assert (Hw : Table.never_classified n p w).
  { apply (core_interleave_invariant (Table.never_classified n p) never_classified_step _ _ _ _)
      with (2 := Hrun).
    split_and!; [set_solver|set_solver|discriminate]. }
  destruct (never_classified_step who w w' t' Hw Hturn) as (Hv & He & _).
  assert (Hsys : forall session, ProcessId session = p ->
            Table.class_of (CoreMix.self w') (ProcessId session) = System).
  { intros session ->. unfold Table.class_of. rewrite !decide_False by assumption.
    reflexivity. }
  split_and!; [exact Hv|exact He| |].
  - intros session q Hin Hp.
    destruct (core_turn_cases who w w' t' Hturn) as (_&_&_&_&_&_&_&_&Hcalls).
    destruct (Hcalls session q Hin) as [_ Hl].
    rewrite (Hsys session Hp) in Hl. cbn in Hl. congruence.
  - intros v s w2 t2 session Hpass Hin Hproc Hp.
    destruct (core_pass_ok_calls audio v s w' _ _ _ Hpass) as [_ Hcalls].
    rewrite (Hcalls eq_refl). apply list_elem_of_In, in_flat_map.
    exists session. split; [apply list_elem_of_In; exact Hin|].
    destruct (Process session); [|contradiction].
    rewrite (Hsys session Hp). left. reflexivity.
Qed.

End InitialSession.


(** The turn of the session thread that sees [(a, i)] as new puts [i]
    in the set its name calls for. *)
Lemma core_monitor_turn_observes w current a i :
  CoreMix.monitor_thread w = InLoop ->
  CoreMix.exit_event (CoreMix.self w) = false ->
  CoreMix.snapshot (audio (CoreMix.audio_calls w)) = Ok current ->
  (a, i) ∈ current ->
  ((a, i) ∉ CoreMix.known_sessions (CoreMix.self w)) ->
  (a ∈ CoreMix.voice_apps (CoreMix.self w) ->
   i ∈ CoreMix.voice_ids (CoreMix.self (CoreMix.monitor_turn audio w).1)) /\
  ((a ∉ CoreMix.voice_apps (CoreMix.self w)) ->
   a ∈ CoreMix.exclude_apps (CoreMix.self w) ->
   i ∈ CoreMix.exclude_ids (CoreMix.self (CoreMix.monitor_turn audio w).1)).
Proof.
  intros Hth Hex Hsnap Hin Hout. unfold CoreMix.monitor_turn. rewrite Hth, Hex.
  pose proof (core_monitor_body_run audio w) as Hrun. rewrite Hsnap in Hrun.
  cbn zeta in Hrun. case_decide as Hnew; [set_solver|].
  destruct Hrun as (V & E & tc & Hq & HV & HE & Hrun). rewrite Hrun. clear Hrun.
  set (w2 := CoreMix.with_self (CoreMix.with_ids V E) (CoreMix.count_audio_call w)).
  pose proof (core_pass_world audio (CoreMix.voice_level (CoreMix.self w))
                (CoreMix.system_level (CoreMix.self w)) w2) as Hw3.
  destruct (CoreMix.set_volume_levels _ _ _ _) as [[r w3] t3].
  cbn in Hw3. subst w3.
  assert (HiV : a ∈ CoreMix.voice_apps (CoreMix.self w) -> i ∈ V).
  { intros Ha. apply HV. right. exists a. split; [set_solver|exact Ha]. }
  assert (HiE : a ∉ CoreMix.voice_apps (CoreMix.self w) ->
                a ∈ CoreMix.exclude_apps (CoreMix.self w) -> i ∈ E).
  { intros Ha1 Ha2. apply HE. right. exists a. split; [set_solver|split; assumption]. }
  destruct r as [[]|[]]; cbn; split; assumption.
Qed.

Section FirstSeen.

Variables (voice_apps exclude_apps : gset string) (n : string) (p : Z).
Hypothesis owned : forall k, Table.owned_by n p (audio k).





End FirstSeen.

End Runs.

(** ** The stored levels *)

Section Levels.
Variable audio : nat -> list Session.
Variable usb : nat -> Res (option (list Z)).
Variables voice_apps exclude_apps : gset string.

Lemma core_turn_levels who w w' t :
  CoreMix.turn audio usb who w = (w', t) -> who <> UsbTurn ->
  CoreMix.usb_thread w' = CoreMix.usb_thread w /\
  CoreMix.voice_level (CoreMix.self w') = CoreMix.voice_level (CoreMix.self w) /\
  CoreMix.system_level (CoreMix.self w') = CoreMix.system_level (CoreMix.self w).
Proof.
  destruct who; cbn [CoreMix.turn]; intros H Hwho; [contradiction| |].
  - destruct (core_monitor_turn_cases audio _ _ _ H) as (Hu & K & V & E & Hs & _).
    rewrite Hs. split; [exact Hu|]. split; reflexivity.
  - injection H as <- <-. repeat split.
Qed.

Lemma levels_by_readings_step who w w' t :
  Table.levels_by_readings usb w -> CoreMix.turn audio usb who w = (w', t) ->
  Table.levels_by_readings usb w'.
Proof.
  intros Hw Hturn.
  assert (Hdec : who = UsbTurn \/ who <> UsbTurn)
    by (destruct who; [left; reflexivity|right; discriminate..]).
  destruct Hdec as [->|Hwho].
  - cbn [CoreMix.turn] in Hturn.
    destruct (core_usb_turn_cases audio usb _ _ _ Hturn)
      as [_ [(Hs & _ & Hst & Hst')
            |[(Hth & data & v & s & Hu & H2 & H1 & Hvs & Hs & Hth' & _)
             |(s & t2 & Hth & Hs & Hst' & _)]]];
      unfold Table.levels_by_readings in *.
    + rewrite Hs. destruct (CoreMix.usb_thread w); try discriminate;
        destruct (CoreMix.usb_thread w'); try discriminate; exact Hw.
    + rewrite Hth in Hw. rewrite Hth', Hs. cbn. split.
      * exists (CoreMix.usb_calls w), data. repeat split; assumption.
      * eexists. exact Hw.
    + rewrite Hth in Hw. destruct Hw as [Hacc _]. rewrite Hs. cbn.
      destruct (CoreMix.usb_thread w'); try discriminate; right; exact Hacc.
  - destruct (core_turn_levels who w w' t Hturn Hwho) as (Hu & Hv & Hs).
    unfold Table.levels_by_readings in *. rewrite Hu, Hv, Hs. exact Hw.
Qed.

(** The stored levels of the class-based variant along a run. *)
Lemma core_levels_follow_readings sched w t :
  CoreMix.interleave audio usb sched
    (CoreMix.started (CoreMix.init voice_apps exclude_apps)) = (w, t) ->
  Table.levels_by_readings usb w /\
  (forall who w' t',
     CoreMix.turn audio usb who w = (w', t') -> who <> UsbTurn ->
     CoreMix.voice_level (CoreMix.self w') = CoreMix.voice_level (CoreMix.self w) /\
     CoreMix.system_level (CoreMix.self w') = CoreMix.system_level (CoreMix.self w)).
Proof.
  intros Hrun. split.
  - apply (core_interleave_invariant audio usb (Table.levels_by_readings usb)
             levels_by_readings_step _ _ _ _) with (2 := Hrun).
    left. split; reflexivity.
  - intros who w' t' Hturn Hwho.
    exact (proj2 (core_turn_levels who w w' t' Hturn Hwho)).
Qed.

End Levels.

(** C9 as the specification states it fails.  The dial sends voice 100
    with system 40, then voice 30 with system 100.  When the session
    thread runs between the two assignments for the second report, the
    stored levels are 30 and 40, the pair of no report, and its pass sets
    the voice session to 0.30 and the system session to 0.40. *)
Lemma torn_pair_observed :
  let w := (CoreMix.interleave Examples.audio_late Examples.usb_two
              Examples.torn_schedule
              (CoreMix.started
                 (CoreMix.init Examples.voice_names Examples.excluded_names))).1 in
  CoreMix.voice_level (CoreMix.self w) = 30 /\
  CoreMix.system_level (CoreMix.self w) = 40 /\
  ~ Table.whole_pair Examples.usb_two 30 40 /\
  volume_calls (CoreMix.turn Examples.audio_late Examples.usb_two MonitorTurn w).2
  = [(Examples.session_A, div100 30); (Examples.session_C, div100 40)].
Proof.
  cbn zeta. split_and!.
  - vm_compute. reflexivity.
  - vm_compute. reflexivity.
  - intros [[H _]|(k & data & Hk & H2 & H1 & _)]; [discriminate|].
    destruct k as [|[|k]]; cbn in Hk; inversion Hk; subst data;
      cbn in H2, H1; discriminate.
  - vm_compute. reflexivity.
Qed.



(** ** The stored levels of the functional variant *)

(** A loop whose body keeps a relation to the world it starts in keeps
    it. *)
Lemma for_each_preserves {W A : Type} (R : W -> W -> Prop) (body : A -> M W unit) :
  (forall w, R w w) ->
  (forall w1 w2 w3, R w1 w2 -> R w2 w3 -> R w1 w3) ->
  (forall x w, R w (body x w).1.2) ->
  forall l w, R w (for_each l body w).1.2.
Proof.
  intros Hrefl Htrans Hbody l. induction l as [|x l IH]; intros w; [apply Hrefl|].
  rewrite for_each_cons. pose proof (Hbody x w) as Hx.
  destruct (body x w) as [[[[]|e] w1] t1]; cbn in Hx; [|exact Hx].
  pose proof (IH w1) as Hl. destruct (for_each l body w1) as [[r w2] t2].
  cbn in *. exact (Htrans _ _ _ Hx Hl).
Qed.

Section ChatTurns.
Variables voice_apps exclude_apps : gset string.
Variable audio : nat -> list Session.
Variable usb : nat -> Res (option (list Z)).

Lemma chat_usb_handler_run e w :
  exists r t, ChatMix.usb_handler e w = (r, w, t) /\ Table.quiet t.
Proof.
  destruct e; cbn; try (eexists _, []; split; [reflexivity|constructor]).
  destruct (errno =? 110); [eexists _, []; split; [reflexivity|constructor]|].
  destruct (errno =? 19); cbn.
  - eexists _, [Log INFO]. split; [reflexivity|quiet_cons quiet_nil].
  - eexists _, [Log ERROR]. split; [reflexivity|quiet_cons quiet_nil].
Qed.

Lemma chat_usb_first_run w :
  exists r t,
    (ChatMix.usb_reader_first usb w = (r, ChatMix.count_usb_call w, t) /\
     forall s, r <> Ok (inr s)) \/
    (exists data v s,
       usb (ChatMix.usb_calls w) = Ok (Some data) /\
       data !! 2%nat = Some v /\ data !! 1%nat = Some s /\
       (v = 100 \/ s = 100) /\
       ChatMix.usb_reader_first usb w =
       (Ok (inr s),
        ChatMix.set_volume_cache
          (<[ "voice_level"%string := v ]> (ChatMix.volume_cache w))
          (ChatMix.count_usb_call w),
        t)).
Proof.
  unfold ChatMix.usb_reader_first, try_except, bind, ChatMix.dev_read, lift, index.
  destruct (usb (ChatMix.usb_calls w)) as [[data|]|e] eqn:Hu.
  - destruct (data !! 2%nat) as [v|] eqn:H2;
      [|eexists _, []; left; split; [reflexivity|discriminate]].
    destruct (data !! 1%nat) as [s|] eqn:H1;
      [|eexists _, []; left; split; [reflexivity|discriminate]].
    destruct ((v =? 100) || (s =? 100)) eqn:Hacc.
    + exists (Ok (inr s)), [Log INFO]. right.
      apply orb_true_iff in Hacc. rewrite !Z.eqb_eq in Hacc.
      exists data, v, s. repeat split; first [reflexivity | assumption].
    + eexists _, [Log DEBUG]. left. split; [reflexivity|discriminate].
  - eexists _, []. left; split; [reflexivity|discriminate].
  - destruct (chat_usb_handler_run e (ChatMix.count_usb_call w)) as (r & t & Hh & Hq).
    rewrite Hh. destruct r as [c|e'].
    + exists (Ok (inl c)), (t ++ []). left; split; [reflexivity|discriminate].
    + exists (Raise e'), t. left; split; [reflexivity|discriminate].
Qed.

Lemma chat_usb_second_cache s w :
  ChatMix.volume_cache
    (ChatMix.usb_reader_second voice_apps exclude_apps audio s w).1.2
  = <[ "system_level"%string := s ]> (ChatMix.volume_cache w) /\
  ChatMix.monitor_thread
    (ChatMix.usb_reader_second voice_apps exclude_apps audio s w).1.2
  = ChatMix.monitor_thread w.
Proof.
  unfold ChatMix.usb_reader_second, try_except, bind, ChatMix.cache_set,
    ChatMix.cache_get, modify.
  cbn [ChatMix.volume_cache ChatMix.set_volume_cache].
  set (w1 := ChatMix.set_volume_cache _ w).
  assert (Hh : forall e t0,
            ChatMix.volume_cache (let '(r, w2, t2) := ChatMix.usb_handler e w1 in
                                  (r, w2, t0 ++ t2)).1.2
            = ChatMix.volume_cache w1 /\
            ChatMix.monitor_thread (let '(r, w2, t2) := ChatMix.usb_handler e w1 in
                                    (r, w2, t0 ++ t2)).1.2
            = ChatMix.monitor_thread w1).
  { intros e t0. destruct (chat_usb_handler_run e w1) as (r & t & Hh & _).
    rewrite Hh. split; reflexivity. }
  destruct (<[ "system_level"%string := s ]> (ChatMix.volume_cache w)
              !! "voice_level"%string) as [v|]; [|apply Hh].
  assert (Hs : ChatMix.volume_cache w1 !! "system_level"%string = Some s)
    by apply lookup_insert_eq.
  rewrite Hs.
  pose proof (chat_pass_world voice_apps exclude_apps audio v s w1) as Hw.
  destruct (ChatMix.set_volume_levels _ _ _ _ _ _) as [[[[]|e] w2] t2];
    cbn in Hw; subst w2; cbn.
  - split; reflexivity.
  - destruct (chat_usb_handler_run e (ChatMix.count_audio_call w1)) as (r & t & Hh' & _).
    cbn in Hh' |- *. rewrite Hh'. split; reflexivity.
Qed.

Lemma chat_usb_leave_run r w :
  exists t, ChatMix.usb_reader_leave r w = (ChatMix.with_usb_thread Finished w, t).
Proof.
  destruct r as [c|e]; cbn; [eexists; reflexivity|].
  destruct (is_Exception e); eexists; reflexivity.
Qed.

(** A turn of the dial thread of the functional variant, as far as the
    stored levels go. *)
Lemma chat_usb_turn_cases w w' t :
  ChatMix.usb_reader_turn voice_apps exclude_apps audio usb w = (w', t) ->
  (ChatMix.volume_cache w' = ChatMix.volume_cache w /\
   storing (ChatMix.usb_thread w) = false /\
   storing (ChatMix.usb_thread w') = false) \/
  (ChatMix.usb_thread w = InLoop /\
   exists data v s,
     usb (ChatMix.usb_calls w) = Ok (Some data) /\
     data !! 2%nat = Some v /\ data !! 1%nat = Some s /\
     (v = 100 \/ s = 100) /\
     ChatMix.volume_cache w'
     = <[ "voice_level"%string := v ]> (ChatMix.volume_cache w) /\
     ChatMix.usb_thread w' = Storing s) \/
  (exists s,
     ChatMix.usb_thread w = Storing s /\
     ChatMix.volume_cache w'
     = <[ "system_level"%string := s ]> (ChatMix.volume_cache w) /\
     storing (ChatMix.usb_thread w') = false).
Proof.
  unfold ChatMix.usb_reader_turn.
  destruct (ChatMix.usb_thread w) as [| | |s|] eqn:Hth.
  - intros [= <- <-]. left. rewrite Hth. split_and!; reflexivity.
  - intros [= <- <-]. left. split_and!; reflexivity.
  - destruct (ChatMix.exit_event w).
    + destruct (chat_usb_leave_run (Ok Break) w) as (tl & Hl). rewrite Hl.
      intros [= <- <-]. left. split_and!; reflexivity.
    + destruct (chat_usb_first_run w) as (r & t1 & [[Hrun Hr]|Hacc]).
      * rewrite Hrun. destruct r as [[[]|s]|e].
        -- intros [= <- <-]. left. cbn. rewrite Hth. split_and!; reflexivity.
        -- destruct (chat_usb_leave_run (Ok Break) (ChatMix.count_usb_call w))
             as (tl & Hl). rewrite Hl. intros [= <- <-].
           left. split_and!; reflexivity.
        -- exfalso. apply (Hr s). reflexivity.
        -- destruct (chat_usb_leave_run (Raise e) (ChatMix.count_usb_call w))
             as (tl & Hl). rewrite Hl. intros [= <- <-].
           left. split_and!; reflexivity.
      * destruct Hacc as (data & v & s & Hu & H2 & H1 & Hvs & Hrun). rewrite Hrun.
        intros [= <- <-]. right; left.
        split; [reflexivity|]. exists data, v, s. repeat split; assumption.
  - destruct (chat_usb_second_cache s w) as [Hc _].
    destruct (ChatMix.usb_reader_second _ _ _ _ _) as [[r w2] t2]. cbn in Hc.
    destruct r as [[]|e].
    + intros [= <- <-]. right; right. exists s. split_and!; [reflexivity|exact Hc|reflexivity].
    + destruct (chat_usb_leave_run (Ok Break) w2) as (tl & Hl). rewrite Hl.
      intros [= <- <-]. right; right. exists s.
      split_and!; [reflexivity|exact Hc|reflexivity].
    + destruct (chat_usb_leave_run (Raise e) w2) as (tl & Hl). rewrite Hl.
      intros [= <- <-]. right; right. exists s.
      split_and!; [reflexivity|exact Hc|reflexivity].
  - intros [= <- <-]. left. rewrite Hth. split_and!; reflexivity.
Qed.

Lemma same_levels_refl w : Table.same_levels w w.
Proof. split; reflexivity. Qed.

Lemma same_levels_trans w1 w2 w3 :
  Table.same_levels w1 w2 -> Table.same_levels w2 w3 -> Table.same_levels w1 w3.
Proof. intros [H1 H2] [H3 H4]. split; congruence. Qed.

Lemma chat_greet_same_levels app_name w :
  Table.same_levels w (ChatMix.greet_session voice_apps exclude_apps audio app_name w).1.2.
Proof.
  unfold ChatMix.greet_session, bind, emit, ChatMix.cache_get.
  destruct (ChatMix.volume_cache w !! "voice_level"%string) as [v|];
    [|apply same_levels_refl].
  destruct (ChatMix.volume_cache w !! "system_level"%string) as [s|];
    [|apply same_levels_refl].
  pose proof (chat_pass_world voice_apps exclude_apps audio v s w) as Hw.
  destruct (ChatMix.set_volume_levels _ _ _ _ _ _) as [[r w2] t2].
  cbn in Hw |- *. subst w2. split; reflexivity.
Qed.

(** A turn of the session thread of the functional variant leaves the
    stored levels and the dial thread as they are. *)
Lemma chat_monitor_turn_same_levels w :
  Table.same_levels w (ChatMix.monitor_turn voice_apps exclude_apps audio w).1.
Proof.
  unfold ChatMix.monitor_turn.
  destruct (ChatMix.monitor_thread w); try apply same_levels_refl.
  - unfold ChatMix.monitor_prologue, bind, emit, ChatMix.GetAllSessions, lift, modify.
    destruct (ChatMix.snapshot _); split; reflexivity.
  - destruct (ChatMix.exit_event w); [split; reflexivity|].
    unfold ChatMix.monitor_body, try_except, bind, ChatMix.GetAllSessions, lift, get.
    destruct (ChatMix.snapshot _) as [current|e]; [|destruct e; split; reflexivity].
    cbn [ChatMix.known_sessions ChatMix.count_audio_call].
    pose proof (for_each_preserves Table.same_levels
                  (ChatMix.greet_session voice_apps exclude_apps audio)
                  same_levels_refl same_levels_trans chat_greet_same_levels
                  (elements (current ∖ ChatMix.known_sessions w))
                  (ChatMix.count_audio_call w)) as Hl.
    destruct (for_each _ _ _) as [[[[]|e] w2] t2]; cbn in Hl |- *.
    + destruct Hl as [H1 H2]. split; assumption.
    + destruct Hl as [H1 H2]. destruct e; cbn; split; assumption.
Qed.

Lemma chat_turn_levels who w w' t :
  ChatMix.turn voice_apps exclude_apps audio usb who w = (w', t) ->
  who <> UsbTurn -> Table.same_levels w w'.
Proof.
  destruct who; cbn [ChatMix.turn]; intros H Hwho; [contradiction| |].
  - pose proof (chat_monitor_turn_same_levels w) as Hs. rewrite H in Hs. exact Hs.
  - injection H as <- <-. split; reflexivity.
Qed.

Lemma chat_levels_by_readings_step who w w' t :
  Table.chat_levels_by_readings usb w ->
  ChatMix.turn voice_apps exclude_apps audio usb who w = (w', t) ->
  Table.chat_levels_by_readings usb w'.
Proof.
  intros Hw Hturn.
  assert (Hdec : who = UsbTurn \/ who <> UsbTurn)
    by (destruct who; [left; reflexivity|right; discriminate..]).
  destruct Hdec as [->|Hwho].
  - cbn [ChatMix.turn] in Hturn.
    destruct (chat_usb_turn_cases _ _ _ Hturn)
      as [(Hs & Hst & Hst')
         |[(Hth & data & v & s & Hu & H2 & H1 & Hvs & Hs & Hth')
          |(s & Hth & Hs & Hst')]];
      unfold Table.chat_levels_by_readings in *.
    + rewrite Hs. destruct (ChatMix.usb_thread w); try discriminate;
        destruct (ChatMix.usb_thread w'); try discriminate; exact Hw.
    + rewrite Hth in Hw. rewrite Hth', Hs. destruct Hw as (v0 & s0 & _ & Hs0 & Hp).
      exists v, v0, s0. split_and!.
      * apply lookup_insert_eq.
      * rewrite lookup_insert_ne by discriminate. exact Hs0.
      * exists (ChatMix.usb_calls w), data. repeat split; assumption.
      * exact Hp.
    + rewrite Hth in Hw. destruct Hw as (v & v0 & s0 & Hv & _ & Hacc & _).
      rewrite Hs.
      assert (Hgoal : exists v1 s1,
                <[ "system_level"%string := s ]> (ChatMix.volume_cache w)
                  !! "voice_level"%string = Some v1 /\
                <[ "system_level"%string := s ]> (ChatMix.volume_cache w)
                  !! "system_level"%string = Some s1 /\
                Table.whole_pair usb v1 s1).
      { exists v, s. split_and!.
        - rewrite lookup_insert_ne by discriminate. exact Hv.
        - apply lookup_insert_eq.
        - right. exact Hacc. }
      destruct (ChatMix.usb_thread w'); try discriminate; exact Hgoal.
  - destruct (chat_turn_levels who w w' t Hturn Hwho) as [Hc Hu].
    unfold Table.chat_levels_by_readings in *. rewrite Hc, Hu. exact Hw.
Qed.

Lemma chat_interleave_invariant (P : ChatMix.World -> Prop) :
  (forall who w w' t,
     P w -> ChatMix.turn voice_apps exclude_apps audio usb who w = (w', t) -> P w') ->
  forall sched w w' t,
    P w -> ChatMix.interleave voice_apps exclude_apps audio usb sched w = (w', t) ->
    P w'.
Proof.
  intros Hstep sched. induction sched as [|who sched IH]; intros w w' t Hw; cbn.
  - intros [= <- <-]. exact Hw.
  - destruct (ChatMix.turn voice_apps exclude_apps audio usb who w) as [w1 t1] eqn:Hturn.
    destruct (ChatMix.interleave voice_apps exclude_apps audio usb sched w1)
      as [w2 t2] eqn:Hrun.
    intros [= <- <-]. apply (IH w1 w2 t2); [|exact Hrun].
    apply (Hstep who w w1 t1 Hw Hturn).
Qed.

Lemma chat_levels_follow_readings sched w t :
  ChatMix.interleave voice_apps exclude_apps audio usb sched ChatMix.started = (w, t) ->
  Table.chat_levels_by_readings usb w.
Proof.
  apply (chat_interleave_invariant (Table.chat_levels_by_readings usb)
           chat_levels_by_readings_step).
  exists 100, 100. split_and!; [reflexivity|reflexivity|left; split; reflexivity].
Qed.

End ChatTurns.

(** C9, as the code has it.  In both variants the levels start at 100
    and 100.  Only a turn of the dial thread changes them, and only for a
    report that passes the filter.  The two fields are assigned one after
    the other: outside that window they hold the initial pair or the pair
    of one accepted report; inside it the voice level is the new one
    while the system level is still the old one. *)
Theorem levels_follow_readings
    (voice_apps exclude_apps : gset string)
    (audio : nat -> list Session) (usb : nat -> Res (option (list Z)))
    (sched_c sched_m : list Turn)
    (wc : CoreMix.World) (tc : list Event)
    (wm : ChatMix.World) (tm : list Event) :
  CoreMix.interleave audio usb sched_c
    (CoreMix.started (CoreMix.init voice_apps exclude_apps)) = (wc, tc) ->
  ChatMix.interleave voice_apps exclude_apps audio usb sched_m ChatMix.started
  = (wm, tm) ->
  (Table.levels_by_readings usb wc /\
   forall who w' t',
     CoreMix.turn audio usb who wc = (w', t') -> who <> UsbTurn ->
     CoreMix.voice_level (CoreMix.self w') = CoreMix.voice_level (CoreMix.self wc) /\
     CoreMix.system_level (CoreMix.self w') = CoreMix.system_level (CoreMix.self wc)) /\
  (Table.chat_levels_by_readings usb wm /\
   forall who w' t',
     ChatMix.turn voice_apps exclude_apps audio usb who wm = (w', t') ->
     who <> UsbTurn ->
     ChatMix.volume_cache w' = ChatMix.volume_cache wm).
Proof.
  intros Hc Hm. split.
  - exact (core_levels_follow_readings audio usb voice_apps exclude_apps
             sched_c wc tc Hc).
  - split.
    + exact (chat_levels_follow_readings voice_apps exclude_apps audio usb
               sched_m wm tm Hm).
    + intros who w' t' Hturn Hwho.
      exact (proj1 (chat_turn_levels voice_apps exclude_apps audio usb
                      who wm w' t' Hturn Hwho)).
Qed.

Lemma levels_follow_readings_witness :
  Table.levels_by_readings Examples.usb_two
    (CoreMix.interleave Examples.audio_late Examples.usb_two Examples.torn_schedule
       (CoreMix.started
          (CoreMix.init Examples.voice_names Examples.excluded_names))).1 /\
  Table.chat_levels_by_readings Examples.usb_two
    (ChatMix.interleave Examples.voice_names Examples.excluded_names
       Examples.audio_late Examples.usb_two Examples.torn_schedule
       ChatMix.started).1.
Proof.
  destruct (levels_follow_readings
              Examples.voice_names Examples.excluded_names
              Examples.audio_late Examples.usb_two
              Examples.torn_schedule Examples.torn_schedule _ _ _ _
              (surjective_pairing _) (surjective_pairing _))
    as [[Hc _] [Hm _]].
  exact (conj Hc Hm).
Defined.

(** ** The theorems on runs, on concrete runs *)

Lemma example_A_present k :
  Table.has_instance "discord.exe" 1 (Examples.audio_ABC k).
Proof.
  exists Examples.session_A, {| name := Ok "discord.exe"%string |}.
  split_and!; [left|reflexivity..].
Qed.

Lemma example_A_owned_ABC k :
  Table.owned_by "discord.exe" 1 (Examples.audio_ABC k).
Proof.
  intros other (session & process & Hin & Hp & Hn & Hid).
  unfold Examples.audio_ABC in Hin.
  repeat (apply elem_of_cons in Hin as [->|Hin]); try discriminate Hid.
  - injection Hp as <-. cbn in Hn. congruence.
  - inversion Hin.
Qed.


Lemma initial_session_stays_system_witness :
  1 ∉ CoreMix.voice_ids
        (CoreMix.self
           (CoreMix.turn Examples.audio_ABC Examples.usb_dial MonitorTurn
              (CoreMix.interleave Examples.audio_ABC Examples.usb_dial
                 Examples.one_report_schedule
                 (CoreMix.started
                    (CoreMix.init Examples.voice_names Examples.excluded_names))).1).1).
Proof.
  exact (proj1 (initial_session_stays_system
                  Examples.audio_ABC Examples.usb_dial
                  Examples.voice_names Examples.excluded_names
                  "discord.exe"%string 1
                  example_A_present example_A_owned_ABC
                  Examples.one_report_schedule _ _ MonitorTurn _ _
                  (surjective_pairing _) (surjective_pairing _))).
Defined.





(** ** The two variants side by side *)

(** Two loops over the same list whose bodies leave their worlds as they
    are and agree, element by element, on the outcome and on the volume
    calls: the loops agree on both. *)
Lemma for_each_fixed_agree {W1 W2 A : Type}
    (b1 : A -> M W1 unit) (b2 : A -> M W2 unit) (w1 : W1) (w2 : W2) :
  (forall x, (b1 x w1).1.2 = w1) ->
  (forall x, (b2 x w2).1.2 = w2) ->
  forall l,
    (forall x, x ∈ l ->
       (b1 x w1).1.1 = (b2 x w2).1.1 /\
       volume_calls (b1 x w1).2 = volume_calls (b2 x w2).2) ->
    (for_each l b1 w1).1.1 = (for_each l b2 w2).1.1 /\
    volume_calls (for_each l b1 w1).2 = volume_calls (for_each l b2 w2).2.
Proof.
  intros Hw1 Hw2 l. induction l as [|x l IH]; intros Hl; [split; reflexivity|].
  rewrite !for_each_cons.
  destruct (Hl x) as [Hr Ht]; [left|].
  specialize (Hw1 x). specialize (Hw2 x).
  destruct (b1 x w1) as [[r1 w1'] t1], (b2 x w2) as [[r2 w2'] t2].
  cbn in Hr, Ht, Hw1, Hw2. subst r2 w1' w2'.
  destruct r1 as [[]|e]; [|split; [reflexivity|exact Ht]].
  destruct IH as [IHr IHt]; [intros y Hy; apply Hl; right; exact Hy|].
  destruct (for_each l b1 w1) as [[r1 w1'] t1'], (for_each l b2 w2) as [[r2 w2'] t2'].
  cbn in *. split; [exact IHr|]. rewrite !volume_calls_app, Ht, IHt. reflexivity.
Qed.

Section Variants.
Variable audio : nat -> list Session.
Variable usb : nat -> Res (option (list Z)).
Variables voice_apps exclude_apps : gset string.

Lemma passes_agree v s (wc : CoreMix.World) (wm : ChatMix.World) :
  CoreMix.audio_calls wc = ChatMix.audio_calls wm ->
  Table.agrees voice_apps exclude_apps (CoreMix.self wc)
    (audio (CoreMix.audio_calls wc)) ->
  (CoreMix.set_volume_levels audio v s wc).1.1
  = (ChatMix.set_volume_levels voice_apps exclude_apps audio v s wm).1.1 /\
  volume_calls (CoreMix.set_volume_levels audio v s wc).2
  = volume_calls (ChatMix.set_volume_levels voice_apps exclude_apps audio v s wm).2.
Proof.
  intros Ha Hagree. rewrite core_pass_run, chat_pass_run, <- Ha.
  apply for_each_fixed_agree.
  - intros x. apply core_session_world.
  - intros x. apply chat_session_world.
  - intros x Hx. rewrite core_session_run, chat_session_run.
    destruct (Process x) as [[[a|e]]|] eqn:Hp; [|split; reflexivity..].
    cbn [name CoreMix.self CoreMix.count_audio_call].
    rewrite (Hagree x _ a Hx Hp eq_refl).
    destruct (Table.class_of_name voice_apps exclude_apps a); split; reflexivity.
Qed.

Lemma handlers_agree e (wc : CoreMix.World) (wm : ChatMix.World) :
  (CoreMix.usb_handler e wc).1.1 = (ChatMix.usb_handler e wm).1.1 /\
  (CoreMix.usb_handler e wc).1.2 = wc /\
  (ChatMix.usb_handler e wm).1.2 = wm /\
  (CoreMix.usb_handler e wc).2 = (ChatMix.usb_handler e wm).2 /\
  Table.quiet (CoreMix.usb_handler e wc).2.
Proof.
  destruct e; cbn; try (split_and!; (reflexivity || constructor)).
  destruct (errno =? 110); [split_and!; (reflexivity || constructor)|].
  destruct (errno =? 19); cbn; split_and!; try reflexivity; quiet_cons quiet_nil.
Qed.

(** C4, as the code has it.  The two variants handle a dial report alike
    where the identifier sets of the class-based variant give every live
    named session the class of its name: started with the same levels
    and the same oracle positions, the two turns end alike, make the same
    [SetMasterVolume] calls in the same order and store the same
    levels. *)
Theorem variants_agree_on_dial_report (wc : CoreMix.World) (wm : ChatMix.World) :
  CoreMix.usb_calls wc = ChatMix.usb_calls wm ->
  CoreMix.audio_calls wc = ChatMix.audio_calls wm ->
  ChatMix.volume_cache wm !! "voice_level"%string
  = Some (CoreMix.voice_level (CoreMix.self wc)) ->
  ChatMix.volume_cache wm !! "system_level"%string
  = Some (CoreMix.system_level (CoreMix.self wc)) ->
  Table.agrees voice_apps exclude_apps (CoreMix.self wc)
    (audio (CoreMix.audio_calls wc)) ->
  (CoreMix.usb_reader_body audio usb wc).1.1
  = (ChatMix.usb_reader_body voice_apps exclude_apps audio usb wm).1.1 /\
  volume_calls (CoreMix.usb_reader_body audio usb wc).2
  = volume_calls (ChatMix.usb_reader_body voice_apps exclude_apps audio usb wm).2 /\
  ChatMix.volume_cache
    (ChatMix.usb_reader_body voice_apps exclude_apps audio usb wm).1.2
    !! "voice_level"%string
  = Some (CoreMix.voice_level
            (CoreMix.self (CoreMix.usb_reader_body audio usb wc).1.2)) /\
  ChatMix.volume_cache
    (ChatMix.usb_reader_body voice_apps exclude_apps audio usb wm).1.2
    !! "system_level"%string
  = Some (CoreMix.system_level
            (CoreMix.self (CoreMix.usb_reader_body audio usb wc).1.2)).
Proof.
  intros Hu Ha Hv Hs Hagree.
  destruct (usb (CoreMix.usb_calls wc)) as [[data|]|e] eqn:Hc.
  - assert (Hm : usb (ChatMix.usb_calls wm) = Ok (Some data)) by (rewrite <- Hu; exact Hc).
    destruct (data !! 2%nat) as [v|] eqn:H2; [destruct (data !! 1%nat) as [s|] eqn:H1|].
    + destruct ((v =? 100) || (s =? 100)) eqn:Hacc.
      * rewrite (core_dial_accepted audio usb data v s wc H2 H1 Hc Hacc).
        rewrite (chat_dial_accepted voice_apps exclude_apps audio usb data v s wm H2 H1 Hm Hacc).
        set (wc1 := CoreMix.with_self _ _). set (wm1 := ChatMix.set_volume_cache _ _).
        destruct (passes_agree v s wc1 wm1) as [Hr Ht]; [exact Ha|exact Hagree|].
        pose proof (core_pass_world audio v s wc1) as Hwc.
        pose proof (chat_pass_world voice_apps exclude_apps audio v s wm1) as Hwm.
        unfold try_except, bind, emit, ret.
        destruct (CoreMix.set_volume_levels audio v s wc1) as [[rc wc2] tc].
        destruct (ChatMix.set_volume_levels voice_apps exclude_apps audio v s wm1)
          as [[rm wm2] tm].
        cbn in Hr, Ht, Hwc, Hwm. subst rm wc2 wm2.
        destruct rc as [[]|e]; cbn.
        -- rewrite !volume_calls_app, Ht. split_and!; try reflexivity.
           ++ rewrite lookup_insert_ne by discriminate. apply lookup_insert_eq.
           ++ apply lookup_insert_eq.
        -- destruct (handlers_agree e (CoreMix.count_audio_call wc1)
                       (ChatMix.count_audio_call wm1)) as (Hhr & Hhc & Hhm & Hht & Hq).
           destruct (CoreMix.usb_handler e _) as [[rc' wc'] tc'],
                    (ChatMix.usb_handler e _) as [[rm' wm'] tm'].
           cbn in Hhr, Hhc, Hhm, Hht, Hq |- *. subst rm' wc' wm' tm'.
           rewrite !volume_calls_app, Ht. split_and!; try reflexivity.
           ++ cbn. rewrite lookup_insert_ne by discriminate. apply lookup_insert_eq.
           ++ cbn. apply lookup_insert_eq.
      * rewrite (core_dial_rejected audio usb data v s wc H2 H1 Hc Hacc).
        rewrite (chat_dial_rejected voice_apps exclude_apps audio usb data v s wm H2 H1 Hm Hacc).
        cbn. split_and!; auto.
    + unfold CoreMix.usb_reader_body, ChatMix.usb_reader_body, try_except, bind,
        CoreMix.dev_read, ChatMix.dev_read, lift, index.
      rewrite Hc, Hm, H2, H1. cbn. split_and!; auto.
    + unfold CoreMix.usb_reader_body, ChatMix.usb_reader_body, try_except, bind,
        CoreMix.dev_read, ChatMix.dev_read, lift, index.
      rewrite Hc, Hm, H2. cbn. split_and!; auto.
  - assert (Hm : usb (ChatMix.usb_calls wm) = Ok None) by (rewrite <- Hu; exact Hc).
    unfold CoreMix.usb_reader_body, ChatMix.usb_reader_body, try_except, bind,
      CoreMix.dev_read, ChatMix.dev_read.
    rewrite Hc, Hm. cbn. split_and!; auto.
  - assert (Hm : usb (ChatMix.usb_calls wm) = Raise e) by (rewrite <- Hu; exact Hc).
    unfold CoreMix.usb_reader_body, ChatMix.usb_reader_body, try_except, bind,
      CoreMix.dev_read, ChatMix.dev_read.
    rewrite Hc, Hm.
    destruct (handlers_agree e (CoreMix.count_usb_call wc)
                (ChatMix.count_usb_call wm)) as (Hhr & Hhc & Hhm & Hht & Hq).
    destruct (CoreMix.usb_handler e _) as [[rc' wc'] tc'],
             (ChatMix.usb_handler e _) as [[rm' wm'] tm'].
    cbn in Hhr, Hhc, Hhm, Hht, Hq |- *. subst rm' wc' wm' tm'. split_and!; auto.
Qed.

End Variants.

Lemma example_ABC_agrees :
  Table.agrees Examples.voice_names Examples.excluded_names Examples.table_ABC
    (Examples.audio_ABC 0).
Proof.
  intros session process app_name Hin Hp Hn. unfold Examples.audio_ABC in Hin.
  repeat (apply elem_of_cons in Hin as [->|Hin]); [..|inversion Hin];
    injection Hp as <-; injection Hn as <-; vm_compute; reflexivity.
Qed.

Lemma variants_agree_on_dial_report_witness :
  volume_calls
    (CoreMix.usb_reader_body Examples.audio_ABC Examples.usb_dial
       (Examples.in_loops Examples.table_ABC)).2
  = volume_calls
      (ChatMix.usb_reader_body Examples.voice_names Examples.excluded_names
         Examples.audio_ABC Examples.usb_dial Examples.chat_in_loops).2.
Proof.
  exact (proj1 (proj2 (variants_agree_on_dial_report
                         Examples.audio_ABC Examples.usb_dial
                         Examples.voice_names Examples.excluded_names
                         (Examples.in_loops Examples.table_ABC)
                         Examples.chat_in_loops
                         eq_refl eq_refl eq_refl eq_refl example_ABC_agrees))).
Defined.

(** C4 as the specification states it fails.  Sessions A (a voice name),
    B (an excluded name) and C run before the program starts, and the
    dial reports voice 30 and system 100.  The class-based variant has
    classified none of them and sets all three to 1.00; the functional
    variant goes by the names, sets A to 0.30, leaves B alone and sets C
    to 1.00. *)
Lemma variants_differ :
  volume_calls
    (CoreMix.interleave Examples.audio_ABC Examples.usb_dial Examples.one_report_schedule
       (CoreMix.started
          (CoreMix.init Examples.voice_names Examples.excluded_names))).2
  = [(Examples.session_A, div100 100); (Examples.session_B, div100 100);
     (Examples.session_C, div100 100)] /\
  volume_calls
    (ChatMix.interleave Examples.voice_names Examples.excluded_names
       Examples.audio_ABC Examples.usb_dial Examples.one_report_schedule
       ChatMix.started).2
  = [(Examples.session_A, div100 30); (Examples.session_C, div100 100)].
Proof. split; vm_compute; reflexivity. Qed.

(** ** The settling delay *)

Section NoSettling.

Variable audio : nat -> list Session.

Lemma quiet_no_sleep t : Table.quiet t -> Table.no_sleep t.
Proof.
  intros Hq. apply (Forall_impl _ _ _ Hq).
  intros ev Hev. destruct ev; solve [exact I | contradiction].
Qed.

Lemma core_pass_no_sleep v s w :
  Table.no_sleep (CoreMix.set_volume_levels audio v s w).2.
Proof.
  apply Forall_forall. intros ev Hev. rewrite core_pass_run in Hev.
  apply (for_each_fixed_events _ _ (fun x => core_session_world v s _ x)) in Hev.
  destruct Hev as (session & _ & Hev). rewrite core_session_run in Hev.
  destruct (Process session) as [[[n|e]]|]; cbn in Hev; try (inversion Hev; fail).
  destruct (Table.level_for v s _); cbn in Hev;
    repeat (apply elem_of_cons in Hev as [->|Hev]; [exact I|]); inversion Hev.
Qed.

(** In the class-based variant a turn of the session loop sleeps at
    most once, as its last action: whatever volume it sets, it sets
    before. *)
Lemma core_monitor_sleeps_last w :
  exists t0 tl,
    (CoreMix.monitor_body audio w).2 = t0 ++ tl /\
    Table.no_sleep t0 /\ (tl = [] \/ tl = [Sleep 1]).
Proof.
  pose proof (core_monitor_body_run audio w) as Hrun.
  destruct (CoreMix.snapshot _) as [current|e].
  - cbn zeta in Hrun. case_decide as Hnew.
    + rewrite Hrun. exists [], [Sleep 1]. split_and!; [reflexivity|constructor|right; reflexivity].
    + destruct Hrun as (V & E & tc & Hq & _ & _ & Hrun). rewrite Hrun.
      pose proof (core_pass_no_sleep (CoreMix.voice_level (CoreMix.self w))
                    (CoreMix.system_level (CoreMix.self w))
                    (CoreMix.with_self (CoreMix.with_ids V E)
                       (CoreMix.count_audio_call w))) as Hp.
      destruct (CoreMix.set_volume_levels _ _ _ _) as [[r w3] t3]. cbn in Hp.
      assert (H0 : Table.no_sleep (Print :: tc ++ t3)).
      { constructor; [exact I|]. apply Forall_app_2; [apply quiet_no_sleep; exact Hq|exact Hp]. }
      destruct r as [[]|e].
      * exists (Print :: tc ++ t3), [Sleep 1]. cbn.
        split_and!; [rewrite <- app_assoc; reflexivity|exact H0|right; reflexivity].
      * exists (Print :: tc ++ t3), [].
        split_and!; [destruct e; cbn; rewrite app_nil_r; reflexivity|exact H0|left; reflexivity].
  - rewrite Hrun. exists [], []. split_and!; [reflexivity|constructor|left; reflexivity].
Qed.

End NoSettling.

(** C6.  No session at the start, then A (a voice name) and C, at the
    initial levels.  The functional variant, for each of the two new
    names, logs, sleeps one second and runs the pass, and sleeps again at
    the end of the turn.  The class-based variant classifies both and
    runs the pass at once: its only [sleep] is the one at the end of the
    turn, after the volumes have been set. *)
Theorem new_session_settling_delay :
  (ChatMix.interleave Examples.voice_names Examples.excluded_names
     Examples.audio_late Examples.usb_two Examples.new_sessions_schedule
     ChatMix.started).2
  = [Log INFO;
     Log INFO; Sleep 1;
     Log DEBUG; Log DEBUG; SetMasterVolume Examples.session_A (div100 100);
     Log DEBUG; SetMasterVolume Examples.session_C (div100 100);
     Log INFO; Sleep 1;
     Log DEBUG; Log DEBUG; SetMasterVolume Examples.session_A (div100 100);
     Log DEBUG; SetMasterVolume Examples.session_C (div100 100);
     Sleep 1] /\
  (CoreMix.interleave Examples.audio_late Examples.usb_two
     Examples.new_sessions_schedule
     (CoreMix.started
        (CoreMix.init Examples.voice_names Examples.excluded_names))).2
  = [Log INFO;
     Print; Print; Log INFO; Print; Log INFO;
     Log DEBUG; SetMasterVolume Examples.session_A (div100 100);
     Log DEBUG; SetMasterVolume Examples.session_C (div100 100);
     Sleep 1].
Proof. split; vm_compute; reflexivity. Qed.

(** ** Stopping *)

(** C7.  [CoreMix.stop] sets the exit event and then joins two thread
    objects it has just made and never started: the first [join] raises
    [RuntimeError].  The call ends there, whatever the two running
    threads do: they are as they were, alive if they were alive. *)
Theorem stop_does_not_wait (w : CoreMix.World) :
  CoreMix.stop w
  = (CoreMix.Raised RuntimeError, CoreMix.with_self CoreMix.set_exit_event w,
     [Log INFO]) /\
  CoreMix.usb_thread (CoreMix.stop w).1.2 = CoreMix.usb_thread w /\
  CoreMix.monitor_thread (CoreMix.stop w).1.2 = CoreMix.monitor_thread w.
Proof. split_and!; reflexivity. Qed.

(** * Further properties of the code *)

Import Threads.

(** ** The dial thread: what ends it *)

Section DialEnds.
Variables voice_apps exclude_apps : gset string.
Variable audio : nat -> list Session.
Variable usb : nat -> Res (option (list Z)).

Lemma core_short_report data w :
  (length data <= 2)%nat ->
  CoreMix.usb_thread w = InLoop ->
  CoreMix.exit_event (CoreMix.self w) = false ->
  usb (CoreMix.usb_calls w) = Ok (Some data) ->
  CoreMix.usb_reader_turn audio usb w =
  (CoreMix.with_usb_thread Finished (CoreMix.count_usb_call w),
   [Log ERROR; DisposeResources]).
Proof.
  intros Hlen Hth Hex Hu.
  unfold CoreMix.usb_reader_turn. rewrite Hth, Hex.
  unfold CoreMix.usb_reader_first, try_except, bind, CoreMix.dev_read, lift, index.
  rewrite Hu. rewrite (proj2 (lookup_ge_None data 2)) by lia. reflexivity.
Qed.

Lemma chat_short_report data w :
  (length data <= 2)%nat ->
  ChatMix.usb_thread w = InLoop ->
  ChatMix.exit_event w = false ->
  usb (ChatMix.usb_calls w) = Ok (Some data) ->
  ChatMix.usb_reader_turn voice_apps exclude_apps audio usb w =
  (ChatMix.with_usb_thread Finished (ChatMix.count_usb_call w),
   [Log ERROR; DisposeResources]).
Proof.
  intros Hlen Hth Hex Hu.
  unfold ChatMix.usb_reader_turn. rewrite Hth, Hex.
  unfold ChatMix.usb_reader_first, try_except, bind, ChatMix.dev_read, lift, index.
  rewrite Hu. rewrite (proj2 (lookup_ge_None data 2)) by lia. reflexivity.
Qed.

(** X1.  A report of fewer than three bytes ends the dial thread, in
    both variants: [data[2]] raises [IndexError], which the inner [try]
    does not catch; the outer one logs it and the [finally] releases the
    device.  The levels stay as they were, and no volume is set. *)
Theorem short_report_ends_dial_thread data (wc : CoreMix.World) (wm : ChatMix.World) :
  (length data <= 2)%nat ->
  CoreMix.usb_thread wc = InLoop ->
  CoreMix.exit_event (CoreMix.self wc) = false ->
  usb (CoreMix.usb_calls wc) = Ok (Some data) ->
  ChatMix.usb_thread wm = InLoop ->
  ChatMix.exit_event wm = false ->
  usb (ChatMix.usb_calls wm) = Ok (Some data) ->
  CoreMix.usb_reader_turn audio usb wc =
  (CoreMix.with_usb_thread Finished (CoreMix.count_usb_call wc),
   [Log ERROR; DisposeResources]) /\
  ChatMix.usb_reader_turn voice_apps exclude_apps audio usb wm =
  (ChatMix.with_usb_thread Finished (ChatMix.count_usb_call wm),
   [Log ERROR; DisposeResources]).
Proof.
  intros. split; [apply (core_short_report data)|apply (chat_short_report data)];
    assumption.
Qed.

Lemma core_pass_failure_in_dial s e (w : CoreMix.World) :
  CoreMix.usb_thread w = Storing s ->
  (CoreMix.set_volume_levels audio (CoreMix.voice_level (CoreMix.self w)) s
     (CoreMix.with_self (CoreMix.set_system_level s) w)).1.1 = Raise e ->
  (forall errno, e <> USBError errno) ->
  e <> KeyboardInterrupt ->
  CoreMix.usb_reader_turn audio usb w =
  (CoreMix.with_usb_thread Finished
     (CoreMix.count_audio_call (CoreMix.with_self (CoreMix.set_system_level s) w)),
   (CoreMix.set_volume_levels audio (CoreMix.voice_level (CoreMix.self w)) s
      (CoreMix.with_self (CoreMix.set_system_level s) w)).2
   ++ [Log ERROR; DisposeResources]).
Proof.
  intros Hth Hr Hne Hki.
  unfold CoreMix.usb_reader_turn. rewrite Hth.
  unfold CoreMix.usb_reader_second, try_except, bind, modify, get.
  cbn -[CoreMix.set_volume_levels].
  pose proof (core_pass_world audio (CoreMix.voice_level (CoreMix.self w)) s
                (CoreMix.with_self (CoreMix.set_system_level s) w)) as Hw.
  destruct (CoreMix.set_volume_levels _ _ _ _) as [[r w2] t2].
  cbn in Hw, Hr |- *. subst w2 r.
  destruct e; cbn; rewrite ?app_nil_r; try reflexivity.
  - exfalso. exact (Hne errno eq_refl).
  - contradiction.
Qed.

Lemma chat_pass_failure_in_dial s v e (w : ChatMix.World) :
  ChatMix.usb_thread w = Storing s ->
  ChatMix.volume_cache w !! "voice_level"%string = Some v ->
  let w1 := ChatMix.set_volume_cache
              (<[ "system_level"%string := s ]> (ChatMix.volume_cache w)) w in
  (ChatMix.set_volume_levels voice_apps exclude_apps audio v s w1).1.1 = Raise e ->
  (forall errno, e <> USBError errno) ->
  e <> KeyboardInterrupt ->
  ChatMix.usb_reader_turn voice_apps exclude_apps audio usb w =
  (ChatMix.with_usb_thread Finished (ChatMix.count_audio_call w1),
   (ChatMix.set_volume_levels voice_apps exclude_apps audio v s w1).2
   ++ [Log ERROR; DisposeResources]).
Proof.
  intros Hth Hv w1 Hr Hne Hki.
  unfold ChatMix.usb_reader_turn. rewrite Hth.
  unfold ChatMix.usb_reader_second, try_except, bind, ChatMix.cache_set,
    ChatMix.cache_get, modify.
  cbn -[ChatMix.set_volume_levels insert lookup].
  assert (Hv1 : <[ "system_level"%string := s ]> (ChatMix.volume_cache w)
                !! "voice_level"%string = Some v).
  { rewrite lookup_insert_ne by discriminate. exact Hv. }
  rewrite Hv1. cbn -[ChatMix.set_volume_levels insert lookup].
  rewrite lookup_insert_eq. cbn -[ChatMix.set_volume_levels insert lookup].
  fold w1.
  pose proof (chat_pass_world voice_apps exclude_apps audio v s w1) as Hw.
  destruct (ChatMix.set_volume_levels _ _ _ _ _ _) as [[r w2] t2].
  cbn in Hw, Hr |- *. subst w2 r.
  destruct e; cbn; rewrite ?app_nil_r; try reflexivity.
  - exfalso. exact (Hne errno eq_refl).
  - contradiction.
Qed.

(** X2.  An exception of the apply pass that is no [USBError] ends the
    dial thread, in both variants: the pass is called inside the inner
    [try] of the dial loop, which only catches [USBError], so the outer
    [try] logs the exception and the device is released.  Both levels of
    the report have been stored by then, and the calls made before the
    failing one stand. *)
Theorem volume_error_ends_dial_thread s v e (wc : CoreMix.World) (wm : ChatMix.World) :
  (forall errno, e <> USBError errno) ->
  e <> KeyboardInterrupt ->
  CoreMix.usb_thread wc = Storing s ->
  (CoreMix.set_volume_levels audio (CoreMix.voice_level (CoreMix.self wc)) s
     (CoreMix.with_self (CoreMix.set_system_level s) wc)).1.1 = Raise e ->
  ChatMix.usb_thread wm = Storing s ->
  ChatMix.volume_cache wm !! "voice_level"%string = Some v ->
  (ChatMix.set_volume_levels voice_apps exclude_apps audio v s
     (ChatMix.set_volume_cache
        (<[ "system_level"%string := s ]> (ChatMix.volume_cache wm)) wm)).1.1
  = Raise e ->
  CoreMix.usb_reader_turn audio usb wc =
  (CoreMix.with_usb_thread Finished
     (CoreMix.count_audio_call (CoreMix.with_self (CoreMix.set_system_level s) wc)),
   (CoreMix.set_volume_levels audio (CoreMix.voice_level (CoreMix.self wc)) s
      (CoreMix.with_self (CoreMix.set_system_level s) wc)).2
   ++ [Log ERROR; DisposeResources]) /\
  ChatMix.usb_reader_turn voice_apps exclude_apps audio usb wm =
  (ChatMix.with_usb_thread Finished
     (ChatMix.count_audio_call
        (ChatMix.set_volume_cache
           (<[ "system_level"%string := s ]> (ChatMix.volume_cache wm)) wm)),
   (ChatMix.set_volume_levels voice_apps exclude_apps audio v s
      (ChatMix.set_volume_cache
         (<[ "system_level"%string := s ]> (ChatMix.volume_cache wm)) wm)).2
   ++ [Log ERROR; DisposeResources]).
Proof.
  intros Hne Hki Hcth Hcr Hmth Hmv Hmr. split.
  - apply (core_pass_failure_in_dial s e wc); assumption.
  - apply (chat_pass_failure_in_dial s v e wm); assumption.
Qed.

End DialEnds.

Lemma short_report_ends_dial_thread_witness :
  CoreMix.usb_reader_turn Examples.audio_ABC Cases.usb_short
    (Examples.in_loops Examples.table_ABC)
  = (CoreMix.with_usb_thread Finished
       (CoreMix.count_usb_call (Examples.in_loops Examples.table_ABC)),
     [Log ERROR; DisposeResources]).
Proof.
  exact (proj1 (short_report_ends_dial_thread
                  Examples.voice_names Examples.excluded_names
                  Examples.audio_ABC Cases.usb_short [0; 100]
                  (Examples.in_loops Examples.table_ABC) Examples.chat_in_loops
                  (le_n 2) eq_refl eq_refl eq_refl eq_refl eq_refl eq_refl)).
Defined.

Lemma volume_error_ends_dial_thread_witness :
  CoreMix.usb_thread
    (CoreMix.usb_reader_turn Examples.audio_gone_C Examples.usb_dial
       Cases.core_storing).1
  = Finished.
Proof.
  rewrite (proj1 (volume_error_ends_dial_thread
                    Examples.voice_names Examples.excluded_names
                    Examples.audio_gone_C Examples.usb_dial 100 30 COMError
                    Cases.core_storing Cases.chat_storing
                    ltac:(discriminate) ltac:(discriminate)
                    eq_refl eq_refl eq_refl eq_refl eq_refl)).
  reflexivity.
Defined.

(** ** The snapshot of the sessions *)

Lemma core_snapshot_raises sessions e :
  CoreMix.snapshot sessions = Raise e ->
  exists session process,
    session ∈ sessions /\ Process session = Some process /\
    name process = Raise e.
Proof.
  induction sessions as [|session rest IH]; cbn; [discriminate|].
  destruct (Process session) as [[[a|e']]|] eqn:Hp; cbn.
  - destruct (CoreMix.snapshot rest) as [cur|e''] eqn:Hs; [discriminate|].
    intros [= ->]. destruct (IH eq_refl) as (s & p & Hin & H1 & H2).
    exists s, p. split_and!; [right|..]; assumption.
  - intros [= ->]. exists session, {| name := Raise e |}.
    split_and!; [left|assumption|reflexivity].
  - intros H. destruct (IH H) as (s & p & Hin & H1 & H2).
    exists s, p. split_and!; [right|..]; assumption.
Qed.

Lemma core_snapshot_ok sessions :
  Sessions.all_named sessions -> exists current, CoreMix.snapshot sessions = Ok current.
Proof.
  intros Hall. destruct (CoreMix.snapshot sessions) as [cur|e] eqn:Hs; [eauto|].
  destruct (core_snapshot_raises _ _ Hs) as (s & p & Hin & H1 & H2).
  destruct (Hall s p Hin H1) as (a & Ha). congruence.
Qed.

(** The snapshot of the functional variant is the set of names of the
    snapshot of the class-based one. *)
Lemma chat_snapshot_names sessions :
  ChatMix.snapshot sessions =
  match CoreMix.snapshot sessions with
  | Ok current => Ok (set_map fst current)
  | Raise e => Raise e
  end.
Proof.
  induction sessions as [|session rest IH]; cbn.
  - reflexivity.
  - destruct (Process session) as [[[a|e']]|]; cbn; [|reflexivity|exact IH].
    rewrite IH. destruct (CoreMix.snapshot rest) as [cur|e]; [|reflexivity].
    f_equal. rewrite set_map_union_L, set_map_singleton_L. reflexivity.
Qed.

(** X3.  The set comprehension over [GetAllSessions()]: it returns
    exactly when every owning process still answers [name()]; it then
    holds the pair (name, id) of every session with a process, and
    nothing else, while the functional variant holds their names; and
    when it raises, it raises what the [name()] of one of the sessions
    raised, in both variants. *)
Theorem snapshot_of_sessions sessions :
  (Sessions.all_named sessions <->
   exists current, CoreMix.snapshot sessions = Ok current) /\
  (forall current, CoreMix.snapshot sessions = Ok current ->
     (forall app_name app_id,
        (app_name, app_id) ∈ current <->
        Table.has_instance app_name app_id sessions) /\
     exists names,
       ChatMix.snapshot sessions = Ok names /\
       forall app_name,
         app_name ∈ names <->
         exists app_id, Table.has_instance app_name app_id sessions) /\
  (forall e, CoreMix.snapshot sessions = Raise e ->
     ChatMix.snapshot sessions = Raise e /\
     exists session process,
       session ∈ sessions /\ Process session = Some process /\
       name process = Raise e).
Proof.
  split_and!.
  - split; [apply core_snapshot_ok|].
    intros (current & Hs) session process Hin Hp.
    destruct (name process) as [a|e] eqn:Hn; [eauto|]. exfalso.
    clear -Hs Hin Hp Hn. revert current Hs.
    induction sessions as [|s0 rest IH]; [inversion Hin|]. intros current. cbn.
    apply elem_of_cons in Hin as [->|Hin].
    + rewrite Hp, Hn. discriminate.
    + destruct (Process s0) as [[[a|e']]|]; cbn; [|discriminate|apply IH; exact Hin].
      destruct (CoreMix.snapshot rest) as [cur|e'']; [|discriminate].
      intros _. exact (IH Hin cur eq_refl).
  - intros current Hs. split.
    + intros a i. apply core_snapshot_elem. exact Hs.
    + exists (set_map fst current). rewrite chat_snapshot_names, Hs.
      split; [reflexivity|]. intros a. rewrite elem_of_map. split.
      * intros ([a' i] & -> & Hin). exists i.
        apply (core_snapshot_elem _ _ _ _ Hs). exact Hin.
      * intros (i & Hi). exists (a, i). split; [reflexivity|].
        apply (core_snapshot_elem _ _ _ _ Hs). exact Hi.
  - intros e Hs. split; [rewrite chat_snapshot_names, Hs; reflexivity|].
    apply core_snapshot_raises. exact Hs.
Qed.

(** ** The session thread: processes that come and go *)

Lemma slept_app t1 t2 :
  Sessions.slept (t1 ++ t2) = Sessions.slept t1 + Sessions.slept t2.
Proof.
  induction t1 as [|ev t1 IH]; [reflexivity|].
  destruct ev; cbn; rewrite ?IH; lia.
Qed.

Lemma no_sleep_slept t : Table.no_sleep t -> Sessions.slept t = 0.
Proof.
  induction 1 as [|ev t Hev _ IH]; [reflexivity|].
  destruct ev; cbn; try exact IH. contradiction.
Qed.

Section SessionsComeAndGo.
Variables voice_apps exclude_apps : gset string.
Variable audio : nat -> list Session.

Lemma chat_monitor_prologue_run w :
  ChatMix.monitor_prologue audio w =
  match ChatMix.snapshot (audio (ChatMix.audio_calls w)) with
  | Ok known =>
      (Ok tt, ChatMix.set_known_sessions known (ChatMix.count_audio_call w),
       [Log INFO])
  | Raise e => (Raise e, ChatMix.count_audio_call w, [Log INFO])
  end.
Proof.
  unfold ChatMix.monitor_prologue, bind, emit, ChatMix.GetAllSessions, lift, modify.
  destruct (ChatMix.snapshot _); reflexivity.
Qed.

(** X4.  A process that goes away while the sessions are enumerated
    makes [name()] raise [NoSuchProcess].  In the loop of
    [monitor_new_sessions] the [except] clause takes it: the turn ends
    at once, without the sleep and with the known sessions unchanged,
    and the loop polls again.  At the first enumeration, before the
    loop, nothing catches it: the session thread ends there, having only
    logged its start, and no new session is ever handled.  Both variants
    do the same. *)
Theorem vanished_process_at_startup (wc : CoreMix.World) (wm : ChatMix.World) :
  CoreMix.snapshot (audio (CoreMix.audio_calls wc)) = Raise NoSuchProcess ->
  ChatMix.snapshot (audio (ChatMix.audio_calls wm)) = Raise NoSuchProcess ->
  (CoreMix.monitor_thread wc = Starting ->
   CoreMix.monitor_turn audio wc =
   (CoreMix.with_monitor_thread Finished (CoreMix.count_audio_call wc), [Log INFO])) /\
  (CoreMix.monitor_thread wc = InLoop ->
   CoreMix.exit_event (CoreMix.self wc) = false ->
   CoreMix.monitor_turn audio wc = (CoreMix.count_audio_call wc, [])) /\
  (ChatMix.monitor_thread wm = Starting ->
   ChatMix.monitor_turn voice_apps exclude_apps audio wm =
   (ChatMix.with_monitor_thread Finished (ChatMix.count_audio_call wm), [Log INFO])) /\
  (ChatMix.monitor_thread wm = InLoop ->
   ChatMix.exit_event wm = false ->
   ChatMix.monitor_turn voice_apps exclude_apps audio wm =
   (ChatMix.count_audio_call wm, [])).
Proof.
  intros Hc Hm. split_and!.
  - intros Hth. unfold CoreMix.monitor_turn.
    rewrite Hth, core_monitor_prologue_run, Hc. reflexivity.
  - intros Hth Hex. unfold CoreMix.monitor_turn. rewrite Hth, Hex.
    pose proof (core_monitor_body_run audio wc) as Hrun. rewrite Hc in Hrun.
    rewrite Hrun. reflexivity.
  - intros Hth. unfold ChatMix.monitor_turn.
    rewrite Hth, chat_monitor_prologue_run, Hm. reflexivity.
  - intros Hth Hex. unfold ChatMix.monitor_turn. rewrite Hth, Hex.
    unfold ChatMix.monitor_body, try_except, bind, ChatMix.GetAllSessions, lift.
    rewrite Hm. reflexivity.
Qed.


(** A pass over sessions of which one has lost its process raises what
    its [name()] raises, whatever the table says, when the sessions
    before it can be handled. *)
Lemma core_pass_name_raises v s w pre session post process e :
  audio (CoreMix.audio_calls w) = pre ++ session :: post ->
  Sessions.all_settable pre ->
  Process session = Some process -> name process = Raise e ->
  (CoreMix.set_volume_levels audio v s w).1.1 = Raise e.
Proof.
  intros Hsessions Hpre Hp Hn. rewrite core_pass_run, Hsessions.
  rewrite (for_each_fixed_abort (CoreMix.set_session_volume v s)
             (CoreMix.count_audio_call w)
             (fun x => core_session_world v s _ x) pre post session e);
    [reflexivity| |].
  - apply Forall_forall. intros x Hx. rewrite core_session_run.
    destruct (Hpre x Hx) as [Hctl Hname].
    destruct (Process x) as [p|]; [|reflexivity].
    destruct (Hname p eq_refl) as (a & ->).
    destruct (Table.level_for _ _ _); [exact Hctl|reflexivity].
  - rewrite core_session_run, Hp, Hn. reflexivity.
Qed.

(** X6.  A process that goes away between the poll that found new
    sessions and the apply pass that follows: the pass raises at the
    [name()] of its session.  The turn of the session loop then ends
    without the assignment of [known_sessions] and without the sleep.
    If the exception is [NoSuchProcess] the loop goes on, and as the
    known sessions are the old ones, the same sessions are new again at
    the next poll; any other exception ends the session thread. *)
Theorem process_lost_during_pass (w : CoreMix.World) current a i
    pre session post process e :
  CoreMix.monitor_thread w = InLoop ->
  CoreMix.exit_event (CoreMix.self w) = false ->
  CoreMix.snapshot (audio (CoreMix.audio_calls w)) = Ok current ->
  (a, i) ∈ current -> (a, i) ∉ CoreMix.known_sessions (CoreMix.self w) ->
  audio (S (CoreMix.audio_calls w)) = pre ++ session :: post ->
  Sessions.all_settable pre ->
  Process session = Some process -> name process = Raise e ->
  let w' := (CoreMix.monitor_turn audio w).1 in
  let t := (CoreMix.monitor_turn audio w).2 in
  CoreMix.known_sessions (CoreMix.self w') = CoreMix.known_sessions (CoreMix.self w) /\
  CoreMix.audio_calls w' = S (S (CoreMix.audio_calls w)) /\
  Sessions.slept t = 0 /\
  CoreMix.monitor_thread w' =
  match e with NoSuchProcess => InLoop | _ => Finished end.
Proof.
  intros Hth Hex Hsnap Hin Hnew Hsessions Hpre Hp Hn. cbn zeta.
  unfold CoreMix.monitor_turn. rewrite Hth, Hex.
  pose proof (core_monitor_body_run audio w) as Hrun. rewrite Hsnap in Hrun.
  cbn zeta in Hrun. rewrite decide_False in Hrun by set_solver.
  destruct Hrun as (V & E & tc & Hq & _ & _ & Hrun). rewrite Hrun. clear Hrun.
  set (w2 := CoreMix.with_self (CoreMix.with_ids V E) (CoreMix.count_audio_call w)).
  pose proof (core_pass_world audio (CoreMix.voice_level (CoreMix.self w))
                (CoreMix.system_level (CoreMix.self w)) w2) as Hw3.
  pose proof (core_pass_no_sleep audio (CoreMix.voice_level (CoreMix.self w))
                (CoreMix.system_level (CoreMix.self w)) w2) as Hns.
  pose proof (core_pass_name_raises (CoreMix.voice_level (CoreMix.self w))
                (CoreMix.system_level (CoreMix.self w)) w2
                pre session post process e Hsessions Hpre Hp Hn) as Hr.
  destruct (CoreMix.set_volume_levels _ _ _ _) as [[r w3] t3].
  cbn in Hw3, Hns, Hr. subst w3 r.
  assert (Hsl : Sessions.slept (Print :: tc ++ t3) = 0).
  { cbn. rewrite slept_app, (no_sleep_slept _ (quiet_no_sleep _ Hq)),
      (no_sleep_slept _ Hns). reflexivity. }
  destruct e; cbn [fst snd];
    (split_and!; [reflexivity|reflexivity|exact Hsl|first [reflexivity|exact Hth]]).
Qed.

End SessionsComeAndGo.

Lemma vanished_process_at_startup_witness :
  CoreMix.monitor_turn Cases.audio_lost
    (CoreMix.started (CoreMix.init Examples.voice_names Examples.excluded_names))
  = (CoreMix.with_monitor_thread Finished
       (CoreMix.count_audio_call
          (CoreMix.started
             (CoreMix.init Examples.voice_names Examples.excluded_names))),
     [Log INFO]).
Proof.
  exact (proj1 (vanished_process_at_startup
                  Examples.voice_names Examples.excluded_names Cases.audio_lost
                  (CoreMix.started
                     (CoreMix.init Examples.voice_names Examples.excluded_names))
                  ChatMix.started eq_refl eq_refl)
               eq_refl).
Defined.


Lemma case_A_absent : ("discord.exe"%string, 1) ∉ (∅ : gset (string * Z)).
Proof. set_solver. Qed.




Lemma case_A_seen :
  ("discord.exe"%string, 1) ∈ ({[ ("discord.exe"%string, 1) ]} ∪ ∅ : gset (string * Z)).
Proof. set_solver. Qed.

Lemma case_C_settable : Sessions.all_settable [Examples.session_C].
Proof.
  intros session Hin. apply list_elem_of_singleton in Hin as ->.
  split; [reflexivity|]. intros process [= <-]. eexists. reflexivity.
Qed.

Lemma process_lost_during_pass_witness :
  CoreMix.known_sessions
    (CoreMix.self
       (CoreMix.monitor_turn Cases.audio_race
          (Examples.in_loops
             (CoreMix.init Examples.voice_names Examples.excluded_names))).1)
  = ∅.
Proof.
  exact (proj1 (process_lost_during_pass
                  Cases.audio_race
                  (Examples.in_loops
                     (CoreMix.init Examples.voice_names Examples.excluded_names))
                  _ "discord.exe"%string 1
                  [Examples.session_C] Cases.session_lost [] _ NoSuchProcess
                  eq_refl eq_refl eq_refl case_A_seen case_A_absent
                  eq_refl case_C_settable eq_refl eq_refl)).
Defined.

(** ** The functional variant: names, not identifiers *)

Section ByName.
Variables voice_apps exclude_apps : gset string.
Variable audio : nat -> list Session.

Lemma chat_session_slept v s w session :
  Sessions.slept (ChatMix.set_session_volume voice_apps exclude_apps v s session w).2 = 0.
Proof.
  rewrite chat_session_run.
  destruct (Process session) as [[[n|e]]|]; cbn; try reflexivity.
  destruct (Table.class_of_name voice_apps exclude_apps n); reflexivity.
Qed.

(** X7.  A pass of chatmix's [set_volume_levels] that returns has made,
    in the order of the sessions, one call for each session with a
    process: with [voice_level / 100] when the name of the process is in
    [voice_apps], none when it is not but is in [exclude_apps], with
    [system_level / 100] otherwise.  The class is read off the name at
    every pass, so two sessions of one application are always set
    alike, and the pass changes nothing but the count of the calls. *)
Theorem chat_pass_by_name v s w r w' t :
  ChatMix.set_volume_levels voice_apps exclude_apps audio v s w = (r, w', t) ->
  r = Ok tt ->
  w' = ChatMix.count_audio_call w /\
  volume_calls t =
  flat_map (Sessions.calls_by_name voice_apps exclude_apps v s)
           (audio (ChatMix.audio_calls w)).
Proof. apply chat_pass_ok_calls. Qed.

(** A pass over sessions that can all be handled returns, and sleeps
    nowhere. *)
Lemma chat_pass_settable v s w :
  Sessions.all_settable (audio (ChatMix.audio_calls w)) ->
  exists t,
    ChatMix.set_volume_levels voice_apps exclude_apps audio v s w =
    (Ok tt, ChatMix.count_audio_call w, t) /\ Sessions.slept t = 0.
Proof.
  intros Hall. rewrite chat_pass_run.
  rewrite (for_each_fixed_all_ok
             (ChatMix.set_session_volume voice_apps exclude_apps v s)
             (ChatMix.count_audio_call w)
             (fun x => chat_session_world voice_apps exclude_apps v s _ x)).
  - eexists. split; [reflexivity|]. clear Hall.
    induction (audio (ChatMix.audio_calls w)) as [|x l IH]; [reflexivity|].
    cbn [flat_map]. rewrite slept_app, chat_session_slept, IH. reflexivity.
  - apply Forall_forall. intros x Hx. rewrite chat_session_run.
    destruct (Hall x Hx) as [Hctl Hname].
    destruct (Process x) as [p|] eqn:Hp; [|reflexivity].
    destruct (Hname p eq_refl) as (a & Ha). rewrite Ha.
    destruct (Table.class_of_name voice_apps exclude_apps a); cbn; congruence.
Qed.

(** The loop over the new names: one second of sleep and one pass for
    each. *)
Lemma chat_greet_loop (l : list string) (w : ChatMix.World) v s :
  (forall k, Sessions.all_settable (audio k)) ->
  ChatMix.volume_cache w !! "voice_level"%string = Some v ->
  ChatMix.volume_cache w !! "system_level"%string = Some s ->
  exists w' t,
    for_each l (ChatMix.greet_session voice_apps exclude_apps audio) w = (Ok tt, w', t) /\
    ChatMix.volume_cache w' = ChatMix.volume_cache w /\
    ChatMix.known_sessions w' = ChatMix.known_sessions w /\
    ChatMix.exit_event w' = ChatMix.exit_event w /\
    ChatMix.usb_calls w' = ChatMix.usb_calls w /\
    ChatMix.usb_thread w' = ChatMix.usb_thread w /\
    ChatMix.monitor_thread w' = ChatMix.monitor_thread w /\
    ChatMix.audio_calls w' = (length l + ChatMix.audio_calls w)%nat /\
    Sessions.slept t = Z.of_nat (length l).
Proof.
  intros Hall. revert w. induction l as [|a l IH]; intros w Hv Hs.
  - exists w, []. split_and!; reflexivity.
  - rewrite for_each_cons.
    unfold ChatMix.greet_session at 1, bind, emit, ChatMix.cache_get.
    rewrite Hv, Hs.
    destruct (chat_pass_settable v s w (Hall _)) as (tp & Hp & Hsl).
    rewrite Hp.
    destruct (IH (ChatMix.count_audio_call w) Hv Hs)
      as (w' & t & Hrun & H1 & H2 & H3 & H4 & H5 & H6 & H7 & H8).
    rewrite Hrun. eexists _, _. split; [reflexivity|].
    split_and!; try assumption.
    + rewrite H7. cbn. lia.
    + cbn -[Z.of_nat]. rewrite !slept_app, Hsl, H8. cbn -[Z.of_nat]. lia.
Qed.

(** A poll of the functional variant that finds new names, when every
    session can be handled. *)
Lemma chat_poll_with_new_names (w : ChatMix.World) current v s :
  ChatMix.monitor_thread w = InLoop ->
  ChatMix.exit_event w = false ->
  (forall k, Sessions.all_settable (audio k)) ->
  ChatMix.volume_cache w !! "voice_level"%string = Some v ->
  ChatMix.volume_cache w !! "system_level"%string = Some s ->
  ChatMix.snapshot (audio (ChatMix.audio_calls w)) = Ok current ->
  let new := current ∖ ChatMix.known_sessions w in
  exists w' t,
    ChatMix.monitor_turn voice_apps exclude_apps audio w = (w', t) /\
    ChatMix.monitor_thread w' = InLoop /\
    ChatMix.known_sessions w' = current /\
    ChatMix.volume_cache w' = ChatMix.volume_cache w /\
    ChatMix.audio_calls w' = S (size new + ChatMix.audio_calls w) /\
    Sessions.slept t = Z.of_nat (size new) + 1.
Proof.
  intros Hth Hex Hall Hv Hs Hsnap new.
  unfold ChatMix.monitor_turn. rewrite Hth, Hex.
  unfold ChatMix.monitor_body, try_except, bind, ChatMix.GetAllSessions, lift, get,
    modify, emit.
  rewrite Hsnap.
  cbn [ChatMix.known_sessions ChatMix.count_audio_call].
  destruct (chat_greet_loop (elements new) (ChatMix.count_audio_call w) v s Hall Hv Hs)
    as (w' & t & Hrun & H1 & H2 & H3 & H4 & H5 & H6 & H7 & H8).
  fold new. rewrite Hrun.
  eexists _, _. split; [reflexivity|]. cbn [ChatMix.monitor_thread
    ChatMix.known_sessions ChatMix.volume_cache ChatMix.audio_calls
    ChatMix.set_known_sessions].
  cbn [ChatMix.count_audio_call ChatMix.volume_cache ChatMix.monitor_thread
         ChatMix.audio_calls] in H1, H6, H7.
  split_and!.
  - rewrite H6. exact Hth.
  - reflexivity.
  - exact H1.
  - rewrite H7. unfold size, set_size. cbn. lia.
  - rewrite !slept_app, H8. unfold size, set_size. cbn -[Z.of_nat]. lia.
Qed.

(** X8.  A poll of chatmix's [monitor_new_sessions] that finds [n] new
    names, when every session can be handled: the turn sleeps one second
    and runs one whole apply pass for each new name, one after the
    other, and sleeps one second more at its end, [n + 1] seconds in
    all with [n + 1] enumerations of the sessions; then the known names
    are those of the poll.  The stored levels are not touched. *)
Theorem chat_new_names_burst (w : ChatMix.World) current v s :
  ChatMix.monitor_thread w = InLoop ->
  ChatMix.exit_event w = false ->
  (forall k, Sessions.all_settable (audio k)) ->
  ChatMix.volume_cache w !! "voice_level"%string = Some v ->
  ChatMix.volume_cache w !! "system_level"%string = Some s ->
  ChatMix.snapshot (audio (ChatMix.audio_calls w)) = Ok current ->
  let new := current ∖ ChatMix.known_sessions w in
  exists w' t,
    ChatMix.monitor_turn voice_apps exclude_apps audio w = (w', t) /\
    ChatMix.monitor_thread w' = InLoop /\
    ChatMix.known_sessions w' = current /\
    ChatMix.volume_cache w' = ChatMix.volume_cache w /\
    ChatMix.audio_calls w' = S (size new + ChatMix.audio_calls w) /\
    Sessions.slept t = Z.of_nat (size new) + 1.
Proof. apply chat_poll_with_new_names. Qed.

(** A pass over sessions that can all be handled returns. *)
Lemma core_pass_settable v s w :
  Sessions.all_settable (audio (CoreMix.audio_calls w)) ->
  (CoreMix.set_volume_levels audio v s w).1.1 = Ok tt.
Proof.
  intros Hall. rewrite core_pass_run.
  rewrite (for_each_fixed_all_ok (CoreMix.set_session_volume v s)
             (CoreMix.count_audio_call w)
             (fun x => core_session_world v s _ x)); [reflexivity|].
  apply Forall_forall. intros x Hx. rewrite core_session_run.
  destruct (Hall x Hx) as [Hctl Hname].
  destruct (Process x) as [p|]; [|reflexivity].
  destruct (Hname p eq_refl) as (a & ->).
  destruct (Table.level_for _ _ _); [exact Hctl|reflexivity].
Qed.

(** A poll of the class-based variant that finds a pair it does not
    know, when the sessions of the pass can all be handled: the calls of
    the turn are those of the pass, made by the identifier sets as the
    classification has left them, and the known sessions are those of
    the poll. *)
Lemma core_poll_with_new_pairs (w : CoreMix.World) current :
  CoreMix.monitor_thread w = InLoop ->
  CoreMix.exit_event (CoreMix.self w) = false ->
  CoreMix.snapshot (audio (CoreMix.audio_calls w)) = Ok current ->
  current ∖ CoreMix.known_sessions (CoreMix.self w) <> ∅ ->
  Sessions.all_settable (audio (S (CoreMix.audio_calls w))) ->
  CoreMix.known_sessions (CoreMix.self (CoreMix.monitor_turn audio w).1) = current /\
  volume_calls (CoreMix.monitor_turn audio w).2 =
  flat_map
    (Sessions.calls_by_class (CoreMix.self (CoreMix.monitor_turn audio w).1)
       (CoreMix.voice_level (CoreMix.self w)) (CoreMix.system_level (CoreMix.self w)))
    (audio (S (CoreMix.audio_calls w))).
Proof.
  intros Hth Hex Hsnap Hnew Hall.
  unfold CoreMix.monitor_turn. rewrite Hth, Hex.
  pose proof (core_monitor_body_run audio w) as Hrun. rewrite Hsnap in Hrun.
  cbn zeta in Hrun. rewrite decide_False in Hrun by exact Hnew.
  destruct Hrun as (V & E & tc & Hq & _ & _ & Hrun). rewrite Hrun. clear Hrun.
  set (w2 := CoreMix.with_self (CoreMix.with_ids V E) (CoreMix.count_audio_call w)).
  pose proof (core_pass_settable (CoreMix.voice_level (CoreMix.self w))
                (CoreMix.system_level (CoreMix.self w)) w2 Hall) as Hok.
  pose proof (core_pass_ok_calls audio (CoreMix.voice_level (CoreMix.self w))
                (CoreMix.system_level (CoreMix.self w)) w2) as Hcalls.
  pose proof (core_pass_world audio (CoreMix.voice_level (CoreMix.self w))
                (CoreMix.system_level (CoreMix.self w)) w2) as Hw3.
  destruct (CoreMix.set_volume_levels _ _ _ _) as [[r w3] t3].
  cbn in Hok, Hw3. subst r w3.
  destruct (Hcalls _ _ _ eq_refl) as [_ Ht3]. specialize (Ht3 eq_refl).
  cbn [fst snd]. split; [reflexivity|].
  cbn [volume_calls]. rewrite !volume_calls_app, (quiet_no_calls _ Hq), Ht3.
  cbn [volume_calls app]. rewrite app_nil_r.
  apply flat_map_ext. intros session. unfold Sessions.calls_by_class.
  destruct (Process session); [|reflexivity].
  cbn [CoreMix.self CoreMix.with_self CoreMix.count_audio_call w2].
  rewrite (core_class_of_ids (CoreMix.with_ids V E (CoreMix.self w))
             (CoreMix.set_known_sessions current
                (CoreMix.with_ids V E (CoreMix.self w)))
             (ProcessId session) eq_refl eq_refl).
  destruct (Table.class_of _ _); reflexivity.
Qed.

(** X9.  What is new.  The functional variant compares names: a further
    process of an application whose name is known is no new session, and
    the poll does nothing but replace the known names and sleep.  The
    class-based variant compares pairs of name and identifier: on the
    same sessions, a pair it does not know makes it classify and run the
    apply pass.  Every pair it did not know has its identifier entered
    by the name: in [voice_ids] for a voice name, in [exclude_ids] for a
    name that is excluded and no voice name.  The sessions are
    enumerated once more, for the pass; and when the sessions of the
    pass can all be handled, the turn makes the volume calls that the
    identifier sets, with the new entries, give, and the known sessions
    are those of the poll. *)
Theorem second_instance_of_known_name (wc : CoreMix.World) (wm : ChatMix.World)
    current :
  CoreMix.monitor_thread wc = InLoop ->
  CoreMix.exit_event (CoreMix.self wc) = false ->
  ChatMix.monitor_thread wm = InLoop ->
  ChatMix.exit_event wm = false ->
  audio (ChatMix.audio_calls wm) = audio (CoreMix.audio_calls wc) ->
  CoreMix.snapshot (audio (CoreMix.audio_calls wc)) = Ok current ->
  (forall app_name app_id,
     (app_name, app_id) ∈ current -> app_name ∈ ChatMix.known_sessions wm) ->
  (exists app_name app_id,
     (app_name, app_id) ∈ current /\
     (app_name, app_id) ∉ CoreMix.known_sessions (CoreMix.self wc)) ->
  ChatMix.monitor_turn voice_apps exclude_apps audio wm =
  (ChatMix.set_known_sessions (set_map fst current) (ChatMix.count_audio_call wm),
   [Sleep 1]) /\
  CoreMix.audio_calls (CoreMix.monitor_turn audio wc).1
  = S (S (CoreMix.audio_calls wc)) /\
  (forall app_name app_id,
     (app_name, app_id) ∈ current ->
     (app_name, app_id) ∉ CoreMix.known_sessions (CoreMix.self wc) ->
     Table.entered (CoreMix.voice_apps (CoreMix.self wc))
       (CoreMix.exclude_apps (CoreMix.self wc)) app_name app_id
       (CoreMix.monitor_turn audio wc).1) /\
  (Sessions.all_settable (audio (S (CoreMix.audio_calls wc))) ->
   CoreMix.known_sessions (CoreMix.self (CoreMix.monitor_turn audio wc).1) = current /\
   volume_calls (CoreMix.monitor_turn audio wc).2 =
   flat_map
     (Sessions.calls_by_class (CoreMix.self (CoreMix.monitor_turn audio wc).1)
        (CoreMix.voice_level (CoreMix.self wc))
        (CoreMix.system_level (CoreMix.self wc)))
     (audio (S (CoreMix.audio_calls wc)))).
Proof.
  intros Hcth Hcex Hmth Hmex Hsame Hsnap Hknown (a & i & Hin & Hnew). split_and!.
  - unfold ChatMix.monitor_turn. rewrite Hmth, Hmex.
    unfold ChatMix.monitor_body, try_except, bind, ChatMix.GetAllSessions, lift, get,
      modify, emit.
    rewrite Hsame, chat_snapshot_names, Hsnap.
    cbn [ChatMix.known_sessions ChatMix.count_audio_call].
    assert (Hempty : elements (set_map (D:=gset string) fst current
                               ∖ ChatMix.known_sessions wm) = []).
    { apply elements_empty_iff, elem_of_equiv_empty. intros x Hx.
      apply elem_of_difference in Hx as [Hx1 Hx2].
      apply elem_of_map in Hx1 as ([a' i'] & -> & Hin').
      exfalso. apply Hx2. exact (Hknown _ _ Hin'). }
    rewrite Hempty. reflexivity.
  - unfold CoreMix.monitor_turn. rewrite Hcth, Hcex.
    pose proof (core_monitor_body_run audio wc) as Hrun. rewrite Hsnap in Hrun.
    cbn zeta in Hrun. rewrite decide_False in Hrun by set_solver.
    destruct Hrun as (V & E & tc & Hq & HV & HE & Hrun). rewrite Hrun. clear Hrun.
    match goal with
    | |- context [CoreMix.set_volume_levels audio ?v ?s ?w0] =>
        pose proof (core_pass_world audio v s w0) as Hw3;
        destruct (CoreMix.set_volume_levels audio v s w0) as [[r w3] t3]
    end. cbn in Hw3. subst w3.
    destruct r as [[]|[]]; reflexivity.
  - intros b j Hb Hbnew.
    exact (core_monitor_turn_observes audio wc current b j Hcth Hcex Hsnap Hb Hbnew).
  - intros Hall. apply core_poll_with_new_pairs; try assumption. set_solver.
Qed.

End ByName.

Lemma chat_pass_by_name_witness :
  volume_calls
    (ChatMix.set_volume_levels Examples.voice_names Examples.excluded_names
       Examples.audio_ABC 30 80 Examples.chat_in_loops).2
  = [(Examples.session_A, div100 30); (Examples.session_C, div100 80)].
Proof.
  destruct (chat_pass_by_name Examples.voice_names Examples.excluded_names
              Examples.audio_ABC 30 80 Examples.chat_in_loops _ _ _ (run_eta _))
    as [_ Hcalls].
  - vm_compute. reflexivity.
  - rewrite Hcalls. vm_compute. reflexivity.
Defined.

Lemma case_ABC_settable k : Sessions.all_settable (Examples.audio_ABC k).
Proof.
  intros session Hin. unfold Examples.audio_ABC in Hin.
  repeat (apply elem_of_cons in Hin as [->|Hin]);
    try (split; [reflexivity|]; intros process [= <-]; eexists; reflexivity).
  inversion Hin.
Qed.

Lemma chat_new_names_burst_witness :
  exists w' t,
    ChatMix.monitor_turn Examples.voice_names Examples.excluded_names
      Examples.audio_ABC Examples.chat_in_loops = (w', t) /\
    ChatMix.monitor_thread w' = InLoop /\
    ChatMix.known_sessions w' =
    {[ "discord.exe"%string ]} ∪ ({[ "obs.exe"%string ]} ∪ ({[ "game.exe"%string ]} ∪ ∅)) /\
    ChatMix.volume_cache w' = ChatMix.volume_cache Examples.chat_in_loops /\
    ChatMix.audio_calls w' =
    S (size (({[ "discord.exe"%string ]}
              ∪ ({[ "obs.exe"%string ]} ∪ ({[ "game.exe"%string ]} ∪ ∅)))
             ∖ ChatMix.known_sessions Examples.chat_in_loops)
       + ChatMix.audio_calls Examples.chat_in_loops) /\
    Sessions.slept t =
    Z.of_nat (size (({[ "discord.exe"%string ]}
                     ∪ ({[ "obs.exe"%string ]} ∪ ({[ "game.exe"%string ]} ∪ ∅)))
                    ∖ ChatMix.known_sessions Examples.chat_in_loops)) + 1.
Proof.
  exact (chat_new_names_burst Examples.voice_names Examples.excluded_names
           Examples.audio_ABC Examples.chat_in_loops _ 30 80
           eq_refl eq_refl case_ABC_settable eq_refl eq_refl eq_refl).
Defined.

Lemma case_names_known (app_name : string) (app_id : Z) :
  (app_name, app_id) ∈
  ({[ ("discord.exe"%string, 1) ]} ∪ ({[ ("discord.exe"%string, 6) ]} ∪ ∅)
   : gset (string * Z)) ->
  app_name ∈ ChatMix.known_sessions Cases.chat_known_A.
Proof. cbn. set_solver. Qed.

Lemma case_second_instance_new :
  exists (app_name : string) (app_id : Z),
    (app_name, app_id) ∈
    ({[ ("discord.exe"%string, 1) ]} ∪ ({[ ("discord.exe"%string, 6) ]} ∪ ∅)
     : gset (string * Z)) /\
    (app_name, app_id) ∉ CoreMix.known_sessions (CoreMix.self Cases.core_known_A).
Proof. exists "discord.exe"%string, 6. cbn. set_solver. Qed.

Lemma case_second_instance_seen :
  ("discord.exe"%string, 6) ∈
  ({[ ("discord.exe"%string, 1) ]} ∪ ({[ ("discord.exe"%string, 6) ]} ∪ ∅)
   : gset (string * Z)).
Proof. set_solver. Qed.

Lemma case_second_instance_unknown :
  ("discord.exe"%string, 6) ∉
  CoreMix.known_sessions (CoreMix.self Cases.core_known_A).
Proof. cbn. set_solver. Qed.

Lemma case_known_A_voice :
  "discord.exe"%string ∈ CoreMix.voice_apps (CoreMix.self Cases.core_known_A).
Proof. cbn. unfold Examples.voice_names. set_solver. Qed.

Lemma second_instance_of_known_name_witness :
  6 ∈ CoreMix.voice_ids
        (CoreMix.self (CoreMix.monitor_turn Cases.audio_twice Cases.core_known_A).1).
Proof.
  exact (proj1 (proj1 (proj2 (proj2 (second_instance_of_known_name
                  Examples.voice_names Examples.excluded_names Cases.audio_twice
                  Cases.core_known_A Cases.chat_known_A _
                  eq_refl eq_refl eq_refl eq_refl eq_refl eq_refl
                  case_names_known case_second_instance_new)))
                 "discord.exe"%string 6
                 case_second_instance_seen case_second_instance_unknown)
               case_known_A_voice).
Defined.

(** ** Traces and frames of monadic code *)

Section EmitsOnly.
Context {W : Type} (P : Event -> Prop).

Lemma emits_only_ret {A} (a : A) : emits_only P (ret (W:=W) a).
Proof. intros w. constructor. Qed.

Lemma emits_only_raise {A} (e : Exn) : emits_only P (raise (W:=W) (A:=A) e).
Proof. intros w. constructor. Qed.

Lemma emits_only_get : emits_only P (get (W:=W)).
Proof. intros w. constructor. Qed.

Lemma emits_only_modify (f : W -> W) : emits_only P (modify f).
Proof. intros w. constructor. Qed.

Lemma emits_only_lift {A} (r : Res A) : emits_only P (lift (W:=W) r).
Proof. intros w. constructor. Qed.

Lemma emits_only_emit (ev : Event) : P ev -> emits_only P (emit (W:=W) ev).
Proof. intros H w. constructor; [exact H|constructor]. Qed.

Lemma emits_only_bind {A B} (m : M W A) (f : A -> M W B) :
  emits_only P m -> (forall a, emits_only P (f a)) -> emits_only P (bind m f).
Proof.
  intros Hm Hf w. unfold bind. pose proof (Hm w) as H1.
  destruct (m w) as [[[a|e] w1] t1]; [|exact H1].
  pose proof (Hf a w1) as H2. destruct (f a w1) as [[r w2] t2].
  apply Forall_app_2; assumption.
Qed.

Lemma emits_only_try_except {A} (m : M W A) (handler : Exn -> M W A) :
  emits_only P m -> (forall e, emits_only P (handler e)) ->
  emits_only P (try_except m handler).
Proof.
  intros Hm Hh w. unfold try_except. pose proof (Hm w) as H1.
  destruct (m w) as [[[a|e] w1] t1]; [exact H1|].
  pose proof (Hh e w1) as H2. destruct (handler e w1) as [[r w2] t2].
  apply Forall_app_2; assumption.
Qed.

Lemma emits_only_for_each {A} (l : list A) (body : A -> M W unit) :
  (forall x, emits_only P (body x)) -> emits_only P (for_each l body).
Proof.
  intros Hb. induction l as [|x l IH]; [apply emits_only_ret|].
  apply emits_only_bind; [apply Hb|intros _; exact IH].
Qed.

End EmitsOnly.

Lemma disposals_app t1 t2 : disposals (t1 ++ t2) = (disposals t1 + disposals t2)%nat.
Proof.
  induction t1 as [|ev t1 IH]; [reflexivity|].
  destruct ev; cbn; rewrite ?IH; reflexivity.
Qed.

Lemma keeps_device_disposals t : Forall keeps_device t -> disposals t = 0%nat.
Proof.
  induction 1 as [|ev t Hev _ IH]; [reflexivity|].
  destruct ev; cbn; try exact IH. exfalso. apply Hev. reflexivity.
Qed.

Ltac emits_step :=
  match goal with
  | |- emits_only _ (ret _) => apply emits_only_ret
  | |- emits_only _ (raise _) => apply emits_only_raise
  | |- emits_only _ get => apply emits_only_get
  | |- emits_only _ (modify _) => apply emits_only_modify
  | |- emits_only _ (lift _) => apply emits_only_lift
  | |- emits_only _ (emit _) => apply emits_only_emit; discriminate
  | |- emits_only _ (bind _ _) => apply emits_only_bind; [|intros ?]
  | |- emits_only _ (try_except _ _) => apply emits_only_try_except; [|intros ?]
  | |- emits_only _ (for_each _ _) => apply emits_only_for_each; intros ?
  | |- emits_only _ (match ?x with _ => _ end) => destruct x
  | |- emits_only _ (if ?x then _ else _) => destruct x
  end.

Ltac emits := repeat emits_step.

Section CoreThreads.
Variable audio : nat -> list Session.
Variable usb : nat -> Res (option (list Z)).

Lemma core_GetAllSessions_emits P : emits_only P (CoreMix.GetAllSessions audio).
Proof. intros w. constructor. Qed.

Lemma core_dev_read_emits P : emits_only P (CoreMix.dev_read usb).
Proof. intros w. constructor. Qed.

Lemma core_pass_keeps_device v s :
  emits_only keeps_device (CoreMix.set_volume_levels audio v s).
Proof.
  unfold CoreMix.set_volume_levels.
  apply emits_only_bind; [apply core_GetAllSessions_emits|intros sessions].
  apply emits_only_for_each. intros session.
  unfold CoreMix.set_session_volume, CoreMix.call_SetMasterVolume. emits.
Qed.

Lemma core_handler_keeps_device e : emits_only keeps_device (CoreMix.usb_handler e).
Proof. unfold CoreMix.usb_handler. emits. Qed.

Lemma core_first_keeps_device : emits_only keeps_device (CoreMix.usb_reader_first usb).
Proof.
  unfold CoreMix.usb_reader_first.
  apply emits_only_try_except.
  - apply emits_only_bind; [apply core_dev_read_emits|intros data]. emits.
  - intros e. apply emits_only_bind; [apply core_handler_keeps_device|intros c]. emits.
Qed.

Lemma core_second_keeps_device s :
  emits_only keeps_device (CoreMix.usb_reader_second audio s).
Proof.
  unfold CoreMix.usb_reader_second.
  apply emits_only_try_except; [|apply core_handler_keeps_device].
  apply emits_only_bind; [emits|intros _].
  apply emits_only_bind; [emits|intros w].
  apply emits_only_bind; [apply core_pass_keeps_device|intros _]. emits.
Qed.

Lemma core_monitor_body_keeps_device :
  emits_only keeps_device (CoreMix.monitor_body audio).
Proof.
  unfold CoreMix.monitor_body.
  apply emits_only_try_except; [|intros e; destruct e; emits].
  apply emits_only_bind; [apply core_GetAllSessions_emits|intros sessions].
  apply emits_only_bind; [emits|intros current].
  apply emits_only_bind; [emits|intros w].
  apply emits_only_bind; [|intros _; emits].
  case_decide; [emits|].
  apply emits_only_bind; [emits|intros _].
  apply emits_only_bind.
  - apply emits_only_for_each. intros [a i]. unfold CoreMix.classify_session. emits.
  - intros _. apply emits_only_bind; [emits|intros w'].
    apply core_pass_keeps_device.
Qed.

Lemma core_monitor_prologue_keeps_device :
  emits_only keeps_device (CoreMix.monitor_prologue audio).
Proof.
  unfold CoreMix.monitor_prologue.
  apply emits_only_bind; [emits|intros _].
  apply emits_only_bind; [apply core_GetAllSessions_emits|intros sessions]. emits.
Qed.


Lemma core_leave_disposals r w :
  exists tl,
    CoreMix.usb_reader_leave r w = (CoreMix.with_usb_thread Finished w, tl) /\
    disposals tl = 1%nat.
Proof.
  destruct r as [c|e]; cbn; [eexists; split; reflexivity|].
  destruct (is_Exception e); eexists; split; reflexivity.
Qed.

(** A turn of the dial thread, as far as the threads go. *)
Lemma core_usb_turn_thread w w' t :
  CoreMix.usb_reader_turn audio usb w = (w', t) ->
  CoreMix.exit_event (CoreMix.self w') = CoreMix.exit_event (CoreMix.self w) /\
  CoreMix.monitor_thread w' = CoreMix.monitor_thread w /\
  (CoreMix.exit_event (CoreMix.self w) = true ->
   (turns_left (CoreMix.usb_thread w') <= pred (turns_left (CoreMix.usb_thread w)))%nat) /\
  (disposals t + ended (CoreMix.usb_thread w) = ended (CoreMix.usb_thread w'))%nat.
Proof.
  unfold CoreMix.usb_reader_turn.
  destruct (CoreMix.usb_thread w) as [| | |s|] eqn:Hth.
  - intros [= <- <-]. rewrite Hth. split_and!; reflexivity || (intros; cbn; lia).
  - intros [= <- <-]. split_and!; reflexivity || (intros; cbn; lia).
  - destruct (CoreMix.exit_event (CoreMix.self w)) eqn:Hex.
    + destruct (core_leave_disposals (Ok Break) w) as (tl & Hl & Hd). rewrite Hl.
      intros [= <- <-]. split_and!; [exact Hex|reflexivity|intros; cbn; lia|].
      rewrite Hd. reflexivity.
    + pose proof (keeps_device_disposals _ (core_first_keeps_device w)) as Hk.
      destruct (core_usb_first_run usb w) as (r & t1 & _ & [[Hrun Hr]|Hacc]).
      * rewrite Hrun in Hk |- *. cbn [snd] in Hk. destruct r as [[[]|s]|e].
        -- intros [= <- <-]. cbn. rewrite Hth, Hk.
           split_and!; [exact Hex|reflexivity|discriminate|reflexivity].
        -- destruct (core_leave_disposals (Ok Break) (CoreMix.count_usb_call w))
             as (tl & Hl & Hd). rewrite Hl. intros [= <- <-].
           split_and!; [exact Hex|reflexivity|discriminate|].
           rewrite disposals_app, Hk, Hd. reflexivity.
        -- exfalso. exact (Hr s eq_refl).
        -- destruct (core_leave_disposals (Raise e) (CoreMix.count_usb_call w))
             as (tl & Hl & Hd). rewrite Hl. intros [= <- <-].
           split_and!; [exact Hex|reflexivity|discriminate|].
           rewrite disposals_app, Hk, Hd. reflexivity.
      * destruct Hacc as (data & v & s & _ & _ & _ & _ & Hrun).
        rewrite Hrun in Hk |- *. cbn [snd] in Hk. intros [= <- <-].
        split_and!; [exact Hex|reflexivity|discriminate|]. rewrite Hk. reflexivity.
  - pose proof (keeps_device_disposals _ (core_second_keeps_device s w)) as Hk.
    destruct (core_usb_second_run audio s w) as (r & t2 & _ & Hrun).
    rewrite Hrun in Hk |- *. cbn [snd] in Hk. destruct r as [[]|e].
    + intros [= <- <-]. split_and!; [reflexivity..|intros; cbn; lia|].
      rewrite Hk. reflexivity.
    + match goal with |- context [CoreMix.usb_reader_leave ?r ?w0] =>
        destruct (core_leave_disposals r w0) as (tl & Hl & Hd) end.
      rewrite Hl. intros [= <- <-]. split_and!; [reflexivity..|intros; cbn; lia|].
      rewrite disposals_app, Hk, Hd. reflexivity.
    + match goal with |- context [CoreMix.usb_reader_leave ?r ?w0] =>
        destruct (core_leave_disposals r w0) as (tl & Hl & Hd) end.
      rewrite Hl. intros [= <- <-]. split_and!; [reflexivity..|intros; cbn; lia|].
      rewrite disposals_app, Hk, Hd. reflexivity.
  - intros [= <- <-]. rewrite Hth. split_and!; reflexivity || (intros; cbn; lia).
Qed.

(** A turn of the session thread, as far as the threads go. *)
Lemma core_monitor_turn_thread w w' t :
  CoreMix.monitor_turn audio w = (w', t) ->
  CoreMix.exit_event (CoreMix.self w') = CoreMix.exit_event (CoreMix.self w) /\
  CoreMix.usb_thread w' = CoreMix.usb_thread w /\
  (storing (CoreMix.monitor_thread w) = false ->
   storing (CoreMix.monitor_thread w') = false) /\
  (CoreMix.exit_event (CoreMix.self w) = true ->
   storing (CoreMix.monitor_thread w) = false ->
   (turns_left (CoreMix.monitor_thread w')
    <= pred (turns_left (CoreMix.monitor_thread w)))%nat) /\
  disposals t = 0%nat.
Proof.
  intros Hturn.
  destruct (core_monitor_turn_cases audio w w' t Hturn)
    as (Hu & K & V & E & Hself & _).
  assert (Hex : CoreMix.exit_event (CoreMix.self w')
                = CoreMix.exit_event (CoreMix.self w)) by (rewrite Hself; reflexivity).
  split; [exact Hex|]. split; [exact Hu|]. clear Hself Hex Hu K V E.
  revert Hturn. unfold CoreMix.monitor_turn.
  destruct (CoreMix.monitor_thread w) as [| | |s|] eqn:Hth.
  - intros [= <- <-]. rewrite Hth. split_and!; reflexivity || (intros; cbn; lia).
  - pose proof (keeps_device_disposals _ (core_monitor_prologue_keeps_device w)) as Hk.
    rewrite core_monitor_prologue_run in Hk |- *.
    destruct (CoreMix.snapshot _); cbn [snd] in Hk; intros [= <- <-];
      (split_and!; [reflexivity|intros; cbn; lia|exact Hk]).
  - destruct (CoreMix.exit_event (CoreMix.self w)) eqn:Hex.
    + intros [= <- <-]. split_and!; reflexivity || (intros; cbn; lia).
    + pose proof (keeps_device_disposals _ (core_monitor_body_keeps_device w)) as Hk.
      assert (Hm : CoreMix.monitor_thread (CoreMix.monitor_body audio w).1.2 = InLoop).
      { pose proof (core_monitor_body_run audio w) as Hrun.
        destruct (CoreMix.snapshot _) as [current|e].
        - cbn zeta in Hrun. case_decide.
          + rewrite Hrun. exact Hth.
          + destruct Hrun as (V & E & tc & _ & _ & _ & Hrun). rewrite Hrun.
            match goal with
            | |- context [CoreMix.set_volume_levels audio ?v ?s ?w0] =>
                pose proof (core_pass_world audio v s w0) as Hw3;
                destruct (CoreMix.set_volume_levels audio v s w0) as [[r w3] t3]
            end. cbn in Hw3. subst w3. destruct r as [[]|[]]; exact Hth.
        - rewrite Hrun. exact Hth. }
      destruct (CoreMix.monitor_body audio w) as [[[[]|e] w1] t1]; cbn in Hk, Hm;
        intros [= <- <-].
      * rewrite Hm. split_and!; [reflexivity|discriminate|exact Hk].
      * split_and!; [reflexivity|discriminate|exact Hk].
  - intros [= <- <-]. rewrite Hth.
    split_and!; [intros H; exact H|intros _ Hs; discriminate|reflexivity].
  - intros [= <- <-]. rewrite Hth. split_and!; reflexivity || (intros; cbn; lia).
Qed.

End CoreThreads.

Section Keeps.
Context {W : Type} (R : W -> W -> Prop) `{!PreOrder R}.

Lemma keeps_ret {A} (a : A) : keeps R (ret a).
Proof. intros w. reflexivity. Qed.

Lemma keeps_raise {A} (e : Exn) : keeps R (raise (A:=A) e).
Proof. intros w. reflexivity. Qed.

Lemma keeps_get : keeps R get.
Proof. intros w. reflexivity. Qed.

Lemma keeps_lift {A} (r : Res A) : keeps R (lift r).
Proof. intros w. reflexivity. Qed.

Lemma keeps_emit (ev : Event) : keeps R (emit ev).
Proof. intros w. reflexivity. Qed.

Lemma keeps_modify (f : W -> W) : (forall w, R w (f w)) -> keeps R (modify f).
Proof. intros H w. apply H. Qed.

Lemma keeps_bind {A B} (m : M W A) (f : A -> M W B) :
  keeps R m -> (forall a, keeps R (f a)) -> keeps R (bind m f).
Proof.
  intros Hm Hf w. unfold bind. pose proof (Hm w) as H1.
  destruct (m w) as [[[a|e] w1] t1]; [|exact H1].
  pose proof (Hf a w1) as H2. destruct (f a w1) as [[r w2] t2].
  cbn in *. etransitivity; eassumption.
Qed.

Lemma keeps_try_except {A} (m : M W A) (handler : Exn -> M W A) :
  keeps R m -> (forall e, keeps R (handler e)) -> keeps R (try_except m handler).
Proof.
  intros Hm Hh w. unfold try_except. pose proof (Hm w) as H1.
  destruct (m w) as [[[a|e] w1] t1]; [exact H1|].
  pose proof (Hh e w1) as H2. destruct (handler e w1) as [[r w2] t2].
  cbn in *. etransitivity; eassumption.
Qed.

Lemma keeps_for_each {A} (l : list A) (body : A -> M W unit) :
  (forall x, keeps R (body x)) -> keeps R (for_each l body).
Proof.
  intros Hb. induction l as [|x l IH]; [apply keeps_ret|].
  apply keeps_bind; [apply Hb|intros _; exact IH].
Qed.

End Keeps.

Lemma chat_same_control_preorder : PreOrder chat_same_control.
Proof.
  split.
  - intros w. repeat split.
  - intros w1 w2 w3 (H1 & H2 & H3) (H4 & H5 & H6). unfold chat_same_control.
    split_and!; congruence.
Qed.

#[local] Existing Instance chat_same_control_preorder.

Ltac keeps_step :=
  match goal with
  | |- keeps ?R (ret _) => apply (keeps_ret R)
  | |- keeps ?R (raise _) => apply (keeps_raise R)
  | |- keeps ?R get => apply (keeps_get R)
  | |- keeps ?R (lift _) => apply (keeps_lift R)
  | |- keeps ?R (emit _) => apply (keeps_emit R)
  | |- keeps ?R (modify _) => apply (keeps_modify R); intros ?; repeat split
  | |- keeps ?R (bind _ _) => apply (keeps_bind R); [|intros ?]
  | |- keeps ?R (try_except _ _) => apply (keeps_try_except R); [|intros ?]
  | |- keeps ?R (for_each _ _) => apply (keeps_for_each R); intros ?
  | |- keeps _ (match ?x with _ => _ end) => destruct x
  | |- keeps _ (if ?x then _ else _) => destruct x
  end.

Ltac keeps_all := repeat keeps_step.

Section ChatThreads.
Variables voice_apps exclude_apps : gset string.
Variable audio : nat -> list Session.
Variable usb : nat -> Res (option (list Z)).

Lemma chat_GetAllSessions_emits P : emits_only P (ChatMix.GetAllSessions audio).
Proof. intros w. constructor. Qed.

Lemma chat_dev_read_emits P : emits_only P (ChatMix.dev_read usb).
Proof. intros w. constructor. Qed.

Lemma chat_cache_get_emits P key : emits_only P (ChatMix.cache_get key).
Proof. intros w. unfold ChatMix.cache_get. destruct (_ !! _); constructor. Qed.

Lemma chat_GetAllSessions_keeps : keeps chat_same_control (ChatMix.GetAllSessions audio).
Proof. intros w. repeat split. Qed.

Lemma chat_dev_read_keeps : keeps chat_same_control (ChatMix.dev_read usb).
Proof. intros w. repeat split. Qed.

Lemma chat_cache_get_keeps key : keeps chat_same_control (ChatMix.cache_get key).
Proof. intros w. unfold ChatMix.cache_get. destruct (_ !! _); repeat split. Qed.

Lemma chat_pass_keeps_device v s :
  emits_only keeps_device
    (ChatMix.set_volume_levels voice_apps exclude_apps audio v s).
Proof.
  unfold ChatMix.set_volume_levels.
  apply emits_only_bind; [apply chat_GetAllSessions_emits|intros sessions].
  apply emits_only_for_each. intros session.
  unfold ChatMix.set_session_volume, ChatMix.call_SetMasterVolume. emits.
Qed.

Lemma chat_pass_keeps v s :
  keeps chat_same_control
    (ChatMix.set_volume_levels voice_apps exclude_apps audio v s).
Proof.
  unfold ChatMix.set_volume_levels.
  apply (keeps_bind chat_same_control); [apply chat_GetAllSessions_keeps|intros sessions].
  apply (keeps_for_each chat_same_control). intros session.
  unfold ChatMix.set_session_volume, ChatMix.call_SetMasterVolume. keeps_all.
Qed.

Lemma chat_handler_keeps_device e : emits_only keeps_device (ChatMix.usb_handler e).
Proof. unfold ChatMix.usb_handler. emits. Qed.

Lemma chat_handler_keeps e : keeps chat_same_control (ChatMix.usb_handler e).
Proof. unfold ChatMix.usb_handler. keeps_all. Qed.

Lemma chat_first_keeps_device : emits_only keeps_device (ChatMix.usb_reader_first usb).
Proof.
  unfold ChatMix.usb_reader_first, ChatMix.cache_set.
  apply emits_only_try_except.
  - apply emits_only_bind; [apply chat_dev_read_emits|intros data]. emits.
  - intros e. apply emits_only_bind; [apply chat_handler_keeps_device|intros c]. emits.
Qed.

Lemma chat_first_keeps : keeps chat_same_control (ChatMix.usb_reader_first usb).
Proof.
  unfold ChatMix.usb_reader_first, ChatMix.cache_set.
  apply (keeps_try_except chat_same_control).
  - apply (keeps_bind chat_same_control); [apply chat_dev_read_keeps|intros data]. keeps_all.
  - intros e. apply (keeps_bind chat_same_control); [apply chat_handler_keeps|intros c]. keeps_all.
Qed.

Lemma chat_second_keeps_device s :
  emits_only keeps_device
    (ChatMix.usb_reader_second voice_apps exclude_apps audio s).
Proof.
  unfold ChatMix.usb_reader_second, ChatMix.cache_set.
  apply emits_only_try_except; [|apply chat_handler_keeps_device].
  apply emits_only_bind; [emits|intros _].
  apply emits_only_bind; [apply chat_cache_get_emits|intros v].
  apply emits_only_bind; [apply chat_cache_get_emits|intros s'].
  apply emits_only_bind; [apply chat_pass_keeps_device|intros _]. emits.
Qed.

Lemma chat_second_keeps s :
  keeps chat_same_control
    (ChatMix.usb_reader_second voice_apps exclude_apps audio s).
Proof.
  unfold ChatMix.usb_reader_second, ChatMix.cache_set.
  apply (keeps_try_except chat_same_control); [|apply chat_handler_keeps].
  apply (keeps_bind chat_same_control); [keeps_all|intros _].
  apply (keeps_bind chat_same_control); [apply chat_cache_get_keeps|intros v].
  apply (keeps_bind chat_same_control); [apply chat_cache_get_keeps|intros s'].
  apply (keeps_bind chat_same_control); [apply chat_pass_keeps|intros _]. keeps_all.
Qed.

Lemma chat_greet_keeps_device a :
  emits_only keeps_device (ChatMix.greet_session voice_apps exclude_apps audio a).
Proof.
  unfold ChatMix.greet_session.
  apply emits_only_bind; [emits|intros _].
  apply emits_only_bind; [emits|intros _].
  apply emits_only_bind; [apply chat_cache_get_emits|intros v].
  apply emits_only_bind; [apply chat_cache_get_emits|intros s'].
  apply chat_pass_keeps_device.
Qed.

Lemma chat_greet_keeps a :
  keeps chat_same_control (ChatMix.greet_session voice_apps exclude_apps audio a).
Proof.
  unfold ChatMix.greet_session.
  apply (keeps_bind chat_same_control); [keeps_all|intros _].
  apply (keeps_bind chat_same_control); [keeps_all|intros _].
  apply (keeps_bind chat_same_control); [apply chat_cache_get_keeps|intros v].
  apply (keeps_bind chat_same_control); [apply chat_cache_get_keeps|intros s'].
  apply chat_pass_keeps.
Qed.

Lemma chat_monitor_body_keeps_device :
  emits_only keeps_device (ChatMix.monitor_body voice_apps exclude_apps audio).
Proof.
  unfold ChatMix.monitor_body.
  apply emits_only_try_except; [|intros e; destruct e; emits].
  apply emits_only_bind; [apply chat_GetAllSessions_emits|intros sessions].
  apply emits_only_bind; [emits|intros current].
  apply emits_only_bind; [emits|intros w].
  apply emits_only_bind; [|intros _; emits].
  apply emits_only_for_each. intros a. apply chat_greet_keeps_device.
Qed.

Lemma chat_monitor_body_keeps :
  keeps chat_same_control (ChatMix.monitor_body voice_apps exclude_apps audio).
Proof.
  unfold ChatMix.monitor_body.
  apply (keeps_try_except chat_same_control); [|intros e; destruct e; keeps_all].
  apply (keeps_bind chat_same_control); [apply chat_GetAllSessions_keeps|intros sessions].
  apply (keeps_bind chat_same_control); [keeps_all|intros current].
  apply (keeps_bind chat_same_control); [keeps_all|intros w].
  apply (keeps_bind chat_same_control); [|intros _; keeps_all].
  apply (keeps_for_each chat_same_control). intros a. apply chat_greet_keeps.
Qed.

Lemma chat_monitor_prologue_keeps_device :
  emits_only keeps_device (ChatMix.monitor_prologue audio).
Proof.
  unfold ChatMix.monitor_prologue.
  apply emits_only_bind; [emits|intros _].
  apply emits_only_bind; [apply chat_GetAllSessions_emits|intros sessions]. emits.
Qed.

Lemma chat_monitor_prologue_keeps :
  keeps chat_same_control (ChatMix.monitor_prologue audio).
Proof.
  unfold ChatMix.monitor_prologue.
  apply (keeps_bind chat_same_control); [keeps_all|intros _].
  apply (keeps_bind chat_same_control); [apply chat_GetAllSessions_keeps|intros sessions].
  keeps_all.
Qed.

Lemma chat_leave_disposals r w :
  exists tl,
    ChatMix.usb_reader_leave r w = (ChatMix.with_usb_thread Finished w, tl) /\
    disposals tl = 1%nat.
Proof.
  destruct r as [c|e]; cbn; [eexists; split; reflexivity|].
  destruct (is_Exception e); eexists; split; reflexivity.
Qed.

Lemma chat_usb_turn_thread w w' t :
  ChatMix.usb_reader_turn voice_apps exclude_apps audio usb w = (w', t) ->
  ChatMix.exit_event w' = ChatMix.exit_event w /\
  ChatMix.monitor_thread w' = ChatMix.monitor_thread w /\
  (ChatMix.exit_event w = true ->
   (turns_left (ChatMix.usb_thread w') <= pred (turns_left (ChatMix.usb_thread w)))%nat) /\
  (disposals t + ended (ChatMix.usb_thread w) = ended (ChatMix.usb_thread w'))%nat.
Proof.
  unfold ChatMix.usb_reader_turn.
  destruct (ChatMix.usb_thread w) as [| | |s|] eqn:Hth.
  - intros [= <- <-]. rewrite Hth.
    split_and!; first [reflexivity | intros; cbn; first [reflexivity | lia]].
  - intros [= <- <-]. split_and!; first [reflexivity | intros; cbn; first [reflexivity | lia]].
  - destruct (ChatMix.exit_event w) eqn:Hex.
    + destruct (chat_leave_disposals (Ok Break) w) as (tl & Hl & Hd). rewrite Hl.
      intros [= <- <-]. split_and!; [exact Hex|reflexivity|intros; cbn; lia|].
      rewrite Hd. reflexivity.
    + pose proof (keeps_device_disposals _ (chat_first_keeps_device w)) as Hk.
      destruct (chat_first_keeps w) as (H1 & H2 & H3).
      destruct (ChatMix.usb_reader_first usb w) as [[r w1] t1].
      cbn [fst snd] in Hk, H1, H2, H3.
      destruct r as [[[]|s]|e];
        try match goal with |- context [ChatMix.usb_reader_leave ?r ?w0] =>
          destruct (chat_leave_disposals r w0) as (tl & Hl & Hd); rewrite Hl end;
        intros [= <- <-]; cbn [ChatMix.with_usb_thread ChatMix.exit_event
          ChatMix.monitor_thread ChatMix.usb_thread];
        rewrite ?disposals_app, ?Hk, ?Hd, ?H2, ?Hth;
        (split_and!; [congruence|congruence|discriminate|reflexivity]).
  - pose proof (keeps_device_disposals _
                  (chat_second_keeps_device s w)) as Hk.
    destruct (chat_second_keeps s w) as (H1 & H2 & H3).
    destruct (ChatMix.usb_reader_second _ _ _ s w) as [[r w1] t1].
    cbn [fst snd] in Hk, H1, H2, H3.
    destruct r as [[]|e];
      try match goal with |- context [ChatMix.usb_reader_leave ?r ?w0] =>
        destruct (chat_leave_disposals r w0) as (tl & Hl & Hd); rewrite Hl end;
      intros [= <- <-]; cbn [ChatMix.with_usb_thread ChatMix.exit_event
        ChatMix.monitor_thread ChatMix.usb_thread];
      rewrite ?disposals_app, ?Hk, ?Hd;
      (split_and!; [congruence|congruence|intros; cbn; lia|reflexivity]).
  - intros [= <- <-]. rewrite Hth.
    split_and!; first [reflexivity | intros; cbn; first [reflexivity | lia]].
Qed.

Lemma chat_monitor_turn_thread w w' t :
  ChatMix.monitor_turn voice_apps exclude_apps audio w = (w', t) ->
  ChatMix.exit_event w' = ChatMix.exit_event w /\
  ChatMix.usb_thread w' = ChatMix.usb_thread w /\
  (storing (ChatMix.monitor_thread w) = false ->
   storing (ChatMix.monitor_thread w') = false) /\
  (ChatMix.exit_event w = true ->
   storing (ChatMix.monitor_thread w) = false ->
   (turns_left (ChatMix.monitor_thread w')
    <= pred (turns_left (ChatMix.monitor_thread w)))%nat) /\
  disposals t = 0%nat.
Proof.
  unfold ChatMix.monitor_turn.
  destruct (ChatMix.monitor_thread w) as [| | |s|] eqn:Hth.
  - intros [= <- <-]. rewrite Hth.
    split_and!; first [reflexivity | intros; cbn; first [reflexivity | lia]].
  - pose proof (keeps_device_disposals _ (chat_monitor_prologue_keeps_device w)) as Hk.
    destruct (chat_monitor_prologue_keeps w) as (H1 & H2 & H3).
    destruct (ChatMix.monitor_prologue audio w) as [[[[]|e] w1] t1];
      cbn [fst snd] in Hk, H1, H2, H3; intros [= <- <-];
      (split_and!; [exact H1|exact H2|reflexivity|intros; cbn; lia|exact Hk]).
  - destruct (ChatMix.exit_event w) eqn:Hex.
    + intros [= <- <-].
      split_and!; first [reflexivity | exact Hex | intros; cbn; first [reflexivity | lia]].
    + pose proof (keeps_device_disposals _ (chat_monitor_body_keeps_device w)) as Hk.
      destruct (chat_monitor_body_keeps w) as (H1 & H2 & H3).
      destruct (ChatMix.monitor_body _ _ audio w) as [[[[]|e] w1] t1];
        cbn [fst snd] in Hk, H1, H2, H3; intros [= <- <-].
      * rewrite H3, Hth. split_and!; [congruence|exact H2|reflexivity|discriminate|exact Hk].
      * split_and!; [cbn; congruence|exact H2|reflexivity|discriminate|exact Hk].
  - intros [= <- <-]. rewrite Hth.
    split_and!; [reflexivity..|intros H; exact H|intros _ Hs; discriminate|reflexivity].
  - intros [= <- <-]. rewrite Hth.
    split_and!; first [reflexivity | intros; cbn; first [reflexivity | lia]].
Qed.

End ChatThreads.

(** ** Shutdown and the release of the device *)

Lemma turns_of_cons who other sched :
  turns_of who (other :: sched)
  = ((if is_turn who other then 1 else 0) + turns_of who sched)%nat.
Proof.
  unfold turns_of. rewrite filter_cons.
  destruct (is_turn who other); [rewrite decide_True by reflexivity|
                                 rewrite decide_False by discriminate]; reflexivity.
Qed.

Lemma turns_left_alive t : turns_left t = 0%nat -> is_alive t = false.
Proof. destruct t; cbn; congruence. Qed.

Section Shutdown.
Variables voice_apps exclude_apps : gset string.
Variable audio : nat -> list Session.
Variable usb : nat -> Res (option (list Z)).

Lemma core_turn_thread who w w' t :
  CoreMix.turn audio usb who w = (w', t) ->
  (CoreMix.exit_event (CoreMix.self w) = true ->
   CoreMix.exit_event (CoreMix.self w') = true) /\
  (storing (CoreMix.monitor_thread w) = false ->
   storing (CoreMix.monitor_thread w') = false) /\
  (CoreMix.exit_event (CoreMix.self w) = true ->
   storing (CoreMix.monitor_thread w) = false ->
   (turns_left (CoreMix.usb_thread w')
    <= turns_left (CoreMix.usb_thread w) - (if is_turn UsbTurn who then 1 else 0))%nat /\
   (turns_left (CoreMix.monitor_thread w')
    <= turns_left (CoreMix.monitor_thread w)
       - (if is_turn MonitorTurn who then 1 else 0))%nat) /\
  (disposals t + ended (CoreMix.usb_thread w) = ended (CoreMix.usb_thread w'))%nat.
Proof.
  destruct who; cbn [CoreMix.turn is_turn].
  - intros H. destruct (core_usb_turn_thread audio usb w w' t H) as (Hex & Hm & Hl & Hd).
    rewrite Hex, Hm. split_and!; auto. intros He _. specialize (Hl He). lia.
  - intros H. destruct (core_monitor_turn_thread audio w w' t H)
      as (Hex & Hu & Hs & Hl & Hd).
    rewrite Hex, Hu, Hd. split_and!; auto. intros He Hst. specialize (Hl He Hst). lia.
  - intros [= <- <-]. cbn. split_and!; auto. intros; lia.
Qed.

Lemma core_run_thread sched w w' t :
  CoreMix.interleave audio usb sched w = (w', t) ->
  (storing (CoreMix.monitor_thread w) = false ->
   storing (CoreMix.monitor_thread w') = false) /\
  (CoreMix.exit_event (CoreMix.self w) = true ->
   storing (CoreMix.monitor_thread w) = false ->
   (turns_left (CoreMix.usb_thread w')
    <= turns_left (CoreMix.usb_thread w) - turns_of UsbTurn sched)%nat /\
   (turns_left (CoreMix.monitor_thread w')
    <= turns_left (CoreMix.monitor_thread w) - turns_of MonitorTurn sched)%nat) /\
  (disposals t + ended (CoreMix.usb_thread w) = ended (CoreMix.usb_thread w'))%nat.
Proof.
  revert w w' t. induction sched as [|who sched IH]; intros w w' t; cbn [CoreMix.interleave].
  - intros [= <- <-]. split_and!; auto. intros; cbn; lia.
  - destruct (CoreMix.turn audio usb who w) as [w1 t1] eqn:Hturn.
    destruct (CoreMix.interleave audio usb sched w1) as [w2 t2] eqn:Hrun.
    intros [= <- <-].
    destruct (core_turn_thread who w w1 t1 Hturn) as (Hex & Hs & Hl & Hd).
    destruct (IH w1 w2 t2 Hrun) as (Hs' & Hl' & Hd').
    split_and!.
    + auto.
    + intros He Hst. destruct (Hl He Hst) as [Hl1 Hl2].
      destruct (Hl' (Hex He) (Hs Hst)) as [Hl1' Hl2'].
      rewrite !turns_of_cons. lia.
    + rewrite disposals_app. lia.
Qed.

Lemma core_interleave_app sched1 sched2 w :
  CoreMix.interleave audio usb (sched1 ++ sched2) w =
  let '(w1, t1) := CoreMix.interleave audio usb sched1 w in
  let '(w2, t2) := CoreMix.interleave audio usb sched2 w1 in
  (w2, t1 ++ t2).
Proof.
  revert w. induction sched1 as [|who sched1 IH]; intros w; cbn [app CoreMix.interleave].
  - destruct (CoreMix.interleave audio usb sched2 w). reflexivity.
  - destruct (CoreMix.turn audio usb who w) as [w1 t1]. rewrite IH.
    destruct (CoreMix.interleave audio usb sched1 w1) as [w2 t2].
    destruct (CoreMix.interleave audio usb sched2 w2) as [w3 t3].
    rewrite app_assoc. reflexivity.
Qed.

Lemma chat_turn_thread who w w' t :
  ChatMix.turn voice_apps exclude_apps audio usb who w = (w', t) ->
  (ChatMix.exit_event w = true -> ChatMix.exit_event w' = true) /\
  (storing (ChatMix.monitor_thread w) = false ->
   storing (ChatMix.monitor_thread w') = false) /\
  (ChatMix.exit_event w = true ->
   storing (ChatMix.monitor_thread w) = false ->
   (turns_left (ChatMix.usb_thread w')
    <= turns_left (ChatMix.usb_thread w) - (if is_turn UsbTurn who then 1 else 0))%nat /\
   (turns_left (ChatMix.monitor_thread w')
    <= turns_left (ChatMix.monitor_thread w)
       - (if is_turn MonitorTurn who then 1 else 0))%nat) /\
  (disposals t + ended (ChatMix.usb_thread w) = ended (ChatMix.usb_thread w'))%nat.
Proof.
  destruct who; cbn [ChatMix.turn is_turn].
  - intros H. destruct (chat_usb_turn_thread voice_apps exclude_apps audio usb w w' t H)
      as (Hex & Hm & Hl & Hd).
    rewrite Hex, Hm. split_and!; auto. intros He _. specialize (Hl He). lia.
  - intros H. destruct (chat_monitor_turn_thread voice_apps exclude_apps audio w w' t H)
      as (Hex & Hu & Hs & Hl & Hd).
    rewrite Hex, Hu, Hd. split_and!; auto. intros He Hst. specialize (Hl He Hst). lia.
  - intros [= <- <-]. cbn. split_and!; auto. intros; lia.
Qed.

Lemma chat_run_thread sched w w' t :
  ChatMix.interleave voice_apps exclude_apps audio usb sched w = (w', t) ->
  (storing (ChatMix.monitor_thread w) = false ->
   storing (ChatMix.monitor_thread w') = false) /\
  (ChatMix.exit_event w = true ->
   storing (ChatMix.monitor_thread w) = false ->
   (turns_left (ChatMix.usb_thread w')
    <= turns_left (ChatMix.usb_thread w) - turns_of UsbTurn sched)%nat /\
   (turns_left (ChatMix.monitor_thread w')
    <= turns_left (ChatMix.monitor_thread w) - turns_of MonitorTurn sched)%nat) /\
  (disposals t + ended (ChatMix.usb_thread w) = ended (ChatMix.usb_thread w'))%nat.
Proof.
  revert w w' t. induction sched as [|who sched IH]; intros w w' t; cbn [ChatMix.interleave].
  - intros [= <- <-]. split_and!; auto. intros; cbn; lia.
  - destruct (ChatMix.turn voice_apps exclude_apps audio usb who w) as [w1 t1] eqn:Hturn.
    destruct (ChatMix.interleave voice_apps exclude_apps audio usb sched w1)
      as [w2 t2] eqn:Hrun.
    intros [= <- <-].
    destruct (chat_turn_thread who w w1 t1 Hturn) as (Hex & Hs & Hl & Hd).
    destruct (IH w1 w2 t2 Hrun) as (Hs' & Hl' & Hd').
    split_and!.
    + auto.
    + intros He Hst. destruct (Hl He Hst) as [Hl1 Hl2].
      destruct (Hl' (Hex He) (Hs Hst)) as [Hl1' Hl2'].
      rewrite !turns_of_cons. lia.
    + rewrite disposals_app. lia.
Qed.

Lemma chat_interleave_app sched1 sched2 w :
  ChatMix.interleave voice_apps exclude_apps audio usb (sched1 ++ sched2) w =
  let '(w1, t1) := ChatMix.interleave voice_apps exclude_apps audio usb sched1 w in
  let '(w2, t2) := ChatMix.interleave voice_apps exclude_apps audio usb sched2 w1 in
  (w2, t1 ++ t2).
Proof.
  revert w. induction sched1 as [|who sched1 IH]; intros w; cbn [app ChatMix.interleave].
  - destruct (ChatMix.interleave _ _ audio usb sched2 w). reflexivity.
  - destruct (ChatMix.turn _ _ audio usb who w) as [w1 t1]. rewrite IH.
    destruct (ChatMix.interleave _ _ audio usb sched1 w1) as [w2 t2].
    destruct (ChatMix.interleave _ _ audio usb sched2 w2) as [w3 t3].
    rewrite app_assoc. reflexivity.
Qed.

(** X10.  Shutdown.  Once the main thread has handled a
    [KeyboardInterrupt], which sets the exit event, nothing clears the
    event, and each of the two threads that were started ends within two
    more turns of its own, whatever the dial and the sessions do: a
    thread at the top of its loop sees the event and leaves, one that is
    starting or between the two assignments of the levels gets there
    first.  So after any schedule that gives each thread two turns after
    the interrupt, neither thread is alive, in both variants. *)
Theorem interrupt_ends_both_threads (c : CoreMix.CoreMix) (before after : list Turn) :
  (2 <= turns_of UsbTurn after)%nat ->
  (2 <= turns_of MonitorTurn after)%nat ->
  let wc := (CoreMix.interleave audio usb (before ++ Interrupt :: after)
               (CoreMix.started c)).1 in
  let wm := (ChatMix.interleave voice_apps exclude_apps audio usb
               (before ++ Interrupt :: after) ChatMix.started).1 in
  is_alive (CoreMix.usb_thread wc) = false /\
  is_alive (CoreMix.monitor_thread wc) = false /\
  is_alive (ChatMix.usb_thread wm) = false /\
  is_alive (ChatMix.monitor_thread wm) = false.
Proof.
  intros Hu Hm.
  assert (Hbound : forall a b : Thread,
            (turns_left a <= turns_left b - 2)%nat -> is_alive a = false).
  { intros a b H. apply turns_left_alive. destruct b; cbn in H; lia. }
  cbn zeta. rewrite core_interleave_app, chat_interleave_app.
  assert (Hcore :
            is_alive (CoreMix.usb_thread
              (let '(w1, t1) := CoreMix.interleave audio usb before (CoreMix.started c) in
               let '(w2, t2) := CoreMix.interleave audio usb (Interrupt :: after) w1 in
               (w2, t1 ++ t2)).1) = false /\
            is_alive (CoreMix.monitor_thread
              (let '(w1, t1) := CoreMix.interleave audio usb before (CoreMix.started c) in
               let '(w2, t2) := CoreMix.interleave audio usb (Interrupt :: after) w1 in
               (w2, t1 ++ t2)).1) = false).
  { destruct (CoreMix.interleave audio usb before (CoreMix.started c)) as [w1 t1] eqn:H1.
    destruct (core_run_thread before _ w1 t1 H1) as (Hs1 & _).
    cbn [CoreMix.interleave CoreMix.turn].
    destruct (CoreMix.interleave audio usb after
                (CoreMix.with_self CoreMix.set_exit_event w1)) as [w2 t2] eqn:H2.
    destruct (core_run_thread after _ w2 t2 H2) as (_ & Hl & _).
    destruct (Hl eq_refl (Hs1 eq_refl)) as [Hl1 Hl2]. cbn [fst]. split.
    - apply (Hbound _ (CoreMix.usb_thread
                         (CoreMix.with_self CoreMix.set_exit_event w1))). lia.
    - apply (Hbound _ (CoreMix.monitor_thread
                         (CoreMix.with_self CoreMix.set_exit_event w1))). lia. }
  assert (Hchat :
            is_alive (ChatMix.usb_thread
              (let '(w1, t1) := ChatMix.interleave voice_apps exclude_apps audio usb
                                  before ChatMix.started in
               let '(w2, t2) := ChatMix.interleave voice_apps exclude_apps audio usb
                                  (Interrupt :: after) w1 in
               (w2, t1 ++ t2)).1) = false /\
            is_alive (ChatMix.monitor_thread
              (let '(w1, t1) := ChatMix.interleave voice_apps exclude_apps audio usb
                                  before ChatMix.started in
               let '(w2, t2) := ChatMix.interleave voice_apps exclude_apps audio usb
                                  (Interrupt :: after) w1 in
               (w2, t1 ++ t2)).1) = false).
  { destruct (ChatMix.interleave voice_apps exclude_apps audio usb before ChatMix.started)
      as [w1 t1] eqn:H1.
    destruct (chat_run_thread before _ w1 t1 H1) as (Hs1 & _).
    cbn [ChatMix.interleave ChatMix.turn].
    destruct (ChatMix.interleave voice_apps exclude_apps audio usb after
                (ChatMix.set_exit_event w1)) as [w2 t2] eqn:H2.
    destruct (chat_run_thread after _ w2 t2 H2) as (_ & Hl & _).
    destruct (Hl eq_refl (Hs1 eq_refl)) as [Hl1 Hl2]. cbn [fst]. split.
    - apply (Hbound _ (ChatMix.usb_thread (ChatMix.set_exit_event w1))). lia.
    - apply (Hbound _ (ChatMix.monitor_thread (ChatMix.set_exit_event w1))). lia. }
  destruct Hcore as [Hc1 Hc2]. destruct Hchat as [Hm1 Hm2].
  split_and!; assumption.
Qed.

(** X11.  Along any schedule of the two threads and the interrupt, from
    the start, [usb.util.dispose_resources] has been called once if the
    dial thread has ended and not at all if it has not: the [finally] of
    [usb_reader] releases the device exactly once, however the loop was
    left, and nothing else in the threads does, in both variants. *)
Theorem device_released_when_dial_thread_ends (c : CoreMix.CoreMix) (sched : list Turn) :
  disposals (CoreMix.interleave audio usb sched (CoreMix.started c)).2
  = ended (CoreMix.usb_thread
             (CoreMix.interleave audio usb sched (CoreMix.started c)).1) /\
  disposals (ChatMix.interleave voice_apps exclude_apps audio usb sched
               ChatMix.started).2
  = ended (ChatMix.usb_thread
             (ChatMix.interleave voice_apps exclude_apps audio usb sched
                ChatMix.started).1).
Proof.
  split.
  - destruct (CoreMix.interleave audio usb sched (CoreMix.started c)) as [w t] eqn:H.
    destruct (core_run_thread sched _ w t H) as (_ & _ & Hd). cbn in Hd |- *. lia.
  - destruct (ChatMix.interleave voice_apps exclude_apps audio usb sched ChatMix.started)
      as [w t] eqn:H.
    destruct (chat_run_thread sched _ w t H) as (_ & _ & Hd). cbn in Hd |- *. lia.
Qed.

End Shutdown.

Lemma interrupt_ends_both_threads_witness :
  is_alive
    (CoreMix.usb_thread
       (CoreMix.interleave Examples.audio_ABC Examples.usb_dial
          (Cases.before_interrupt ++ Interrupt :: Cases.after_interrupt)
          (CoreMix.started
             (CoreMix.init Examples.voice_names Examples.excluded_names))).1)
  = false.
Proof.
  exact (proj1 (interrupt_ends_both_threads
                  Examples.voice_names Examples.excluded_names
                  Examples.audio_ABC Examples.usb_dial
                  (CoreMix.init Examples.voice_names Examples.excluded_names)
                  Cases.before_interrupt Cases.after_interrupt
                  (le_n 2) (le_n 2))).
Defined.

(** ** What the threads never do *)

Section NeverDone.
Variables voice_apps exclude_apps : gset string.
Variable audio : nat -> list Session.
Variable usb : nat -> Res (option (list Z)).

Lemma all_settable_named sessions :
  Sessions.all_settable sessions -> Sessions.all_named sessions.
Proof. intros H session process Hin. apply (H session Hin). Qed.

(** While every session can be handled and the exit event is not set, a
    turn of the session thread leaves it alive. *)
Lemma core_monitor_turn_alive w :
  (forall k, Sessions.all_settable (audio k)) ->
  CoreMix.exit_event (CoreMix.self w) = false ->
  is_alive (CoreMix.monitor_thread w) = true ->
  storing (CoreMix.monitor_thread w) = false ->
  is_alive (CoreMix.monitor_thread (CoreMix.monitor_turn audio w).1) = true /\
  storing (CoreMix.monitor_thread (CoreMix.monitor_turn audio w).1) = false.
Proof.
  intros Hall Hex Halive Hst. unfold CoreMix.monitor_turn.
  destruct (core_snapshot_ok _ (all_settable_named _ (Hall (CoreMix.audio_calls w))))
    as (current & Hsnap).
  destruct (CoreMix.monitor_thread w) eqn:Hth; try discriminate.
  - rewrite core_monitor_prologue_run, Hsnap. split; reflexivity.
  - rewrite Hex. pose proof (core_monitor_body_run audio w) as Hrun.
    rewrite Hsnap in Hrun. cbn zeta in Hrun. case_decide.
    + rewrite Hrun. cbn. rewrite Hth. split; reflexivity.
    + destruct Hrun as (V & E & tc & _ & _ & _ & Hrun). rewrite Hrun. clear Hrun.
      match goal with
      | |- context [CoreMix.set_volume_levels audio ?v ?s ?w0] =>
          pose proof (core_pass_world audio v s w0) as Hw3;
          pose proof (core_pass_settable audio v s w0 (Hall _)) as Hok;
          destruct (CoreMix.set_volume_levels audio v s w0) as [[r w3] t3]
      end. cbn in Hw3, Hok. subst w3 r. cbn. rewrite Hth. split; reflexivity.
Qed.

Lemma chat_monitor_turn_alive w :
  (forall k, Sessions.all_settable (audio k)) ->
  Table.chat_levels_by_readings usb w ->
  ChatMix.exit_event w = false ->
  is_alive (ChatMix.monitor_thread w) = true ->
  storing (ChatMix.monitor_thread w) = false ->
  is_alive (ChatMix.monitor_thread
              (ChatMix.monitor_turn voice_apps exclude_apps audio w).1) = true /\
  storing (ChatMix.monitor_thread
             (ChatMix.monitor_turn voice_apps exclude_apps audio w).1) = false.
Proof.
  intros Hall Hlev Hex Halive Hst.
  assert (Hkeys : exists v s,
            ChatMix.volume_cache w !! "voice_level"%string = Some v /\
            ChatMix.volume_cache w !! "system_level"%string = Some s).
  { unfold Table.chat_levels_by_readings in Hlev.
    destruct (ChatMix.usb_thread w).
    5: { destruct Hlev as (v & s & H1 & H2 & _); eauto. }
    4: { destruct Hlev as (v & v0 & s0 & H1 & H2 & _); eauto. }
    all: destruct Hlev as (v & s & H1 & H2 & _); eauto. }
  destruct Hkeys as (v & s & Hv & Hs).
  destruct (core_snapshot_ok _ (all_settable_named _ (Hall (ChatMix.audio_calls w))))
    as (current & Hsnap).
  pose proof (chat_snapshot_names (audio (ChatMix.audio_calls w))) as Hnames.
  rewrite Hsnap in Hnames.
  unfold ChatMix.monitor_turn.
  destruct (ChatMix.monitor_thread w) eqn:Hth; try discriminate.
  - rewrite chat_monitor_prologue_run, Hnames. split; reflexivity.
  - destruct (chat_poll_with_new_names voice_apps exclude_apps audio w
                (set_map fst current) v s Hth Hex Hall Hv Hs Hnames)
      as (w' & t & Hturn & Halive' & _).
    unfold ChatMix.monitor_turn in Hturn. rewrite Hth in Hturn.
    rewrite Hturn. cbn [fst]. rewrite Halive'. split; reflexivity.
Qed.

(** Along a schedule without an interrupt the exit event stays unset and
    the session thread stays alive, while every session can be
    handled. *)
Lemma core_run_without_interrupt sched w :
  (forall k, Sessions.all_settable (audio k)) ->
  Interrupt ∉ sched ->
  CoreMix.exit_event (CoreMix.self w) = false ->
  is_alive (CoreMix.monitor_thread w) = true ->
  storing (CoreMix.monitor_thread w) = false ->
  CoreMix.exit_event (CoreMix.self (CoreMix.interleave audio usb sched w).1) = false /\
  is_alive (CoreMix.monitor_thread (CoreMix.interleave audio usb sched w).1) = true.
Proof.
  intros Hall. revert w. induction sched as [|who sched IH]; intros w Hno Hex Halive Hst.
  - split; assumption.
  - cbn [CoreMix.interleave].
    destruct (CoreMix.turn audio usb who w) as [w1 t1] eqn:Hturn.
    assert (Hw1 : CoreMix.exit_event (CoreMix.self w1) = false /\
                  is_alive (CoreMix.monitor_thread w1) = true /\
                  storing (CoreMix.monitor_thread w1) = false).
    { destruct who; cbn [CoreMix.turn] in Hturn.
      - destruct (core_usb_turn_thread audio usb w w1 t1 Hturn) as (He & Hm & _).
        rewrite He, Hm. split_and!; assumption.
      - destruct (core_monitor_turn_thread audio w w1 t1 Hturn) as (He & _).
        destruct (core_monitor_turn_alive w Hall Hex Halive Hst) as [Ha Hs].
        rewrite Hturn in Ha, Hs. rewrite He. split_and!; assumption.
      - exfalso. apply Hno. left. }
    destruct Hw1 as (Hex1 & Halive1 & Hst1).
    assert (Hno1 : Interrupt ∉ sched) by (intros H; apply Hno; right; exact H).
    specialize (IH w1 Hno1 Hex1 Halive1 Hst1).
    destruct (CoreMix.interleave audio usb sched w1) as [w2 t2]. exact IH.
Qed.

Lemma chat_run_without_interrupt sched w :
  (forall k, Sessions.all_settable (audio k)) ->
  Interrupt ∉ sched ->
  Table.chat_levels_by_readings usb w ->
  ChatMix.exit_event w = false ->
  is_alive (ChatMix.monitor_thread w) = true ->
  storing (ChatMix.monitor_thread w) = false ->
  ChatMix.exit_event
    (ChatMix.interleave voice_apps exclude_apps audio usb sched w).1 = false /\
  is_alive (ChatMix.monitor_thread
              (ChatMix.interleave voice_apps exclude_apps audio usb sched w).1) = true.
Proof.
  intros Hall. revert w.
  induction sched as [|who sched IH]; intros w Hno Hlev Hex Halive Hst.
  - split; assumption.
  - cbn [ChatMix.interleave].
    destruct (ChatMix.turn voice_apps exclude_apps audio usb who w) as [w1 t1] eqn:Hturn.
    pose proof (chat_levels_by_readings_step voice_apps exclude_apps audio usb
                  who w w1 t1 Hlev Hturn) as Hlev1.
    assert (Hw1 : ChatMix.exit_event w1 = false /\
                  is_alive (ChatMix.monitor_thread w1) = true /\
                  storing (ChatMix.monitor_thread w1) = false).
    { destruct who; cbn [ChatMix.turn] in Hturn.
      - destruct (chat_usb_turn_thread voice_apps exclude_apps audio usb w w1 t1 Hturn)
          as (He & Hm & _).
        rewrite He, Hm. split_and!; assumption.
      - destruct (chat_monitor_turn_thread voice_apps exclude_apps audio w w1 t1 Hturn)
          as (He & _).
        destruct (chat_monitor_turn_alive w Hall Hlev Hex Halive Hst) as [Ha Hs].
        rewrite Hturn in Ha, Hs. rewrite He. split_and!; assumption.
      - exfalso. apply Hno. left. }
    destruct Hw1 as (Hex1 & Halive1 & Hst1).
    assert (Hno1 : Interrupt ∉ sched) by (intros H; apply Hno; right; exact H).
    specialize (IH w1 Hno1 Hlev1 Hex1 Halive1 Hst1).
    destruct (ChatMix.interleave voice_apps exclude_apps audio usb sched w1) as [w2 t2].
    exact IH.
Qed.

(** X20.  Only the interrupt stops the program.  No thread sets the exit
    event: along any schedule of the two threads without an interrupt
    it stays unset, whatever the dial does.  And while every session can
    be handled, the session thread never ends on its own: when the dial
    thread has ended, for the device was unplugged or a report was too
    short, the session thread goes on polling.  Both variants. *)
Theorem session_thread_runs_until_interrupt sched :
  (forall k, Sessions.all_settable (audio k)) ->
  Interrupt ∉ sched ->
  let wc := (CoreMix.interleave audio usb sched
               (CoreMix.started (CoreMix.init voice_apps exclude_apps))).1 in
  let wm := (ChatMix.interleave voice_apps exclude_apps audio usb sched
               ChatMix.started).1 in
  CoreMix.exit_event (CoreMix.self wc) = false /\
  is_alive (CoreMix.monitor_thread wc) = true /\
  ChatMix.exit_event wm = false /\
  is_alive (ChatMix.monitor_thread wm) = true.
Proof.
  intros Hall Hno. cbn zeta.
  destruct (core_run_without_interrupt sched
              (CoreMix.started (CoreMix.init voice_apps exclude_apps)) Hall Hno
              eq_refl eq_refl eq_refl) as [H1 H2].
  destruct (chat_run_without_interrupt sched ChatMix.started Hall Hno) as [H3 H4];
    [|reflexivity..|].
  { exists 100, 100. split_and!; [reflexivity|reflexivity|left; split; reflexivity]. }
  split_and!; assumption.
Qed.

(** X21.  Identifiers are never retired.  Nothing removes an identifier
    from [voice_ids], and [set_volume_levels] tests [voice_ids] first and
    by identifier alone: once a process identifier is in [voice_ids],
    after any schedule every volume call on a session with that
    identifier carries the voice level, whatever the name of the process
    that owns the session then is.  A process that gets the identifier
    of a voice application that has gone is set as a voice
    application. *)
Theorem identifier_outlives_process i sched who w w1 t1 w' t' :
  i ∈ CoreMix.voice_ids (CoreMix.self w) ->
  CoreMix.interleave audio usb sched w = (w1, t1) ->
  CoreMix.turn audio usb who w1 = (w', t') ->
  i ∈ CoreMix.voice_ids (CoreMix.self w') /\
  forall session q,
    (session, q) ∈ volume_calls t' -> ProcessId session = i ->
    q = div100 (CoreMix.voice_level (CoreMix.self w')).
Proof.
  intros Hi Hrun Hturn.
  assert (Hi1 : i ∈ CoreMix.voice_ids (CoreMix.self w1)).
  { revert Hrun. apply (core_interleave_invariant audio usb
                          (fun w0 => i ∈ CoreMix.voice_ids (CoreMix.self w0)));
      [|exact Hi].
    intros who0 w0 w0' t0 H0 Ht0.
    destruct (core_turn_cases audio usb who0 w0 w0' t0 Ht0) as (_ & _ & Hmono & _).
    apply Hmono. exact H0. }
  destruct (core_turn_cases audio usb who w1 w' t' Hturn)
    as (_ & _ & Hmono & _ & _ & _ & _ & _ & Hcalls).
  split; [apply Hmono; exact Hi1|].
  intros session q Hin Hid. destruct (Hcalls session q Hin) as [_ Hl].
  unfold Table.class_of in Hl. rewrite Hid in Hl.
  rewrite decide_True in Hl by (apply Hmono; exact Hi1).
  cbn in Hl. congruence.
Qed.

End NeverDone.

Lemma case_no_interrupt : Interrupt ∉ Cases.unplugged_schedule.
Proof.
  unfold Cases.unplugged_schedule. intros H.
  repeat (apply elem_of_cons in H as [H|H]; [discriminate|]). inversion H.
Qed.

Lemma session_thread_runs_until_interrupt_witness :
  is_alive
    (CoreMix.monitor_thread
       (CoreMix.interleave Examples.audio_ABC Examples.usb_gone
          Cases.unplugged_schedule
          (CoreMix.started
             (CoreMix.init Examples.voice_names Examples.excluded_names))).1)
  = true.
Proof.
  exact (proj1 (proj2 (session_thread_runs_until_interrupt
                         Examples.voice_names Examples.excluded_names
                         Examples.audio_ABC Examples.usb_gone
                         Cases.unplugged_schedule
                         case_ABC_settable case_no_interrupt))).
Defined.

Lemma case_A_is_voice :
  1 ∈ CoreMix.voice_ids (CoreMix.self (Examples.in_loops Examples.table_ABC)).
Proof. cbn. set_solver. Qed.

Lemma identifier_outlives_process_witness :
  1 ∈ CoreMix.voice_ids
        (CoreMix.self
           (CoreMix.turn Cases.audio_reused Examples.usb_dial MonitorTurn
              (Examples.in_loops Examples.table_ABC)).1) /\
  forall session q,
    (session, q) ∈
    volume_calls
      (CoreMix.turn Cases.audio_reused Examples.usb_dial MonitorTurn
         (Examples.in_loops Examples.table_ABC)).2 ->
    ProcessId session = 1 ->
    q = div100
          (CoreMix.voice_level
             (CoreMix.self
                (CoreMix.turn Cases.audio_reused Examples.usb_dial MonitorTurn
                   (Examples.in_loops Examples.table_ABC)).1)).
Proof.
  exact (identifier_outlives_process
           Cases.audio_reused Examples.usb_dial 1 [] MonitorTurn
           (Examples.in_loops Examples.table_ABC) _ _ _ _
           case_A_is_voice eq_refl (surjective_pairing _)).
Defined.

(** ** Device discovery *)

Lemma find_descriptor_Some {A} (desc : list A) (custom_match : A -> bool) d :
  Usb.find_descriptor desc custom_match = Some d <->
  exists pre post,
    desc = pre ++ d :: post /\
    Forall (fun x => custom_match x = false) pre /\ custom_match d = true.
Proof.
  induction desc as [|x desc IH]; cbn.
  - split; [discriminate|]. intros (pre & post & H & _). destruct pre; discriminate.
  - destruct (custom_match x) eqn:Hx.
    + split.
      * intros [= ->]. exists [], desc. split_and!; [reflexivity|constructor|exact Hx].
      * intros (pre & post & H & Hpre & Hd). destruct pre as [|y pre].
        -- injection H as -> _. reflexivity.
        -- injection H as -> _. apply Forall_cons in Hpre as [Hy _]. congruence.
    + rewrite IH. split.
      * intros (pre & post & -> & Hpre & Hd). exists (x :: pre), post.
        split_and!; [reflexivity|constructor; assumption|exact Hd].
      * intros (pre & post & H & Hpre & Hd). destruct pre as [|y pre].
        -- injection H as -> _. congruence.
        -- injection H as -> ->. apply Forall_cons in Hpre as [_ Hpre].
           exists pre, post. split_and!; [reflexivity|exact Hpre|exact Hd].
Qed.

Lemma find_descriptor_None {A} (desc : list A) (custom_match : A -> bool) :
  Usb.find_descriptor desc custom_match = None <->
  Forall (fun x => custom_match x = false) desc.
Proof.
  induction desc as [|x desc IH]; cbn.
  - split; [constructor|reflexivity].
  - destruct (custom_match x) eqn:Hx.
    + split; [discriminate|]. intros H. apply Forall_cons in H as [H _]. congruence.
    + rewrite IH. split; [intros H; constructor; assumption|].
      intros H. apply Forall_cons in H as [_ H]. exact H.
Qed.

(** The inner loop finds the first interface of the configuration with
    the number, and otherwise leaves [interface] as it was. *)
Lemma scan_configuration_find n cfg interface :
  Usb.scan_configuration n cfg interface =
  match Usb.find_descriptor cfg (fun intf => Json.int_eq (Usb.bInterfaceNumber intf) n) with
  | Some intf => Some intf
  | None => interface
  end.
Proof.
  induction cfg as [|intf cfg IH]; cbn; [reflexivity|].
  destruct (Json.int_eq _ n); [reflexivity|exact IH].
Qed.

Lemma find_descriptor_app {A} (l1 l2 : list A) (custom_match : A -> bool) :
  Usb.find_descriptor (l1 ++ l2) custom_match =
  match Usb.find_descriptor l1 custom_match with
  | Some d => Some d
  | None => Usb.find_descriptor l2 custom_match
  end.
Proof.
  induction l1 as [|x l1 IH]; cbn; [reflexivity|].
  destruct (custom_match x); [reflexivity|exact IH].
Qed.

(** From [None], the two loops find the first interface of the device
    with the number, in the order of iteration. *)
Lemma scan_device_find n cfgs :
  Usb.scan_device n cfgs None =
  Usb.find_descriptor (concat cfgs)
    (fun intf => Json.int_eq (Usb.bInterfaceNumber intf) n).
Proof.
  induction cfgs as [|cfg cfgs IH]; cbn; [reflexivity|].
  rewrite scan_configuration_find, find_descriptor_app.
  destruct (Usb.find_descriptor cfg _); [reflexivity|exact IH].
Qed.

Lemma elem_of_concat {A} (x : A) (ls : list (list A)) :
  x ∈ concat ls -> exists l, l ∈ ls /\ x ∈ l.
Proof.
  induction ls as [|l ls IH]; cbn; [intros H; inversion H|].
  rewrite elem_of_app. intros [H|H].
  - exists l. split; [left|exact H].
  - destruct (IH H) as (l' & Hl' & Hx). exists l'. split; [right; exact Hl'|exact Hx].
Qed.

Lemma endpoint_direction_in address :
  Usb.endpoint_direction address = Usb.ENDPOINT_IN <-> Z.testbit address 7 = true.
Proof.
  unfold Usb.endpoint_direction, Usb.ENDPOINT_IN. split.
  - intros H. assert (H7 : Z.testbit (Z.land address 128) 7 = true)
      by (rewrite H; reflexivity).
    rewrite Z.land_spec in H7. apply andb_true_iff in H7 as [H7 _]. exact H7.
  - intros H. apply Z.bits_inj'. intros k Hk. rewrite Z.land_spec.
    destruct (Z.eq_dec k 7) as [->|Hne]; [rewrite H; reflexivity|].
    replace (Z.testbit 128 k) with false; [apply andb_false_r|].
    symmetry. change 128 with (2 ^ 7). apply Z.pow2_bits_false. congruence.
Qed.

(** A discovery that returns has found what was asked for. *)
Lemma find_usb_device_sound found interface_number endpoint_address self :
  Usb.find_usb_device found interface_number endpoint_address Usb.init = (None, self) ->
  exists d cfg intf e,
    found = Some d /\ Usb.set_configuration d = Ok tt /\
    self = {| Usb.dev := Some d; Usb.interface := Some intf; Usb.endpoint := Some e |} /\
    cfg ∈ Usb.configurations d /\ intf ∈ cfg /\
    Json.int_eq (Usb.bInterfaceNumber intf) interface_number = true /\
    e ∈ Usb.endpoints intf /\
    Json.int_eq (Usb.bEndpointAddress e) endpoint_address = true /\
    Z.testbit (Usb.bEndpointAddress e) 7 = true.
Proof.
  unfold Usb.find_usb_device. destruct found as [d|]; [|discriminate].
  destruct (Usb.set_configuration d) as [[]|e0] eqn:Hset; [|discriminate].
  cbn [Usb.interface Usb.set_interface Usb.set_dev Usb.init].
  rewrite scan_device_find.
  destruct (Usb.find_descriptor (concat _) _) as [intf|] eqn:Hintf; [|discriminate].
  cbn [Usb.endpoint Usb.set_endpoint].
  destruct (Usb.find_descriptor (Usb.endpoints intf) _) as [e|] eqn:He; [|discriminate].
  intros [= <-].
  apply find_descriptor_Some in Hintf as (pre & post & Hcat & _ & Hn).
  apply find_descriptor_Some in He as (pre' & post' & Hends & _ & Hm).
  assert (Hin : intf ∈ concat (Usb.configurations d)).
  { rewrite Hcat. apply elem_of_app. right. left. }
  apply elem_of_concat in Hin as (cfg & Hcfg & Hin).
  apply andb_true_iff in Hm as [Hdir Haddr]. apply Z.eqb_eq in Hdir.
  exists d, cfg, intf, e. split_and!; try reflexivity; try assumption.
  - rewrite Hends. apply elem_of_app. right. left.
  - apply endpoint_direction_in. exact Hdir.
Qed.

(** X13.  Discovery stands by the first interface with the number, in
    the order in which the device gives its configurations and these
    their interfaces.  If no interface has the number, [ValueError]
    (no interface) is raised.  Otherwise the endpoint is looked for on
    that first interface only: discovery succeeds exactly when it has an
    IN endpoint with the address, and raises [ValueError] (no endpoint)
    when it has not, whatever later interfaces with the same number
    hold. *)
Theorem discovery_uses_first_interface d interface_number endpoint_address :
  Usb.set_configuration d = Ok tt ->
  let outcome :=
    (Usb.find_usb_device (Some d) interface_number endpoint_address Usb.init).1 in
  (Forall (fun intf => Json.int_eq (Usb.bInterfaceNumber intf) interface_number = false)
     (concat (Usb.configurations d)) ->
   outcome = Some (Usb.ValueError Usb.InterfaceNotFound)) /\
  (forall pre intf post,
     concat (Usb.configurations d) = pre ++ intf :: post ->
     Forall (fun i => Json.int_eq (Usb.bInterfaceNumber i) interface_number = false) pre ->
     Json.int_eq (Usb.bInterfaceNumber intf) interface_number = true ->
     (outcome = None \/ outcome = Some (Usb.ValueError Usb.EndpointNotFound)) /\
     (outcome = None <->
      exists e, e ∈ Usb.endpoints intf /\
                Json.int_eq (Usb.bEndpointAddress e) endpoint_address = true /\
                Z.testbit (Usb.bEndpointAddress e) 7 = true)).
Proof.
  intros Hset outcome. subst outcome. unfold Usb.find_usb_device. rewrite Hset.
  cbn [Usb.interface Usb.set_interface Usb.set_dev Usb.init].
  rewrite scan_device_find. split.
  - intros Hnone. apply find_descriptor_None in Hnone. rewrite Hnone. reflexivity.
  - intros pre intf post Hcat Hpre Hintf.
    assert (Hfind : Usb.find_descriptor (concat (Usb.configurations d))
                      (fun i => Json.int_eq (Usb.bInterfaceNumber i) interface_number)
                    = Some intf).
    { apply find_descriptor_Some. exists pre, post. split_and!; assumption. }
    rewrite Hfind. cbn [Usb.endpoint Usb.set_endpoint].
    destruct (Usb.find_descriptor (Usb.endpoints intf) _) as [e|] eqn:He; cbn [fst].
    + split; [left; reflexivity|]. split; [intros _|reflexivity].
      apply find_descriptor_Some in He as (pre' & post' & Hends & _ & Hm).
      apply andb_true_iff in Hm as [Hdir Haddr]. apply Z.eqb_eq in Hdir.
      exists e. split_and!; [|exact Haddr|apply endpoint_direction_in; exact Hdir].
      rewrite Hends. apply elem_of_app. right. left.
    + split; [right; reflexivity|]. split; [discriminate|].
      intros (e & Hin & Haddr & Hbit). exfalso.
      apply find_descriptor_None in He. rewrite Forall_forall in He.
      specialize (He e Hin). unfold Usb.endpoint_match in He.
      rewrite Haddr, andb_true_r in He. apply Z.eqb_neq in He. apply He.
      apply endpoint_direction_in. exact Hbit.
Qed.

(** X12.  When [find_usb_device] returns, called on a new object as
    [__init__] does (and so for the same statements of chatmix's
    [main]): a device was found and configured; the interface kept is
    one of the device, with the number asked for; the endpoint kept is
    one of that interface, has the address asked for, and is an IN
    endpoint (bit 7 of its address is set).  So an OUT address can never
    be bound. *)
Theorem found_device_matches_request found interface_number endpoint_address self :
  Usb.find_usb_device found interface_number endpoint_address Usb.init = (None, self) ->
  exists d cfg intf e,
    found = Some d /\ Usb.set_configuration d = Ok tt /\
    self = {| Usb.dev := Some d; Usb.interface := Some intf; Usb.endpoint := Some e |} /\
    cfg ∈ Usb.configurations d /\ intf ∈ cfg /\
    Json.int_eq (Usb.bInterfaceNumber intf) interface_number = true /\
    e ∈ Usb.endpoints intf /\
    Json.int_eq (Usb.bEndpointAddress e) endpoint_address = true /\
    Z.testbit (Usb.bEndpointAddress e) 7 = true.
Proof. apply find_usb_device_sound. Qed.


Lemma found_device_matches_request_witness :
  exists d cfg intf e,
    Some Cases.headset = Some d /\ Usb.set_configuration d = Ok tt /\
    (Usb.find_usb_device (Some Cases.headset) (Json.Int 5) (Json.Int 0x86) Usb.init).2
    = {| Usb.dev := Some d; Usb.interface := Some intf; Usb.endpoint := Some e |} /\
    cfg ∈ Usb.configurations d /\ intf ∈ cfg /\
    Json.int_eq (Usb.bInterfaceNumber intf) (Json.Int 5) = true /\
    e ∈ Usb.endpoints intf /\
    Json.int_eq (Usb.bEndpointAddress e) (Json.Int 0x86) = true /\
    Z.testbit (Usb.bEndpointAddress e) 7 = true.
Proof.
  exact (found_device_matches_request (Some Cases.headset) (Json.Int 5)
           (Json.Int 0x86) _ eq_refl).
Defined.

Lemma discovery_uses_first_interface_witness :
  (Usb.find_usb_device (Some Cases.headset) (Json.Int 5) (Json.Int 0x86) Usb.init).1
  = None.
Proof.
  apply (proj2 (proj2 (discovery_uses_first_interface Cases.headset (Json.Int 5)
                         (Json.Int 0x86) eq_refl)
                  [Cases.interface_0] Cases.interface_5 [Cases.interface_5_alt]
                  eq_refl ltac:(repeat constructor) eq_refl)).
  exists Cases.endpoint_in. split_and!; [right; left|reflexivity..].
Defined.

(** ** The configuration file *)

Section LoadConfig.
Variable int_10 : string -> option Z.
Variable int_16 : string -> option Z.


(** What [convert_hex] can return. *)
Lemma convert_hex_cases value :
  (Config.convert_hex int_10 int_16 value).1 = None /\
    (exists s, value = Json.Str s /\ String.prefix "0x" s = false /\ int_10 s = None) \/
  (Config.convert_hex int_10 int_16 value).1 = Some value \/
  exists s n,
    value = Json.Str s /\ (Config.convert_hex int_10 int_16 value).1 = Some (Json.Int n) /\
    (if String.prefix "0x" s then int_16 s else int_10 s) = Some n.
Proof.
  destruct value; try (right; left; reflexivity).
  cbn. destruct (String.prefix "0x" s) eqn:Hp.
  - destruct (int_16 s) as [n|] eqn:Hn; [|right; left; reflexivity].
    right. right. exists s, n. rewrite Hp. split_and!; reflexivity || assumption.
  - destruct (int_10 s) as [n|] eqn:Hn.
    + right. right. exists s, n. rewrite Hp. split_and!; reflexivity || assumption.
    + left. split; [reflexivity|]. exists s. split_and!; reflexivity || assumption.
Qed.

Lemma convert_entry_run key config :
  Config.convert_entry int_10 int_16 key config =
  match config !! key with
  | None => (true, config, [])
  | Some v =>
      match (Config.convert_hex int_10 int_16 v).1 with
      | Some v' => (true, <[ key := v' ]> config, (Config.convert_hex int_10 int_16 v).2)
      | None => (false, config, (Config.convert_hex int_10 int_16 v).2)
      end
  end.
Proof.
  unfold Config.convert_entry. destruct (config !! key) as [v|]; [|reflexivity].
  destruct (Config.convert_hex int_10 int_16 v) as [[v'|] logs]; reflexivity.
Qed.

Lemma convert_entry_changes key config :
  dom (Config.convert_entry int_10 int_16 key config).1.2 = dom config /\
  Config.changes int_10 int_16 [key] config (Config.convert_entry int_10 int_16 key config).1.2 /\
  forall k, k <> key -> (Config.convert_entry int_10 int_16 key config).1.2 !! k = config !! k.
Proof.
  rewrite convert_entry_run. destruct (config !! key) as [v|] eqn:Hv.
  - destruct (convert_hex_cases v) as [[Hc _]|[Hc|(s & n & -> & Hc & Hn)]]; rewrite Hc; cbn.
    + split_and!; [reflexivity|intros k; left; reflexivity|reflexivity].
    + rewrite insert_id by exact Hv.
      split_and!; [reflexivity|intros k; left; reflexivity|reflexivity].
    + split_and!.
      * rewrite dom_insert_L. apply elem_of_dom_2 in Hv. set_solver.
      * intros k. destruct (decide (k = key)) as [->|Hne].
        -- right. split; [left|]. exists s, n. rewrite lookup_insert_eq.
           split_and!; reflexivity || assumption.
        -- left. apply lookup_insert_ne. congruence.
      * intros k Hne. apply lookup_insert_ne. congruence.
  - cbn. split_and!; [reflexivity|intros k; left; reflexivity|reflexivity].
Qed.

(** What [load_config] does to a file that was read. *)
Lemma load_config_changes config :
  dom (Config.load_config int_10 int_16 (Config.Loaded config)).1 = dom config /\
  Config.changes int_10 int_16 Config.converted_keys config
    (Config.load_config int_10 int_16 (Config.Loaded config)).1.
Proof.
  unfold Config.load_config.
  destruct (convert_entry_changes "vendor_id" config) as (Hd1 & Hc1 & Hk1).
  destruct (Config.convert_entry int_10 int_16 "vendor_id" config) as [[ok1 c1] l1].
  cbn [fst snd] in *.
  destruct (convert_entry_changes "product_id" c1) as (Hd2 & Hc2 & Hk2).
  destruct (Config.convert_entry int_10 int_16 "product_id" c1) as [[ok2 c2] l2].
  cbn [fst snd] in *.
  destruct (convert_entry_changes "endpoint_address" c2) as (Hd3 & Hc3 & Hk3).
  destruct (Config.convert_entry int_10 int_16 "endpoint_address" c2) as [[ok3 c3] l3].
  cbn [fst snd] in *.
  assert (H1 : Config.changes int_10 int_16 Config.converted_keys config c1).
  { intros k. destruct (Hc1 k) as [H|(Hin & H)]; [left; exact H|right].
    split; [|exact H]. apply list_elem_of_singleton in Hin as ->. left. }
  assert (H2 : Config.changes int_10 int_16 Config.converted_keys config c2).
  { intros k. destruct (Hc2 k) as [H|(Hin & s & n & Hs & Hn & Hconv)].
    - rewrite H. apply H1.
    - apply list_elem_of_singleton in Hin as ->. right.
      split; [right; left|]. exists s, n. rewrite <- Hk1 by discriminate.
      split_and!; assumption. }
  assert (H3 : Config.changes int_10 int_16 Config.converted_keys config c3).
  { intros k. destruct (Hc3 k) as [H|(Hin & s & n & Hs & Hn & Hconv)].
    - rewrite H. apply H2.
    - apply list_elem_of_singleton in Hin as ->. right.
      split; [right; right; left|]. exists s, n.
      rewrite <- Hk1, <- Hk2 by discriminate.
      split_and!; assumption. }
  destruct ok1; [|split; [exact Hd1|exact H1]].
  destruct ok2; [|cbn [fst]; split; [rewrite Hd2; exact Hd1|exact H2]].
  destruct ok3; cbn [fst]; (split; [rewrite Hd3, Hd2; exact Hd1|exact H3]).
Qed.

(** X14.  [load_config] on a file that was read: the dict it returns
    has the keys of the file, no more and no fewer, and every entry is
    as in the file, but that a string under ["vendor_id"],
    ["product_id"] or ["endpoint_address"] may have become the integer
    that [int] makes of it, read in base 16 when the string starts with
    ["0x"] and in base 10 otherwise.  So ["interface_number"] is never
    converted, a value that is no string is never touched, and a string
    that is left is a string still. *)
Theorem load_config_converts_identifiers_only config :
  dom (Config.load_config int_10 int_16 (Config.Loaded config)).1 = dom config /\
  Config.changes int_10 int_16 Config.converted_keys config
    (Config.load_config int_10 int_16 (Config.Loaded config)).1.
Proof. apply load_config_changes. Qed.

Lemma convert_entry_ok key config :
  Config.convertible int_10 int_16 config [key] ->
  (Config.convert_entry int_10 int_16 key config).1.1 = true /\
  (Config.convert_entry int_10 int_16 key config).2 = Config.logged int_10 int_16 config key /\
  (Config.convert_entry int_10 int_16 key config).1.2 !! key
  = Config.converted int_10 int_16 config key.
Proof.
  intros Hconv. rewrite convert_entry_run. unfold Config.logged, Config.converted.
  destruct (config !! key) as [v|] eqn:Hv; [|split_and!; [reflexivity..|]; cbn; exact Hv].
  pose proof (Hconv key v ltac:(left) Hv) as Hne.
  destruct (Config.convert_hex int_10 int_16 v).1 as [v'|]; [|contradiction]. cbn.
  split_and!; [reflexivity..|apply lookup_insert_eq].
Qed.

Lemma convert_entry_fails key config s :
  config !! key = Some (Json.Str s) -> String.prefix "0x" s = false ->
  int_10 s = None ->
  Config.convert_entry int_10 int_16 key config = (false, config, []).
Proof.
  intros Hv Hp Hn. unfold Config.convert_entry. rewrite Hv. cbn. rewrite Hp, Hn.
  reflexivity.
Qed.

Lemma converted_frame key k config :
  k <> key ->
  Config.converted int_10 int_16 (Config.convert_entry int_10 int_16 key config).1.2 k
  = Config.converted int_10 int_16 config k.
Proof.
  intros Hne. unfold Config.converted.
  destruct (convert_entry_changes key config) as (_ & _ & Hk). rewrite Hk by exact Hne.
  reflexivity.
Qed.

Lemma logged_frame key k config :
  k <> key ->
  Config.logged int_10 int_16 (Config.convert_entry int_10 int_16 key config).1.2 k
  = Config.logged int_10 int_16 config k.
Proof.
  intros Hne. unfold Config.logged.
  destruct (convert_entry_changes key config) as (_ & _ & Hk). rewrite Hk by exact Hne.
  reflexivity.
Qed.

Lemma convertible_frame key k config :
  k <> key -> Config.convertible int_10 int_16 config [k] ->
  Config.convertible int_10 int_16
    (Config.convert_entry int_10 int_16 key config).1.2 [k].
Proof.
  intros Hne Hc key' v Hin. apply list_elem_of_singleton in Hin as ->.
  destruct (convert_entry_changes key config) as (_ & _ & Hk). rewrite Hk by exact Hne.
  apply Hc. left.
Qed.

(** X15.  When no string under the three keys makes [int(value)]
    raise, [load_config] converts each of the three entries as
    [convert_hex] does on its own, whatever the other entries are, and
    logs what the three conversions log, in their order.  A string that
    starts with ["0x"] and is no hexadecimal number does not stop the
    conversion: it is left in place as a string, with one warning. *)
Theorem load_config_converts_each_identifier config :
  Config.convertible int_10 int_16 config Config.converted_keys ->
  (forall key, key ∈ Config.converted_keys ->
     (Config.load_config int_10 int_16 (Config.Loaded config)).1 !! key
     = Config.converted int_10 int_16 config key) /\
  (Config.load_config int_10 int_16 (Config.Loaded config)).2
  = flat_map (Config.logged int_10 int_16 config) Config.converted_keys.
Proof.
  intros Hconv.
  assert (Hv : Config.convertible int_10 int_16 config ["vendor_id"%string])
    by (intros k v Hk; apply Hconv; apply list_elem_of_singleton in Hk as ->; left).
  assert (Hp : Config.convertible int_10 int_16 config ["product_id"%string])
    by (intros k v Hk; apply Hconv; apply list_elem_of_singleton in Hk as ->;
        right; left).
  assert (He : Config.convertible int_10 int_16 config ["endpoint_address"%string])
    by (intros k v Hk; apply Hconv; apply list_elem_of_singleton in Hk as ->;
        right; right; left).
  unfold Config.load_config.
  destruct (convert_entry_ok "vendor_id" config Hv) as (Ho1 & Hl1 & Hr1).
  pose proof (convertible_frame "vendor_id" "product_id" config ltac:(discriminate) Hp) as Hp1.
  pose proof (convertible_frame "vendor_id" "endpoint_address" config
                ltac:(discriminate) He) as He1.
  pose proof (converted_frame "vendor_id" "product_id" config ltac:(discriminate)) as Hcp1.
  pose proof (converted_frame "vendor_id" "endpoint_address" config
                ltac:(discriminate)) as Hce1.
  pose proof (logged_frame "vendor_id" "product_id" config ltac:(discriminate)) as Hlp1.
  pose proof (logged_frame "vendor_id" "endpoint_address" config
                ltac:(discriminate)) as Hle1.
  destruct (Config.convert_entry int_10 int_16 "vendor_id" config) as [[ok1 c1] l1].
  cbn [fst snd] in *.
  subst ok1 l1.
  destruct (convert_entry_ok "product_id" c1 Hp1) as (Ho2 & Hl2 & Hr2).
  pose proof (convertible_frame "product_id" "endpoint_address" c1
                ltac:(discriminate) He1) as He2.
  pose proof (converted_frame "product_id" "endpoint_address" c1
                ltac:(discriminate)) as Hce2.
  pose proof (logged_frame "product_id" "endpoint_address" c1
                ltac:(discriminate)) as Hle2.
  destruct (convert_entry_changes "product_id" c1) as (_ & _ & Hk2).
  destruct (Config.convert_entry int_10 int_16 "product_id" c1) as [[ok2 c2] l2].
  cbn [fst snd] in *.
  subst ok2 l2.
  destruct (convert_entry_ok "endpoint_address" c2 He2) as (Ho3 & Hl3 & Hr3).
  destruct (convert_entry_changes "endpoint_address" c2) as (_ & _ & Hk3).
  destruct (Config.convert_entry int_10 int_16 "endpoint_address" c2) as [[ok3 c3] l3].
  cbn [fst snd] in *.
  subst ok3 l3. cbn [fst snd]. split.
  - intros key Hin. unfold Config.converted_keys in Hin.
    apply elem_of_cons in Hin as [->|Hin];
      [|apply elem_of_cons in Hin as [->|Hin];
        [|apply list_elem_of_singleton in Hin as ->]].
    + rewrite Hk3, Hk2 by discriminate. exact Hr1.
    + rewrite Hk3 by discriminate. rewrite Hr2. exact Hcp1.
    + rewrite Hr3, Hce2. exact Hce1.
  - cbn [flat_map Config.converted_keys]. rewrite app_nil_r.
    rewrite Hlp1, Hle2, Hle1. reflexivity.
Qed.

(** X16.  A string that does not start with ["0x"] and that [int]
    rejects stops the conversion where it stands: the [ValueError]
    leaves the [try], is logged, and the dict is returned as it is then.
    The entries before it, in the order vendor, product, endpoint, are
    converted; it and the entries after it are as in the file, so a
    later hexadecimal string is returned unconverted. *)
Theorem load_config_stops_at_bad_number config before key after s :
  Config.converted_keys = before ++ key :: after ->
  Config.convertible int_10 int_16 config before ->
  config !! key = Some (Json.Str s) ->
  String.prefix "0x" s = false ->
  int_10 s = None ->
  let result := (Config.load_config int_10 int_16 (Config.Loaded config)).1 in
  (forall k, k ∈ before -> result !! k = Config.converted int_10 int_16 config k) /\
  (forall k, k ∈ key :: after -> result !! k = config !! k) /\
  (Config.load_config int_10 int_16 (Config.Loaded config)).2
  = flat_map (Config.logged int_10 int_16 config) before ++ [Config.LogException].
Proof.
  intros Hkeys Hconv Hv Hp Hn. cbn zeta. unfold Config.load_config.
  unfold Config.converted_keys in Hkeys.
  destruct before as [|k1 before].
  { injection Hkeys as <- <-.
    rewrite (convert_entry_fails _ _ _ Hv Hp Hn). cbn.
    split_and!; [intros k Hk; inversion Hk|reflexivity..]. }
  injection Hkeys as <- Hkeys.
  assert (Hv1 : Config.convertible int_10 int_16 config ["vendor_id"%string])
    by (intros k v Hk; apply Hconv; apply list_elem_of_singleton in Hk as ->; left).
  destruct (convert_entry_ok "vendor_id" config Hv1) as (Ho1 & Hl1 & Hr1).
  destruct (convert_entry_changes "vendor_id" config) as (_ & _ & Hk1).
  pose proof (converted_frame "vendor_id" "product_id" config ltac:(discriminate)) as Hcp1.
  pose proof (logged_frame "vendor_id" "product_id" config ltac:(discriminate)) as Hlp1.
  pose proof (convertible_frame "vendor_id" "product_id" config ltac:(discriminate)) as Hf1.
  destruct (Config.convert_entry int_10 int_16 "vendor_id" config) as [[ok1 c1] l1].
  cbn [fst snd] in *.
  subst ok1 l1.
  destruct before as [|k2 before].
  { injection Hkeys as <- <-.
    assert (Hv' : c1 !! "product_id"%string = Some (Json.Str s))
      by (rewrite Hk1 by discriminate; exact Hv).
    rewrite (convert_entry_fails _ _ _ Hv' Hp Hn). cbn [fst snd flat_map].
    split_and!.
    - intros k Hk. apply list_elem_of_singleton in Hk as ->. exact Hr1.
    - intros k Hk. apply Hk1. intros ->. set_solver.
    - rewrite app_nil_r. reflexivity. }
  injection Hkeys as <- Hkeys.
  assert (Hv2 : Config.convertible int_10 int_16 config ["product_id"%string])
    by (intros k v Hk; apply Hconv; apply list_elem_of_singleton in Hk as ->;
        right; left).
  destruct (convert_entry_ok "product_id" c1 (Hf1 Hv2)) as (Ho2 & Hl2 & Hr2).
  destruct (convert_entry_changes "product_id" c1) as (_ & _ & Hk2).
  destruct (Config.convert_entry int_10 int_16 "product_id" c1) as [[ok2 c2] l2].
  cbn [fst snd] in *.
  subst ok2 l2.
  destruct before as [|k3 before].
  { injection Hkeys as <- <-.
    assert (Hv' : c2 !! "endpoint_address"%string = Some (Json.Str s))
      by (rewrite Hk2, Hk1 by discriminate; exact Hv).
    rewrite (convert_entry_fails _ _ _ Hv' Hp Hn). cbn [fst snd flat_map].
    split_and!.
    - intros k Hk. apply elem_of_cons in Hk as [->|Hk];
        [|apply list_elem_of_singleton in Hk as ->].
      + rewrite Hk2 by discriminate. exact Hr1.
      + rewrite Hr2. exact Hcp1.
    - intros k Hk. apply list_elem_of_singleton in Hk as ->.
      rewrite Hk2, Hk1 by discriminate. reflexivity.
    - rewrite Hlp1, !app_nil_r. cbn [app]. rewrite <- app_assoc. reflexivity. }
  exfalso. destruct before; discriminate.
Qed.

End LoadConfig.

Lemma case_mixed_convertible :
  Config.convertible Cases.int_10 Cases.int_16 Cases.config_mixed Config.converted_keys.
Proof.
  intros key v Hin. unfold Config.converted_keys in Hin.
  repeat (apply elem_of_cons in Hin as [->|Hin]); [..|inversion Hin];
    vm_compute; intros [= <-]; discriminate.
Qed.

Lemma load_config_converts_each_identifier_witness :
  (Config.load_config Cases.int_10 Cases.int_16 (Config.Loaded Cases.config_mixed)).2
  = [Config.LogWarning].
Proof.
  rewrite (proj2 (load_config_converts_each_identifier Cases.int_10 Cases.int_16
                    Cases.config_mixed case_mixed_convertible)).
  vm_compute. reflexivity.
Defined.

Lemma case_bad_vendor_convertible :
  Config.convertible Cases.int_10 Cases.int_16 Cases.config_bad ["vendor_id"%string].
Proof.
  intros key v Hin. apply list_elem_of_singleton in Hin as ->.
  vm_compute. intros [= <-]. discriminate.
Qed.

Lemma load_config_stops_at_bad_number_witness :
  (Config.load_config Cases.int_10 Cases.int_16 (Config.Loaded Cases.config_bad)).2
  = [Config.LogException].
Proof.
  rewrite (proj2 (proj2 (load_config_stops_at_bad_number Cases.int_10 Cases.int_16
                           Cases.config_bad ["vendor_id"%string] "product_id"%string
                           ["endpoint_address"%string] "two"%string
                           eq_refl case_bad_vendor_convertible eq_refl eq_refl eq_refl))).
  vm_compute. reflexivity.
Defined.

(** ** Start-up as a whole *)

Lemma int_eq_Int n m : Json.int_eq n (Json.Int m) = true -> n = m.
Proof. cbn. apply Z.eqb_eq. Qed.

Section Startup.
Variable int_10 : string -> option Z.
Variable int_16 : string -> option Z.
Variable find : Json.Value -> Json.Value -> option Usb.Device.
Variable files : string -> Config.File.

(** A start-up that returns has passed discovery with the values it was
    given. *)
Lemma discover_sound vendor_id product_id interface_number endpoint_address
    voice_apps exclude_apps st :
  Main.discover find vendor_id product_id interface_number endpoint_address
    voice_apps exclude_apps = inr st ->
  Json.str_set voice_apps = Some (Main.voice_names st) /\
  Json.str_set exclude_apps = Some (Main.exclude_names st) /\
  exists intf e,
    Usb.interface (Main.handles st) = Some intf /\
    Usb.endpoint (Main.handles st) = Some e /\
    Json.int_eq (Usb.bInterfaceNumber intf) interface_number = true /\
    Json.int_eq (Usb.bEndpointAddress e) endpoint_address = true.
Proof.
  unfold Main.discover.
  destruct (Json.str_set voice_apps) as [voice|]; [|discriminate].
  destruct (Json.str_set exclude_apps) as [exclude|]; [|discriminate].
  destruct (Usb.find_usb_device _ _ _ _) as [[f|] self] eqn:Hfind; [discriminate|].
  intros [= <-]. cbn. split_and!; [reflexivity..|].
  destruct (find_usb_device_sound _ _ _ _ Hfind)
    as (d & cfg & intf & e & _ & _ & -> & _ & _ & Hn & _ & Ha & _).
  exists intf, e. split_and!; reflexivity || assumption.
Qed.

Lemma load_config_keeps config key :
  key ∉ Config.converted_keys ->
  (Config.load_config int_10 int_16 (Config.Loaded config)).1 !! key = config !! key.
Proof.
  intros Hkey. destruct (load_config_changes int_10 int_16 config) as [_ Hch].
  destruct (Hch key) as [H|[Hin _]]; [exact H|contradiction].
Qed.

Lemma load_config_keeps_string config key s :
  config !! key = Some (Json.Str s) ->
  (if String.prefix "0x" s then int_16 s else int_10 s) = None ->
  (Config.load_config int_10 int_16 (Config.Loaded config)).1 !! key
  = Some (Json.Str s).
Proof.
  intros Hv Hconv. destruct (load_config_changes int_10 int_16 config) as [_ Hch].
  destruct (Hch key) as [H|(_ & s' & n & Hs' & _ & Hn)]; [rewrite H; exact Hv|].
  rewrite Hv in Hs'. injection Hs' as <-. congruence.
Qed.

(** X17.  A string is no interface number and no endpoint address.
    [load_config] never converts ["interface_number"], and it leaves an
    ["endpoint_address"] that [int] cannot read as it is; discovery
    compares the integers of the descriptors with [==], and an integer
    equals no string.  So with a file that gives the interface number as
    a string, ["5"] as any other, or such an endpoint address, chatmix's
    [main] never gets past discovery, and neither does coremix when the
    command line gives neither value, whatever the device. *)
Theorem string_setting_fails_discovery path config s :
  files path = Config.Loaded config ->
  (config !! "interface_number"%string = Some (Json.Str s) \/
   (config !! "endpoint_address"%string = Some (Json.Str s) /\
    (if String.prefix "0x" s then int_16 s else int_10 s) = None)) ->
  (forall st, (Main.chat_main int_10 int_16 find files path).1 <> inr st) /\
  (forall args st c rest,
     Main.config args = Some (String c rest) -> path = String c rest ->
     Main.interface_number args = None -> Main.endpoint_address args = None ->
     (Main.core_main int_10 int_16 find files args).1 <> inr st).
Proof.
  intros Hfile Hbad.
  assert (Hres :
    exists k, (k = "interface_number"%string \/ k = "endpoint_address"%string) /\
      (Config.load_config int_10 int_16 (files path)).1 !! k = Some (Json.Str s)).
  { rewrite Hfile. destruct Hbad as [Hi|[He Hconv]].
    - exists "interface_number"%string. split; [left; reflexivity|].
      rewrite load_config_keeps; [exact Hi|].
      unfold Config.converted_keys. set_solver.
    - exists "endpoint_address"%string. split; [right; reflexivity|].
      apply load_config_keeps_string; assumption. }
  destruct Hres as (k & Hk & Hres). split.
  - intros st. unfold Main.chat_main.
    destruct (Config.load_config int_10 int_16 (files path)) as [cfg logs].
    cbn [fst] in *. intros Hst.
    destruct (discover_sound _ _ _ _ _ _ _ Hst) as (_ & _ & intf & e & _ & _ & Hn & Ha).
    unfold Main.get in Hn, Ha. destruct Hk as [-> | ->]; rewrite Hres in *; discriminate.
  - intros args st c rest Hcfg -> Hin Hea. unfold Main.core_main.
    rewrite Hcfg, Hin, Hea.
    destruct (Config.load_config int_10 int_16 (files (String c rest))) as [cfg logs].
    cbn [fst Main.int_or] in *. intros Hst.
    destruct (discover_sound _ _ _ _ _ _ _ Hst) as (_ & _ & intf & e & _ & _ & Hn & Ha).
    unfold Main.get in Hn, Ha. destruct Hk as [-> | ->]; rewrite Hres in *; discriminate.
Qed.

(** X18.  The command line of coremix.py.  [args.x or config.get(...)]
    takes the command line's value when it is true: a non-zero interface
    number or endpoint address stands, whatever the file says, and is
    the number of the interface and the address of the endpoint that a
    successful start-up has bound.  The value 0 is false: with no
    configuration file, [--interface_number 0] binds interface 5 and
    [--endpoint_address 0] the endpoint 0x86, the defaults. *)
Theorem command_line_zero_is_not_given args st logs :
  Main.core_main int_10 int_16 find files args = (inr st, logs) ->
  exists intf e,
    Usb.interface (Main.handles st) = Some intf /\
    Usb.endpoint (Main.handles st) = Some e /\
    (forall n, Main.interface_number args = Some n -> n <> 0 ->
               Usb.bInterfaceNumber intf = n) /\
    (forall n, Main.endpoint_address args = Some n -> n <> 0 ->
               Usb.bEndpointAddress e = n) /\
    (Main.config args = None ->
     (Main.interface_number args = Some 0 -> Usb.bInterfaceNumber intf = 5) /\
     (Main.endpoint_address args = Some 0 -> Usb.bEndpointAddress e = 0x86)).
Proof.
  unfold Main.core_main.
  destruct (match Main.config args with
            | Some (String c path) =>
                Config.load_config int_10 int_16 (files (String c path))
            | _ => (∅, [])
            end) as [cfg logs'] eqn:Hload.
  intros [= Hst <-].
  destruct (discover_sound _ _ _ _ _ _ _ Hst) as (_ & _ & intf & e & Hi & He & Hn & Ha).
  exists intf, e. split_and!; [exact Hi|exact He|..].
  - intros n Harg Hne. rewrite Harg in Hn. cbn in Hn.
    rewrite (proj2 (Z.eqb_neq n 0) Hne) in Hn. apply int_eq_Int. exact Hn.
  - intros n Harg Hne. rewrite Harg in Ha. cbn in Ha.
    rewrite (proj2 (Z.eqb_neq n 0) Hne) in Ha. apply int_eq_Int. exact Ha.
  - intros Hnone. rewrite Hnone in Hload. injection Hload as <- <-. split.
    + intros Harg. rewrite Harg in Hn. apply int_eq_Int. exact Hn.
    + intros Harg. rewrite Harg in Ha. apply int_eq_Int. exact Ha.
Qed.

(** X19.  When the configuration file cannot be opened or decoded,
    [load_config] logs once and returns the empty dict, and chatmix's
    [main], if it gets past discovery, runs on its defaults: the device
    with vendor 0x1038 and product 0x2202, interface 5, endpoint 0x86,
    and no voice and no excluded application. *)
Theorem unreadable_config_gives_defaults path st logs :
  (forall config, files path <> Config.Loaded config) ->
  Main.chat_main int_10 int_16 find files path = (inr st, logs) ->
  length logs = 1%nat /\
  Main.voice_names st = ∅ /\ Main.exclude_names st = ∅ /\
  Usb.dev (Main.handles st) = find (Json.Int 0x1038) (Json.Int 0x2202) /\
  exists intf e,
    Usb.interface (Main.handles st) = Some intf /\
    Usb.endpoint (Main.handles st) = Some e /\
    Usb.bInterfaceNumber intf = 5 /\ Usb.bEndpointAddress e = 0x86.
Proof.
  intros Hfile. unfold Main.chat_main.
  assert (Hload : exists r, Config.load_config int_10 int_16 (files path) = (∅, [r])).
  { destruct (files path) as [| | |config]; cbn; eauto. exfalso. exact (Hfile config eq_refl). }
  destruct Hload as (r & ->). intros [= Hst <-]. split; [reflexivity|].
  unfold Main.get in Hst. rewrite !lookup_empty in Hst.
  destruct (discover_sound _ _ _ _ _ _ _ Hst) as (Hv & Hx & intf & e & Hi & He & Hn & Ha).
  cbn in Hv, Hx. injection Hv as <-. injection Hx as <-.
  split_and!; [reflexivity..| |].
  - revert Hst. unfold Main.discover. cbn [Json.str_set Json.iterate forallb].
    unfold Usb.find_usb_device.
    destruct (find _ _) as [d|]; [|discriminate].
    destruct (Usb.set_configuration d); [|discriminate].
    cbn [Usb.interface Usb.set_interface Usb.set_dev Usb.init].
    destruct (Usb.scan_device _ _ _); [|discriminate].
    cbn [Usb.endpoint Usb.set_endpoint].
    destruct (Usb.find_descriptor _ _); [|discriminate].
    intros [= <-]. reflexivity.
  - exists intf, e. split_and!; [exact Hi|exact He|apply int_eq_Int; exact Hn|
                                 apply int_eq_Int; exact Ha].
Qed.

End Startup.

Lemma string_setting_fails_discovery_witness :
  (forall st,
     (Main.chat_main Cases.int_10 Cases.int_16 Cases.find_headset Cases.files_string
        "config.json").1 <> inr st) /\
  (forall args st c rest,
     Main.config args = Some (String c rest) ->
     "config.json"%string = String c rest ->
     Main.interface_number args = None -> Main.endpoint_address args = None ->
     (Main.core_main Cases.int_10 Cases.int_16 Cases.find_headset Cases.files_string
        args).1 <> inr st).
Proof.
  exact (string_setting_fails_discovery Cases.int_10 Cases.int_16 Cases.find_headset
           Cases.files_string "config.json" Cases.config_string "5"
           eq_refl (or_introl eq_refl)).
Defined.

Lemma command_line_zero_is_not_given_witness :
  exists intf e,
    Usb.interface (Main.handles Cases.started_headset) = Some intf /\
    Usb.endpoint (Main.handles Cases.started_headset) = Some e /\
    (forall n, Main.interface_number Cases.args_zero = Some n -> n <> 0 ->
               Usb.bInterfaceNumber intf = n) /\
    (forall n, Main.endpoint_address Cases.args_zero = Some n -> n <> 0 ->
               Usb.bEndpointAddress e = n) /\
    (Main.config Cases.args_zero = None ->
     (Main.interface_number Cases.args_zero = Some 0 -> Usb.bInterfaceNumber intf = 5) /\
     (Main.endpoint_address Cases.args_zero = Some 0 -> Usb.bEndpointAddress e = 0x86)).
Proof.
  exact (command_line_zero_is_not_given Cases.int_10 Cases.int_16 Cases.find_headset
           Cases.files_none Cases.args_zero Cases.started_headset [] eq_refl).
Defined.

Lemma unreadable_config_gives_defaults_witness :
  length [Config.LogError] = 1%nat /\
  Main.voice_names Cases.started_headset = ∅ /\
  Main.exclude_names Cases.started_headset = ∅ /\
  Usb.dev (Main.handles Cases.started_headset)
  = Cases.find_headset (Json.Int 0x1038) (Json.Int 0x2202) /\
  exists intf e,
    Usb.interface (Main.handles Cases.started_headset) = Some intf /\
    Usb.endpoint (Main.handles Cases.started_headset) = Some e /\
    Usb.bInterfaceNumber intf = 5 /\ Usb.bEndpointAddress e = 0x86.
Proof.
  exact (unreadable_config_gives_defaults Cases.int_10 Cases.int_16 Cases.find_headset
           Cases.files_none "config.json" Cases.started_headset [Config.LogError]
           ltac:(intros config; discriminate) eq_refl).
Defined.
